(** * WhatsApp Web protocol core: a shallow embedding of the TypeScript sources

    The first part holds the definitions, one module per source unit:
    - [JS]: the JavaScript primitives the sources rely on;
    - [Codec]: the binary serializer and the frame classifier of
      [WhatsAppCore] (serializeList, serializeItem, serializeString,
      serializeBinary, parseBinaryMessage) with the token table [WA_TOKENS];
    - [Runtime]: key pairs, timers and effects shared by the authenticators;
    - [Pairing]: [PairingCodeAuthenticator.requestPairingCode] and
      [WhatsAppCore.generatePairingCode];
    - [QR]: [QRAuthenticator.generateQR] and [WhatsAppCore.handleQRResponse];
    - [Reconnect]: [WhatsAppCore.handleReconnection] with the socket handlers
      that call it, and [WebSocketClient._reconnect];
    - [Cache]: [WhatsAppCore.handleNewMessage] over the chat and message maps;
    - [Crypto]: the TweetNaCl wrapper (generateKeyPair, createSharedSecret,
      encrypt, decrypt) over the primitives of the library.
    The second part holds the theorems, in one module per module above.

    Conventions.  A JavaScript string is a Rocq [string] holding its UTF-8
    bytes, so [Buffer.from(s, 'utf8')] is the list of its character codes.  A
    [Buffer] is a list of integers, each written through [Buffer.from], which
    keeps the low eight bits.  Timers, emitted events, the clock and the
    random source are explicit: a method takes the random or clock values it
    draws as arguments and returns the list of effects it performs, in
    order.  Calls to [console.log] are left out. *)

From Stdlib Require Import ZArith List String Ascii Lia Bool.
From Stdlib Require Import Floats.SpecFloat.
From Stdlib Require Import DecimalString DecimalZ.
From stdpp Require Import gmap strings.
Import ListNotations.

Set Warnings "-register-all".

Local Open Scope string_scope.
Local Open Scope list_scope.
Local Open Scope Z_scope.

(** ** JavaScript primitives used by the sources *)

Module JS.

(** ToInt32: the conversion the bitwise operators apply to their operands. *)
Definition ToInt32 (x : Z) : Z := (x + 2 ^ 31) mod 2 ^ 32 - 2 ^ 31.

(** [x >> k] on numbers holding integers. *)
Definition shr (x k : Z) : Z := Z.shiftr (ToInt32 x) (k mod 32).

(** [x & y] on numbers holding integers. *)
Definition bitand (x y : Z) : Z := ToInt32 (Z.land (ToInt32 x) (ToInt32 y)).

(** Truthiness of a string: only the empty string is falsy. *)
Definition truthy_string (s : string) : bool :=
  match s with EmptyString => false | _ => true end.

(** Truthiness of a number holding an integer: only zero is falsy. *)
Definition truthy_number (n : Z) : bool := negb (n =? 0).

(** [Number.prototype.toString] on a number holding an integer of magnitude
    below 10^21: the decimal digits, with a minus sign when negative. *)
Definition Number_toString (n : Z) : string :=
  NilZero.string_of_int (Z.to_int n).

(** [Boolean.prototype.toString]. *)
Definition Boolean_toString (b : bool) : string :=
  if b then "true" else "false".

(** [Array.prototype.indexOf] on an array of strings: the first index holding
    the string, or -1. *)
Fixpoint indexOf_from (l : list string) (s : string) (i : Z) : Z :=
  match l with
  | [] => -1
  | t :: r => if String.eqb t s then i else indexOf_from r s (i + 1)
  end.

Definition indexOf (l : list string) (s : string) : Z := indexOf_from l s 0.

(** [String.prototype.includes]: some suffix of [s] starts with [sub]. *)
Fixpoint includes (s sub : string) : bool :=
  String.prefix sub s ||
  match s with
  | EmptyString => false
  | String _ r => includes r sub
  end.

(** [Array.prototype.join] on an array of strings. *)
Fixpoint join (sep : string) (l : list string) : string :=
  match l with
  | [] => EmptyString
  | [x] => x
  | x :: r => String.append x (String.append sep (join sep r))
  end.

(** [String.prototype.split] with a one-character separator. *)
Fixpoint split (sep : ascii) (s : string) : list string :=
  match s with
  | EmptyString => [EmptyString]
  | String c r =>
      if Ascii.eqb c sep then EmptyString :: split sep r
      else match split sep r with
           | f :: fs => String c f :: fs
           | [] => [String c EmptyString]
           end
  end.

(** No character of the string is [c]. *)
Fixpoint free_of (c : ascii) (s : string) : bool :=
  match s with
  | EmptyString => true
  | String d r => negb (Ascii.eqb d c) && free_of c r
  end.

End JS.

(** ** The binary codec of [WhatsAppCore] *)

Module Codec.

Definition Buffer := list Z.

(** [Buffer.from(array)]: every entry is stored modulo 256. *)
Definition Buffer_from (l : list Z) : Buffer := map (fun x => Z.land x 255) l.

(** [Buffer.from(str, 'utf8')]. *)
Definition Buffer_from_utf8 (s : string) : Buffer :=
  map (fun c => Z.of_N (N_of_ascii c)) (list_ascii_of_string s).

Definition WA_TOKENS : list string :=
  [EmptyString; EmptyString; EmptyString; "stream:start"; EmptyString;
   "stream:features"; EmptyString; EmptyString; EmptyString; EmptyString;
   EmptyString; EmptyString; EmptyString; EmptyString; "1"; "1.0"; "ack";
   "action"; "add"; "after"; "archive"; "author"; "available"; "battery";
   "before"; "body"; "broadcast"; "chat"; "class"; "clean"; "code";
   "composing"; "config"; "create"; "debug"; "delete"; "demote"; "duplicate";
   "encoding"; "error"; "false"; "filehash"; "from"; "g.us"; "group";
   "groups_v2"; "height"; "id"; "image"; "in"; "index"; "invis"; "item";
   "jid"; "kind"; "last"; "leave"; "live"; "log"; "media"; "message";
   "mimetype"; "missing"; "modify"; "name"; "notification"; "notify"; "out";
   "owner"; "participant"; "paused"; "picture"; "played"; "presence";
   "preview"; "promote"; "query"; "quoted"; "read"; "receipt"; "received";
   "recipient"; "recording"; "relay"; "remove"; "response"; "resume";
   "retry"; "s.whatsapp.net"; "seconds"; "set"; "size"; "status"; "subject";
   "subscribe"; "t"; "text"; "to"; "true"; "type"; "unarchive";
   "unavailable"; "url"; "user"; "value"; "web"; "width"; "mute";
   "read_only"; "admin"; "creator"; "short"; "update"; "powersave";
   "checksum"; "epoch"; "block"; "previous"; "409"; "replaced"; "reason";
   "spam"; "modify_tag"; "message_tag"; "delivery"; "emoji"; "title";
   "description"; "canonical-url"; "matched-text"; "star"; "unstar";
   "media_key"; "filename"; "identity"; "unread"; "page"; "page_size";
   "download"; "business"; "verified_name"; "location"; "document"; "audio";
   "video"; "init"; "platform"; "version"].

Module WA_TAGS.
Definition LIST_EMPTY : Z := 0.
Definition STREAM_8 : Z := 2.
Definition DICTIONARY_0 : Z := 236.
Definition DICTIONARY_1 : Z := 237.
Definition DICTIONARY_2 : Z := 238.
Definition DICTIONARY_3 : Z := 239.
Definition LIST_8 : Z := 248.
Definition LIST_16 : Z := 249.
Definition JID_PAIR : Z := 250.
Definition HEX_8 : Z := 251.
Definition BINARY_8 : Z := 252.
Definition BINARY_20 : Z := 253.
Definition BINARY_32 : Z := 254.
Definition NIBBLE_8 : Z := 255.
End WA_TAGS.

(** The values [serializeItem] distinguishes.  A number is an integer-valued
    JavaScript number; an object is the list of its own enumerable entries in
    [Object.entries] order. *)
Inductive value : Type :=
| VNull
| VUndefined
| VStr (s : string)
| VBool (b : bool)
| VNum (n : Z)
| VBuf (data : Buffer)
| VList (l : list value)
| VObj (entries : list (string * value)).

(** The three length bytes written after [BINARY_20]. *)
Definition length20 (len : Z) : Buffer :=
  Buffer_from [JS.bitand (JS.shr len 16) 255; JS.bitand (JS.shr len 8) 255;
               JS.bitand len 255].

Definition serializeString (str : string) : Buffer :=
  let tokenIndex := JS.indexOf WA_TOKENS str in
  if (0 <=? tokenIndex) && (tokenIndex <? 236) then Buffer_from [tokenIndex]
  else
    let strBuffer := Buffer_from_utf8 str in
    let len := Z.of_nat (length strBuffer) in
    if len <? 256 then Buffer_from [WA_TAGS.BINARY_8; len] ++ strBuffer
    else Buffer_from [WA_TAGS.BINARY_20] ++ length20 len ++ strBuffer.

Definition serializeBinary (data : Buffer) : Buffer :=
  let len := Z.of_nat (length data) in
  if len <? 256 then Buffer_from [WA_TAGS.BINARY_8; len] ++ data
  else Buffer_from [WA_TAGS.BINARY_20] ++ length20 len ++ data.

(** The head of [serializeList]: the empty-list marker, or the tag and count
    that precede the items of a list of [len] items. *)
Definition list_header (len : Z) : Buffer :=
  if len <? 256 then Buffer_from [WA_TAGS.LIST_8; len]
  else Buffer_from [WA_TAGS.LIST_16] ++
       Buffer_from [JS.bitand (JS.shr len 8) 255; JS.bitand len 255].

(** [serializeList] with the serializer of its items as a parameter, so that
    [serializeItem] below can call it on its own sub-terms. *)
Definition serializeListWith {A} (item : A -> Buffer) (list : list A) : Buffer :=
  if Z.of_nat (length list) =? 0 then Buffer_from [WA_TAGS.LIST_EMPTY]
  else list_header (Z.of_nat (length list)) ++ flat_map item list.

(** [serializeItem].  The object case serializes the list [k1, v1, k2, v2, ...];
    it is written over the entries so that the recursion is structural, and
    [serializeItem_object] shows that it is [serializeList] of that list.
    The last line of the source, [String(item)], is reached only by values
    of other types (functions, symbols, big integers), which [value] does
    not hold. *)
Fixpoint serializeItem (item : value) : Buffer :=
  match item with
  | VNull | VUndefined => Buffer_from [WA_TAGS.LIST_EMPTY]
  | VStr s => serializeString s
  | VBool b => serializeString (JS.Boolean_toString b)
  | VNum n => serializeString (JS.Number_toString n)
  | VBuf data => serializeBinary data
  | VList l => serializeListWith serializeItem l
  | VObj entries =>
      if Z.of_nat (length entries) =? 0 then Buffer_from [WA_TAGS.LIST_EMPTY]
      else list_header (2 * Z.of_nat (length entries)) ++
           flat_map (fun kv => serializeString (fst kv) ++ serializeItem (snd kv))
                    entries
  end.

Definition serializeList (list : list value) : Buffer :=
  serializeListWith serializeItem list.

(** The list [pairs] that [serializeItem] builds from [Object.entries(item)]. *)
Definition entries_pairs (entries : list (string * value)) : list value :=
  flat_map (fun kv => [VStr (fst kv); snd kv]) entries.

(** [data.toString('binary')]: one character per byte. *)
Definition toString_binary (data : Buffer) : string :=
  string_of_list_ascii (map (fun b => ascii_of_N (Z.to_N b)) data).

Definition hex_digit (d : Z) : ascii :=
  ascii_of_N (Z.to_N (if d <? 10 then 48 + d else 87 + d)).

(** [data.toString('hex')]: two lowercase digits per byte. *)
Fixpoint toString_hex (data : Buffer) : string :=
  match data with
  | [] => EmptyString
  | b :: r => String (hex_digit (b / 16)) (String (hex_digit (b mod 16)) (toString_hex r))
  end.

(** The character class [[a-zA-Z0-9+/=]]. *)
Definition ref_char (c : ascii) : bool :=
  let n := N_of_ascii c in
  ((97 <=? n) && (n <=? 122) || (65 <=? n) && (n <=? 90) ||
   (48 <=? n) && (n <=? 57) || (n =? 43) || (n =? 47) || (n =? 61))%N.

(** The longest prefix of [s] made of [ref_char]s: what the greedy
    quantifier consumes from a given start. *)
Fixpoint ref_run (s : string) : string :=
  match s with
  | String c r => if ref_char c then String c (ref_run r) else EmptyString
  | EmptyString => EmptyString
  end.

(** [dataStr.match(/([a-zA-Z0-9+/=]{20,})/)]: the search tries every start
    from the left and keeps the first at which twenty or more class
    characters follow; group 1 is the whole greedy run. *)
Fixpoint match_ref (s : string) : option string :=
  let run := ref_run s in
  if (20 <=? String.length run)%nat then Some run
  else match s with
       | String _ r => match_ref r
       | EmptyString => None
       end.

(** The object literals [parseBinaryMessage] returns. *)
Definition parsed (type : string) (data : value) : value :=
  VObj [("type", VStr type); ("data", data)].

Definition qr_response (ref : string) : value :=
  parsed "qr_response" (VObj [("ref", VStr ref)]).

Definition auth_success : value :=
  parsed "auth_success"
         (VObj [("wid", VStr "user@c.us"); ("pushname", VStr "WhatsApp User")]).

Definition unknown (data : Buffer) : value :=
  parsed "unknown" (VObj [("raw", VStr (toString_hex data))]).

(** [parseBinaryMessage].  Nothing in its [try] block throws on a Buffer, so
    the [catch] branch is not reached and is left out. *)
Definition parseBinaryMessage (data : Buffer) : value :=
  let dataStr := toString_binary data in
  let qr :=
    if (10 <? Z.of_nat (length data)) &&
       match data with b :: _ => b =? WA_TAGS.LIST_8 | [] => false end
    then match_ref dataStr else None in
  match qr with
  | Some ref => qr_response ref
  | None =>
      if JS.includes dataStr "success" || JS.includes dataStr "connected"
      then auth_success
      else unknown data
  end.

(** What a decoder returning strings for booleans and numbers would have to
    return for [v]: [v] with every boolean and number replaced by the string
    [serializeItem] writes for it. *)
Fixpoint as_decoded (v : value) : value :=
  match v with
  | VBool b => VStr (JS.Boolean_toString b)
  | VNum n => VStr (JS.Number_toString n)
  | VList l => VList (map as_decoded l)
  | VObj entries => VObj (map (fun kv => (fst kv, as_decoded (snd kv))) entries)
  | _ => v
  end.

End Codec.

(** ** What the authenticators share: key pairs, timers and effects *)

Module Runtime.

(** The pair [generateKeyPair] returns, both keys in Base64. *)
Record keypair := { privateKey : string; publicKey : string }.

(** A pending [setTimeout] or [setInterval]: its delay and the event its
    callback emits. *)
Record timer := { delay : Z; fires : string }.

Inductive effect :=
| ClearTimeout (t : timer)
| ClearInterval (t : timer)
| SetTimeout (t : timer)
| SetInterval (t : timer)
| Emit (event : string) (payload : Codec.value)
| WriteFile (path content : string).

(** The outcome of an [async] method: the promise it returns is fulfilled
    or rejected with an [Error]. *)
Inductive outcome := Fulfilled | Rejected (message : string).

End Runtime.

(** ** [PairingCodeAuthenticator] and [WhatsAppCore.generatePairingCode] *)

Module Pairing.
Export Runtime.

Record state := {
  clientId : string;
  keys : keypair;
  pairingTimeout : Z;
  phoneNumber : option string;
  pairingTimer : option timer
}.

(** The constructor: [clientId] and the key pair are drawn by the caller of
    the model ([randomBytes(16).toString('hex')], [generateKeyPair()]). *)
Definition new (options_clientId : option string) (options_pairingTimeout : option Z)
  (random_clientId : string) (generated : keypair) : state :=
  {| clientId :=
       match options_clientId with
       | Some c => if JS.truthy_string c then c else random_clientId
       | None => random_clientId
       end;
     keys := generated;
     pairingTimeout :=
       match options_pairingTimeout with
       | Some t => if JS.truthy_number t then t else 60000
       | None => 60000
       end;
     phoneNumber := None;
     pairingTimer := None |}.

(** The class [[0-9]]. *)
Definition digit (c : ascii) : bool :=
  let n := N_of_ascii c in ((48 <=? n) && (n <=? 57))%N.

Fixpoint all_digits (s : string) : bool :=
  match s with
  | EmptyString => true
  | String c r => digit c && all_digits r
  end.

(** [phoneNumber.match(/^\+?[0-9]{10,15}$/)]: after an optional plus sign,
    the whole rest of the string is ten to fifteen digits. *)
Definition matches_phone_pattern (s : string) : bool :=
  let rest := match s with
              | String "+"%char r => r
              | _ => s
              end in
  all_digits rest &&
  (10 <=? String.length rest)%nat && (String.length rest <=? 15)%nat.

(** [phoneNumber.replace(/[^0-9]/g, '')]. *)
Fixpoint digits_only (s : string) : string :=
  match s with
  | EmptyString => EmptyString
  | String c r => if digit c then String c (digits_only r) else digits_only r
  end.

Definition invalid_phone_number : string :=
  "Invalid phone number format. Use international format (e.g. +1234567890)".

Definition clearTimers (st : state) : state * list effect :=
  match pairingTimer st with
  | Some t =>
      ({| clientId := clientId st; keys := keys st;
          pairingTimeout := pairingTimeout st; phoneNumber := phoneNumber st;
          pairingTimer := None |}, [ClearTimeout t])
  | None => (st, [])
  end.

(** [requestPairingCode]: the outcome, the authenticator afterwards, and the
    effects performed, in order. *)
Definition requestPairingCode (st : state) (phone : string)
  : outcome * state * list effect :=
  if negb (JS.truthy_string phone) || negb (matches_phone_pattern phone)
  then (Rejected invalid_phone_number, st, [])
  else
    let st1 := {| clientId := clientId st; keys := keys st;
                  pairingTimeout := pairingTimeout st;
                  phoneNumber := Some (digits_only phone);
                  pairingTimer := pairingTimer st |} in
    let '(st2, cleared) := clearTimers st1 in
    let t := {| delay := pairingTimeout st2; fires := "pairing_expired" |} in
    let st3 := {| clientId := clientId st2; keys := keys st2;
                  pairingTimeout := pairingTimeout st2;
                  phoneNumber := phoneNumber st2;
                  pairingTimer := Some t |} in
    (Fulfilled, st3,
     cleared ++
     [SetTimeout t;
      Emit "pairing_requested"
           (Codec.VObj
              [("clientId", Codec.VStr (clientId st3));
               ("publicKey", Codec.VStr (publicKey (keys st3)));
               ("phoneNumber",
                match phoneNumber st3 with
                | Some p => Codec.VStr p
                | None => Codec.VNull
                end)])]).

(** *** [WhatsAppCore.generatePairingCode] *)

Definition chars : string := "ABCDEFGHIJKLMNOPQRSTUVWXYZ0123456789".

(** The format of a JavaScript number: IEEE 754 binary64, with the
    operations of the Standard Library's [SpecFloat]. *)
Definition prec : Z := 53.
Definition emax : Z := 1024.

(** [x * y] on numbers: the product rounded to the nearest double, ties to
    even. *)
Definition Number_mul (x y : spec_float) : spec_float := SFmul prec emax x y.

(** An integer as a number. *)
Definition Number_of_Z (n : Z) : spec_float :=
  binary_normalize prec emax n 0 false.

(** [Math.floor] of a number, as an integer: [None] for NaN and the
    infinities, which are no integers. *)
Definition Math_floor (x : spec_float) : option Z :=
  match x with
  | S754_zero _ => Some 0
  | S754_finite s m e =>
      let below := if 0 <=? e then Z.pos m * 2 ^ e else Z.pos m / 2 ^ (- e) in
      let above := if 0 <=? e then Z.pos m * 2 ^ e
                   else - ((- Z.pos m) / 2 ^ (- e)) in
      Some (if s then - above else below)
  | S754_infinity _ | S754_nan => None
  end.

(** What [Math.random()] may return: a double that is at least zero and
    less than one. *)
Definition unit_interval (r : spec_float) : bool :=
  valid_binary prec emax r && SFleb (S754_zero false) r &&
  SFltb r (Number_of_Z 1).

(** [chars[Math.floor(r * chars.length)]] appended to a string: the character
    at that index, or the text of [undefined] when there is none.  [r] is the
    double that [Math.random()] returned, and the product is the double
    product. *)
Definition pick (r : spec_float) : string :=
  match Math_floor
          (Number_mul r (Number_of_Z (Z.of_nat (String.length chars)))) with
  | Some i =>
      if i <? 0 then "undefined"
      else match String.get (Z.to_nat i) chars with
           | Some c => String c EmptyString
           | None => "undefined"
           end
  | None => "undefined"
  end.

(** The loop of [generatePairingCode] over its eight draws. *)
Definition generatePairingCode (random : nat -> spec_float) : string :=
  fold_left (fun code i => code +:+ pick (random i)) (seq 0 8) EmptyString.

(** Two draws: one half, and a double just below 25/36 whose product with
    36 rounds up to 25. *)
Definition one_half : spec_float := S754_finite false 4503599627370496 (-53).
Definition rounding_draw : spec_float :=
  S754_finite false 6254999482459022 (-53).

(** The class [[A-Z0-9]] and the pattern [^[A-Z0-9]{8}$]. *)
Definition upper_or_digit (c : ascii) : bool :=
  let n := N_of_ascii c in
  ((65 <=? n) && (n <=? 90) || (48 <=? n) && (n <=? 57))%N.

Definition matches_code_pattern (s : string) : bool :=
  forallb upper_or_digit (list_ascii_of_string s) &&
  (String.length s =? 8)%nat.

(** An authenticator as the constructor leaves it, for concrete runs. *)
Definition fresh_authenticator : state :=
  new None None "0123456789abcdef0123456789abcdef"
      {| privateKey := "c2VjcmV0LWtleQ=="; publicKey := "cHVibGljLWtleQ==" |}.

(** The words of the specification for an acceptable phone number: ten to
    fifteen digits, with an optional leading plus sign. *)
Definition E164_like (s : string) : Prop :=
  exists ds : string,
    (s = ds \/ s = String "+"%char ds) /\
    all_digits ds = true /\ (10 <= String.length ds <= 15)%nat.

End Pairing.

(** ** How a call ends for its caller *)

Module Call.

(** An error object: the name of its constructor and its message. *)
Record error := { name : string; message : string }.

(** A promise, once settled. *)
Inductive promise := Resolved | RejectedWith (e : error).

(** A call returns a value, or throws an error where it is made. *)
Inductive completion (A : Type) :=
| Returns (a : A)
| Throws (e : error).
Arguments Returns {A} a.
Arguments Throws {A} e.

(** [PairingCodeAuthenticator.requestPairingCode] as its caller sees it.
    The method is declared [async], so the call itself never throws: it
    returns a promise, and the [throw new Error(...)] in its body rejects
    that promise with the [Error] made there. *)
Definition requestPairingCode (st : Pairing.state) (phone : string)
  : completion promise * Pairing.state * list Runtime.effect :=
  let '(out, st', effs) := Pairing.requestPairingCode st phone in
  (Returns match out with
           | Runtime.Fulfilled => Resolved
           | Runtime.Rejected m =>
               RejectedWith {| name := "Error"; message := m |}
           end,
   st', effs).

End Call.

(** ** [QRAuthenticator] and [WhatsAppCore.handleQRResponse] *)

Module QR.
Export Runtime.

Record state := {
  clientId : string;
  keys : keypair;
  qrTimeout : Z;
  qrRefreshInterval : Z;
  qrTimer : option timer;
  qrRefreshTimer : option timer;
  qrData : option string
}.

(** The constructor, with the drawn client id and key pair as arguments. *)
Definition new (options_clientId : option string)
  (options_qrTimeout options_qrRefreshInterval : option Z)
  (random_clientId : string) (generated : keypair) : state :=
  {| clientId :=
       match options_clientId with
       | Some c => if JS.truthy_string c then c else random_clientId
       | None => random_clientId
       end;
     keys := generated;
     qrTimeout :=
       match options_qrTimeout with
       | Some t => if JS.truthy_number t then t else 60000
       | None => 60000
       end;
     qrRefreshInterval :=
       match options_qrRefreshInterval with
       | Some t => if JS.truthy_number t then t else 20000
       | None => 20000
       end;
     qrTimer := None; qrRefreshTimer := None; qrData := None |}.

Definition clearTimers (st : state) : state * list effect :=
  let cleared :=
    match qrTimer st with Some t => [ClearTimeout t] | None => [] end ++
    match qrRefreshTimer st with Some t => [ClearInterval t] | None => [] end in
  ({| clientId := clientId st; keys := keys st; qrTimeout := qrTimeout st;
      qrRefreshInterval := qrRefreshInterval st;
      qrTimer := None; qrRefreshTimer := None; qrData := qrData st |},
   cleared).

(** [generateQR], with the drawn [ref] ([randomBytes(16).toString('base64')])
    as an argument: the string returned, the authenticator afterwards and the
    effects in order. *)
Definition generateQR (st : state) (ref : string)
  : string * state * list effect :=
  let '(st1, cleared) := clearTimers st in
  let data := ref +:+ "," +:+ clientId st1 +:+ "," +:+ publicKey (keys st1) in
  let expiry := {| delay := qrTimeout st1; fires := "qr_expired" |} in
  let refresh :=
    {| delay := qrRefreshInterval st1; fires := "qr_refresh_needed" |} in
  (data,
   {| clientId := clientId st1; keys := keys st1; qrTimeout := qrTimeout st1;
      qrRefreshInterval := qrRefreshInterval st1;
      qrTimer := Some expiry; qrRefreshTimer := Some refresh;
      qrData := Some data |},
   cleared ++ [SetTimeout expiry; SetInterval refresh;
               Emit "qr" (Codec.VStr data)]).

(** *** The variant in [WhatsAppCore] *)

(** The fields of [AuthCredentials] and [QRData] that [handleQRResponse]
    reads and writes. *)
Record AuthCredentials := {
  cred_clientId : string;
  cred_publicKey : Codec.Buffer
}.

Record QRData := {
  ref : string;
  qr_publicKey : string;
  qr_clientId : string;
  timestamp : Z
}.

Record core := {
  credentials : option AuthCredentials;
  core_qrData : option QRData;
  core_qrRefreshInterval : option timer;
  sessionPath : option string
}.

(** [handleQRResponse(data)] for [data.ref] given; [now] is [Date.now()] and
    [base64] is [Buffer.prototype.toString('base64')]. *)
Definition handleQRResponse (base64 : Codec.Buffer -> string) (now : Z)
  (c : core) (data_ref : option string) : core * list effect :=
  match data_ref, credentials c with
  | Some r, Some cred =>
      if JS.truthy_string r then
        let q := {| ref := r; qr_publicKey := base64 (cred_publicKey cred);
                    qr_clientId := cred_clientId cred; timestamp := now |} in
        let qrString := JS.join "," [ref q; qr_publicKey q; qr_clientId q] in
        let refresh := {| delay := 60000; fires := "startQRAuthentication" |} in
        ({| credentials := credentials c; core_qrData := Some q;
            core_qrRefreshInterval := Some refresh;
            sessionPath := sessionPath c |},
         [Emit "qr" (Codec.VStr qrString)] ++
         match sessionPath c with
         | Some path =>
             if JS.truthy_string path
             then [WriteFile (path +:+ "/qr.txt") qrString] else []
         | None => []
         end ++
         match core_qrRefreshInterval c with
         | Some t => [ClearInterval t]
         | None => []
         end ++ [SetInterval refresh])
      else (c, [])
  | _, _ => (c, [])
  end.

End QR.

(** ** Reconnection: [WhatsAppCore.handleReconnection] and
    [WebSocketClient._reconnect] *)

Module Reconnect.

(** [config.connection], the two fields the policy reads. *)
Record connection := { retryCount : Z; retryDelay : Z }.

Record state := { isConnected : bool; reconnectCount : Z }.

Inductive effect :=
| Emit (event : string)
| ConnectAfter (delay : Z).

(** [handleReconnection]: [ConnectAfter d] is the [setTimeout] that calls
    [connect()] after [d] milliseconds. *)
Definition handleReconnection (cfg : connection) (st : state)
  : state * list effect :=
  if retryCount cfg <=? reconnectCount st then (st, [Emit "connection.failed"])
  else
    let count := reconnectCount st + 1 in
    ({| isConnected := isConnected st; reconnectCount := count |},
     [ConnectAfter (retryDelay cfg * count)]).

(** What reaches the policy: the socket opens, the socket closes with a code,
    or [connect()] fails and its [catch] runs. *)
Inductive event := Open | Close (code : Z) | ConnectFailed.

Definition handle (cfg : connection) (st : state) (e : event)
  : state * list effect :=
  match e with
  | Open =>
      ({| isConnected := true; reconnectCount := 0 |},
       [Emit "connection.update"])
  | Close _ =>
      let '(st', effs) :=
        handleReconnection cfg {| isConnected := false;
                                  reconnectCount := reconnectCount st |} in
      (st', Emit "connection.update" :: effs)
  | ConnectFailed =>
      let '(st', effs) := handleReconnection cfg st in
      (st', Emit "error" :: effs)
  end.

Fixpoint run (cfg : connection) (st : state) (es : list event)
  : state * list effect :=
  match es with
  | [] => (st, [])
  | e :: r =>
      let '(st1, effs1) := handle cfg st e in
      let '(st2, effs2) := run cfg st1 r in
      (st2, effs1 ++ effs2)
  end.

(** The reconnections scheduled among a list of effects, by their delays. *)
Definition scheduled (effs : list effect) : list Z :=
  flat_map (fun e => match e with ConnectAfter d => [d] | Emit _ => [] end) effs.




(** *** [WebSocketClient._reconnect] *)

Record options := { reconnectInterval : Z; maxReconnectAttempts : Z }.

Record client := { reconnectAttempts : Z; reconnectTimer : option Z }.

Inductive client_effect :=
| ClearTimeout (delay : Z)
| ClientEmit (event : string) (attempt : option Z)
| ClientConnectAfter (delay : Z).

Definition _reconnect (o : options) (c : client) : client * list client_effect :=
  let cleared :=
    match reconnectTimer c with Some d => [ClearTimeout d] | None => [] end in
  let max := if JS.truthy_number (maxReconnectAttempts o)
             then maxReconnectAttempts o else 10 in
  if max <=? reconnectAttempts c
  then ({| reconnectAttempts := reconnectAttempts c; reconnectTimer := None |},
        cleared ++ [ClientEmit "reconnect_failed" None])
  else
    let n := reconnectAttempts c + 1 in
    ({| reconnectAttempts := n; reconnectTimer := Some (reconnectInterval o) |},
     cleared ++ [ClientEmit "reconnecting" (Some n);
                 ClientConnectAfter (reconnectInterval o)]).

End Reconnect.

(** ** The entity cache: [WhatsAppCore.handleNewMessage] *)

Module Cache.

(** The fields of [WAMessage] that [handleNewMessage] sets.  [chat] and
    [sender] are [None] when the expression that computes them is
    [undefined]. *)
Record WAMessage := {
  id : string;
  fromMe : bool;
  timestamp : Z;
  chat : option string;
  sender : option string;
  type : string;
  content : Codec.value;
  status : string
}.

Record WAChat := {
  chat_id : string;
  name : string;
  chat_type : string;
  chat_timestamp : Z;
  unreadCount : Z;
  lastMessage : option WAMessage;
  participants : option (list string);
  admins : option (list string);
  description : option string;
  picture : option string;
  archived : bool;
  pinned : bool;
  muted : bool
}.

(** The parsed event handed to [handleNewMessage]: each property it reads,
    [None] when the property is absent. *)
Record data := {
  data_id : option string;
  data_timestamp : option Z;
  data_from : option string;
  data_chat : option string;
  data_sender : option string;
  data_type : option string;
  data_content : option Codec.value;
  data_text : option string
}.

(** The two maps of the cache. *)
Record cache := {
  chats : gmap string WAChat;
  messages : gmap string WAMessage
}.

Inductive effect :=
| EmitMessage (event : string) (m : WAMessage)
| EmitChat (event : string) (c : WAChat)
| Webhook (event : string) (m : WAMessage).

(** What a call draws from its environment: [Date.now()] and
    [randomBytes(8).toString('hex')]. *)
Record env := { now : Z; random_hex : string }.

(** Truthiness of the values of the codec. *)
Definition truthy (v : Codec.value) : bool :=
  match v with
  | Codec.VNull | Codec.VUndefined => false
  | Codec.VStr s => JS.truthy_string s
  | Codec.VBool b => b
  | Codec.VNum n => JS.truthy_number n
  | Codec.VBuf _ | Codec.VList _ | Codec.VObj _ => true
  end.

(** [a || b] where [a] is a string or [undefined] and [b] is a string. *)
Definition or_string (a : option string) (b : string) : string :=
  match a with
  | Some s => if JS.truthy_string s then s else b
  | None => b
  end.

(** [a || b] where both are strings or [undefined]. *)
Definition or_option (a b : option string) : option string :=
  match a with
  | Some s => if JS.truthy_string s then a else b
  | None => b
  end.

(** [a || b] where [a] is a number or [undefined] and [b] is a number. *)
Definition or_number (a : option Z) (b : Z) : Z :=
  match a with
  | Some n => if JS.truthy_number n then n else b
  | None => b
  end.

Definition generateMessageId (e : env) : string :=
  "msg_" +:+ JS.Number_toString (now e) +:+ "_" +:+ random_hex e.

(** The message object built at the head of [handleNewMessage]. *)
Definition message_of (e : env) (d : data) : WAMessage :=
  {| id := or_string (data_id d) (generateMessageId e);
     fromMe := false;
     timestamp := or_number (data_timestamp d) (now e);
     chat := or_option (data_from d) (data_chat d);
     sender := or_option (data_sender d) (data_from d);
     type := or_string (data_type d) "text";
     content :=
       match data_content d with
       | Some c =>
           if truthy c then c
           else Codec.VObj [("text", match data_text d with
                                     | Some t => Codec.VStr t
                                     | None => Codec.VUndefined
                                     end)]
       | None =>
           Codec.VObj [("text", match data_text d with
                                | Some t => Codec.VStr t
                                | None => Codec.VUndefined
                                end)]
       end;
     status := "received" |}.

(** The three assignments to the chat of a message. *)
Definition touch (m : WAMessage) (c : WAChat) : WAChat :=
  {| chat_id := chat_id c; name := name c; chat_type := chat_type c;
     chat_timestamp := timestamp m;
     unreadCount := unreadCount c + 1;
     lastMessage := Some m;
     participants := participants c; admins := admins c;
     description := description c; picture := picture c;
     archived := archived c; pinned := pinned c; muted := muted c |}.

(** [this.chats.get(message.chat)]. *)
Definition chat_of (st : cache) (m : WAMessage) : option (string * WAChat) :=
  match chat m with
  | Some k => match chats st !! k with
              | Some c => Some (k, c)
              | None => None
              end
  | None => None
  end.

(** [handleNewMessage]; [webhooks] is
    [config.features.webhooks && config.webhooks]. *)
Definition handleNewMessage (webhooks : bool) (e : env) (d : data) (st : cache)
  : cache * list effect :=
  let message := message_of e d in
  let messages' := <[id message := message]> (messages st) in
  let '(chats', updated) :=
    match chat_of st message with
    | Some (k, c) =>
        let c' := touch message c in
        (<[k := c']> (chats st), [EmitChat "chat.update" c'])
    | None => (chats st, [])
    end in
  ({| chats := chats'; messages := messages' |},
   [EmitMessage "message.new" message] ++ updated ++
   (if webhooks then [Webhook "message.new" message] else [])).

(** An event carries an id and a timestamp when both are present and
    truthy: the message built from it then owes nothing to the clock or the
    random source. *)
Definition carries_id_and_timestamp (d : data) : Prop :=
  (exists i, data_id d = Some i /\ JS.truthy_string i = true) /\
  (exists t, data_timestamp d = Some t /\ JS.truthy_number t = true).

(** A cache holding one chat, and an event for it that carries an id and a
    timestamp. *)
Definition one_chat : WAChat :=
  {| chat_id := "1234567890@s.whatsapp.net"; name := "Ana"; chat_type := "dm";
     chat_timestamp := 1700000000000; unreadCount := 0; lastMessage := None;
     participants := None; admins := None; description := None;
     picture := None; archived := false; pinned := false; muted := false |}.

Definition one_chat_cache : cache :=
  {| chats := {[ "1234567890@s.whatsapp.net" := one_chat ]}; messages := ∅ |}.

Definition hello_event : data :=
  {| data_id := Some "3EB0A1"; data_timestamp := Some 1700000001000;
     data_from := Some "1234567890@s.whatsapp.net"; data_chat := None;
     data_sender := None; data_type := None; data_content := None;
     data_text := Some "hello" |}.

Definition noon : env := {| now := 1700000002000; random_hex := "00ff00ff00ff00ff" |}.

End Cache.

(** ** The TweetNaCl wrapper: [generateKeyPair], [createSharedSecret],
    [encrypt], [decrypt] *)

Module Crypto.

Definition Uint8Array := list ascii.

(** A call returns a value or throws an [Error] with a message. *)
Inductive result (A : Type) :=
| Ok (a : A)
| Throw (message : string).
Arguments Ok {A} a.
Arguments Throw {A} message.

Definition bind {A B} (r : result A) (k : A -> result B) : result B :=
  match r with
  | Ok a => k a
  | Throw msg => Throw msg
  end.

Notation "'let*' x := r 'in' k" := (bind r (fun x => k))
  (at level 10, x name, r at level 100, k at level 200).

(** Modelled from the spec: the primitives of the [tweetnacl] and
    [tweetnacl-util] packages and of [JSON], none of which is in the
    repository.  Curve25519 scalar multiplication with its base point, the
    HSalsa20 key derivation, the XSalsa20-Poly1305 box, Base64 and UTF-8
    conversion ([None] where the library throws), [JSON.stringify], and
    [JSON.parse] ([None] where it throws). *)
Class NaCl := {
  scalarMult : Uint8Array -> Uint8Array -> Uint8Array;
  basePoint : Uint8Array;
  hsalsa20 : Uint8Array -> Uint8Array;
  seal : Uint8Array -> Uint8Array -> Uint8Array -> Uint8Array;
  unseal : Uint8Array -> Uint8Array -> Uint8Array -> option Uint8Array;
  encodeBase64 : Uint8Array -> string;
  decodeBase64 : string -> option Uint8Array;
  decodeUTF8 : string -> Uint8Array;
  encodeUTF8 : Uint8Array -> option string;
  JSON_stringify : Codec.value -> string;
  JSON_parse : string -> option Codec.value
}.

(** Modelled from the spec: what the packages guarantee.  Scalar
    multiplications of the base point commute (key-agreement semantics) and
    give 32 bytes, as does the key derivation; a box opens under the nonce
    and key that sealed it; Base64 and UTF-8 decoding invert encoding; and
    the decimal text of a safe integer parses to that number. *)
Record NaClLaws (L : NaCl) : Prop := {
  scalarMult_comm : forall a b,
    scalarMult a (scalarMult b basePoint) = scalarMult b (scalarMult a basePoint);
  scalarMult_base_length : forall n,
    length n = 32%nat -> length (scalarMult n basePoint) = 32%nat;
  hsalsa20_length : forall s, length (hsalsa20 s) = 32%nat;
  unseal_seal : forall m n k, unseal (seal m n k) n k = Some m;
  decodeBase64_encodeBase64 : forall b, decodeBase64 (encodeBase64 b) = Some b;
  encodeUTF8_decodeUTF8 : forall s, encodeUTF8 (decodeUTF8 s) = Some s;
  JSON_parse_integer : forall n,
    - 2 ^ 53 < n < 2 ^ 53 ->
    JSON_parse (JS.Number_toString n) = Some (Codec.VNum n)
}.


Section Wrapper.
Context {L : NaCl}.

(** [naclUtil.decodeBase64], which throws on a string that is no Base64. *)
Definition util_decodeBase64 (s : string) : result Uint8Array :=
  match decodeBase64 s with
  | Some b => Ok b
  | None => Throw "invalid encoding"
  end.

(** [nacl.box.keyPair()], with the 32 random bytes of the secret key as an
    argument: the secret key and the public key. *)
Definition box_keyPair (random32 : Uint8Array) : Uint8Array * Uint8Array :=
  (random32, scalarMult random32 basePoint).

(** [nacl.box.before(publicKey, secretKey)]. *)
Definition box_before (publicKey secretKey : Uint8Array) : result Uint8Array :=
  if negb (length publicKey =? 32)%nat then Throw "bad public key size"
  else if negb (length secretKey =? 32)%nat then Throw "bad secret key size"
  else Ok (hsalsa20 (scalarMult secretKey publicKey)).

(** [nacl.secretbox(msg, nonce, key)]. *)
Definition secretbox (msg nonce key : Uint8Array) : result Uint8Array :=
  if negb (length key =? 32)%nat then Throw "bad key size"
  else if negb (length nonce =? 24)%nat then Throw "bad nonce size"
  else Ok (seal msg nonce key).

(** [nacl.secretbox.open(box, nonce, key)]: [None] is its [null]. *)
Definition secretbox_open (box nonce key : Uint8Array)
  : result (option Uint8Array) :=
  if negb (length key =? 32)%nat then Throw "bad key size"
  else if negb (length nonce =? 24)%nat then Throw "bad nonce size"
  else Ok (unseal box nonce key).

Definition generateKeyPair (random32 : Uint8Array) : Runtime.keypair :=
  let keypair := box_keyPair random32 in
  {| Runtime.privateKey := encodeBase64 (fst keypair);
     Runtime.publicKey := encodeBase64 (snd keypair) |}.

Definition createSharedSecret (privateKey publicKey : string)
  : result Uint8Array :=
  let* decodedPrivateKey := util_decodeBase64 privateKey in
  let* decodedPublicKey := util_decodeBase64 publicKey in
  box_before decodedPublicKey decodedPrivateKey.

(** [typeof message === 'object']. *)
Definition typeof_object (v : Codec.value) : bool :=
  match v with
  | Codec.VNull | Codec.VBuf _ | Codec.VList _ | Codec.VObj _ => true
  | _ => false
  end.

(** The shared secret both [encrypt] and [decrypt] compute: from the two keys
    when a truthy public key is given, else the private key itself. *)
Definition sharedSecret (privateKey : string) (publicKey : option string)
  : result Uint8Array :=
  match publicKey with
  | Some pk =>
      if JS.truthy_string pk then createSharedSecret privateKey pk
      else util_decodeBase64 privateKey
  | None => util_decodeBase64 privateKey
  end.

(** [encrypt], with the 24 bytes of [nacl.randomBytes(24)] as an argument. *)
Definition encrypt (message : Codec.value) (privateKey : string)
  (publicKey : option string) (nonce : Uint8Array) : result string :=
  let* messageBytes :=
    if typeof_object message then Ok (decodeUTF8 (JSON_stringify message))
    else match message with
         | Codec.VStr messageStr => Ok (decodeUTF8 messageStr)
         | _ => Throw "expected string"
         end in
  let* secret := sharedSecret privateKey publicKey in
  let* encryptedBytes := secretbox messageBytes nonce secret in
  Ok (encodeBase64 (nonce ++ encryptedBytes)).

(** [decrypt]: the parsed JSON value when the decrypted text parses, else
    the text as a string. *)
Definition decrypt (encryptedB64 : string) (privateKey : string)
  (publicKey : option string) : result Codec.value :=
  let* combined := util_decodeBase64 encryptedB64 in
  let nonce := firstn 24 combined in
  let encryptedBytes := skipn 24 combined in
  let* secret := sharedSecret privateKey publicKey in
  let* decryptedBytes := secretbox_open encryptedBytes nonce secret in
  match decryptedBytes with
  | None => Throw "Failed to decrypt message"
  | Some bytes =>
      match encodeUTF8 bytes with
      | None => Throw "URI malformed"
      | Some decryptedStr =>
          match JSON_parse decryptedStr with
          | Some parsed => Ok parsed
          | None => Ok (Codec.VStr decryptedStr)
          end
      end
  end.

(** The text [encrypt] seals for a message: the JSON text of an object, or
    the string itself. *)
Definition sealed_text (message : Codec.value) : option string :=
  if typeof_object message then Some (JSON_stringify message)
  else match message with
       | Codec.VStr s => Some s
       | _ => None
       end.

(** What [decrypt] returns for a text: its JSON value when it parses, else
    the text. *)
Definition read_text (text : string) : Codec.value :=
  match JSON_parse text with
  | Some parsed => parsed
  | None => Codec.VStr text
  end.

End Wrapper.

(** *** A small instance of the primitives

    Bytes are combined by exclusive or, a box is the message behind its key
    and nonce, Base64 and UTF-8 are the identity on bytes, and JSON knows
    the integers and [null].  It serves to run the wrapper on concrete
    inputs. *)

Definition ascii_xor (a b : ascii) : ascii :=
  match a, b with
  | Ascii a0 a1 a2 a3 a4 a5 a6 a7, Ascii b0 b1 b2 b3 b4 b5 b6 b7 =>
      Ascii (xorb a0 b0) (xorb a1 b1) (xorb a2 b2) (xorb a3 b3)
            (xorb a4 b4) (xorb a5 b5) (xorb a6 b6) (xorb a7 b7)
  end.

Fixpoint xor_bytes (n p : Uint8Array) : Uint8Array :=
  match n, p with
  | x :: n', y :: p' => ascii_xor x y :: xor_bytes n' p'
  | _, _ => []
  end.

Definition pad32 (s : Uint8Array) : Uint8Array :=
  firstn 32 (s ++ repeat "000"%char 32).

Definition small_unseal (box nonce key : Uint8Array) : option Uint8Array :=
  if decide (firstn (length key + length nonce) box = key ++ nonce)
  then Some (skipn (length key + length nonce) box)
  else None.

Definition small_JSON_parse (s : string) : option Codec.value :=
  match NilZero.int_of_string s with
  | Some d =>
      if String.eqb (JS.Number_toString (Z.of_int d)) s
      then Some (Codec.VNum (Z.of_int d)) else None
  | None => if String.eqb s "null" then Some Codec.VNull else None
  end.

Definition small_JSON_stringify (v : Codec.value) : string :=
  match v with
  | Codec.VNum n => JS.Number_toString n
  | Codec.VNull => "null"
  | _ => "{}"
  end.

Definition small : NaCl :=
  {| scalarMult := xor_bytes;
     basePoint := repeat "009"%char 32;
     hsalsa20 := pad32;
     seal := fun msg nonce key => key ++ nonce ++ msg;
     unseal := small_unseal;
     encodeBase64 := string_of_list_ascii;
     decodeBase64 := fun s => Some (list_ascii_of_string s);
     decodeUTF8 := list_ascii_of_string;
     encodeUTF8 := fun b => Some (string_of_list_ascii b);
     JSON_stringify := small_JSON_stringify;
     JSON_parse := small_JSON_parse |}.

(** Two keys of 32 bytes, two secrets and a nonce of 24 bytes. *)
Definition key32 : string := "0123456789abcdef0123456789abcdef".
Definition secret_a : Uint8Array := list_ascii_of_string "aaaaaaaaaaaaaaaabbbbbbbbbbbbbbbb".
Definition secret_b : Uint8Array := list_ascii_of_string "ccccccccccccccccdddddddddddddddd".
Definition nonce24 : Uint8Array := list_ascii_of_string "000000000000111111111111".

End Crypto.

(** ** [WhatsAppCore]: the send queue, the dispatch of incoming frames and
    the operations on the cache *)

Module Core.

(** The socket as the client sees it, and the frames waiting for it: [ws]
    is [None] for [null], and [Some b] for a socket with
    [readyState === WebSocket.OPEN] equal to [b].  Console output is not
    modelled, except the error report of [handleIncomingMessage]. *)
Record link := { ws : option bool; messageQueue : list Codec.Buffer }.

(** [this.ws && this.ws.readyState === WebSocket.OPEN]. *)
Definition socket_open (w : link) : bool :=
  match ws w with Some b => b | None => false end.

Record WAUser := {
  user_id : option string;
  user_name : string;
  phone : string;
  avatar : option string;
  user_status : option string;
  isOnline : bool;
  lastSeen : option Z
}.

(** The fields of [WhatsAppCore] the modelled methods read and write.  The
    [contacts] map is keyed by what [data.from || data.id] evaluates to,
    which may be [undefined]. *)
Record core := {
  cache : Cache.cache;
  contacts : gmap (option string) WAUser;
  user : option WAUser;
  isConnected : bool;
  isAuthenticated : bool;
  wire : link;
  heartbeatInterval : option Runtime.timer;
  qr : QR.core;
  autoSave : bool;
  webhooks : bool
}.

Inductive payload :=
| Nothing
| Value (v : Codec.value)
| Message (m : Cache.WAMessage)
| Chat (c : Cache.WAChat)
| User (u : option WAUser)
| Presence (userId : option string) (online : bool) (seen : option Z).

Inductive effect :=
| Send (frame : Codec.Buffer)
| Emit (event : string) (p : payload)
| SetInterval (t : Runtime.timer)
| ClearInterval (t : Runtime.timer)
| SaveSession
| CloseSocket
| Log (message : string)
| OfQR (e : Runtime.effect)
| OfCache (e : Cache.effect).

Definition set_cache (c : Cache.cache) (st : core) : core :=
  {| cache := c; contacts := contacts st; user := user st;
     isConnected := isConnected st; isAuthenticated := isAuthenticated st;
     wire := wire st; heartbeatInterval := heartbeatInterval st; qr := qr st;
     autoSave := autoSave st; webhooks := webhooks st |}.

Definition set_contacts (cs : gmap (option string) WAUser) (st : core) : core :=
  {| cache := cache st; contacts := cs; user := user st;
     isConnected := isConnected st; isAuthenticated := isAuthenticated st;
     wire := wire st; heartbeatInterval := heartbeatInterval st; qr := qr st;
     autoSave := autoSave st; webhooks := webhooks st |}.

Definition set_wire (w : link) (st : core) : core :=
  {| cache := cache st; contacts := contacts st; user := user st;
     isConnected := isConnected st; isAuthenticated := isAuthenticated st;
     wire := w; heartbeatInterval := heartbeatInterval st; qr := qr st;
     autoSave := autoSave st; webhooks := webhooks st |}.

Definition set_qr (q : QR.core) (st : core) : core :=
  {| cache := cache st; contacts := contacts st; user := user st;
     isConnected := isConnected st; isAuthenticated := isAuthenticated st;
     wire := wire st; heartbeatInterval := heartbeatInterval st; qr := q;
     autoSave := autoSave st; webhooks := webhooks st |}.

Definition set_chats (cs : gmap string Cache.WAChat) (st : core) : core :=
  set_cache {| Cache.chats := cs; Cache.messages := Cache.messages (cache st) |} st.

Definition set_messages (ms : gmap string Cache.WAMessage) (st : core) : core :=
  set_cache {| Cache.chats := Cache.chats (cache st); Cache.messages := ms |} st.

(** *** The send queue *)

(** [sendBinaryMessage]: the frame is sent when the socket is open, and put
    at the end of the queue otherwise. *)
Definition sendBinaryMessage (w : link) (data : Codec.Buffer)
  : link * list effect :=
  if socket_open w then (w, [Send data])
  else ({| ws := ws w; messageQueue := messageQueue w ++ [data] |}, []).

(** The loop of [processMessageQueue]: while the queue is not empty and the
    socket is open, the first frame is taken off and sent. *)
Fixpoint drain (open : bool) (queue : list Codec.Buffer)
  : list Codec.Buffer * list effect :=
  match queue with
  | [] => ([], [])
  | message :: rest =>
      if open then
        let '(kept, out) := drain open rest in (kept, Send message :: out)
      else (queue, [])
  end.

Definition processMessageQueue (w : link) : link * list effect :=
  let '(kept, out) := drain (socket_open w) (messageQueue w) in
  ({| ws := ws w; messageQueue := kept |}, out).

(** A sequence of [sendBinaryMessage] calls. *)
Fixpoint sendAll (w : link) (frames : list Codec.Buffer) : link * list effect :=
  match frames with
  | [] => (w, [])
  | f :: r =>
      let '(w1, e1) := sendBinaryMessage w f in
      let '(w2, e2) := sendAll w1 r in
      (w2, e1 ++ e2)
  end.

(** The frames an effect list puts on the socket, in order. *)
Definition sent (effs : list effect) : list Codec.Buffer :=
  flat_map (fun e => match e with Send f => [f] | _ => [] end) effs.

(** A method that sends one frame and does nothing else to the link. *)
Definition send (frame : Codec.Buffer) (st : core) : core * list effect :=
  let '(w, effs) := sendBinaryMessage (wire st) frame in (set_wire w st, effs).

(** *** Authentication success *)

(** The properties of [data] that [handleAuthSuccess] reads. *)
Record auth_data := {
  wid : option string;
  me : option string;
  pushname : option string;
  auth_phone : option string
}.

Definition chatsRequest : Codec.Buffer :=
  Codec.serializeList [Codec.VStr "query"; Codec.VStr "chat"; Codec.VNull].

Definition contactsRequest : Codec.Buffer :=
  Codec.serializeList [Codec.VStr "query"; Codec.VStr "contacts"; Codec.VNull].

(** [requestInitialData] on the link: the two queries, then the queue. *)
Definition requestInitialData (w : link) : link * list effect :=
  let '(w1, e1) := sendBinaryMessage w chatsRequest in
  let '(w2, e2) := sendBinaryMessage w1 contactsRequest in
  let '(w3, e3) := processMessageQueue w2 in
  (w3, e1 ++ e2 ++ e3).

Definition heartbeat : Runtime.timer :=
  {| Runtime.delay := 30000; Runtime.fires := "ping" |}.

Definition handleAuthSuccess (data : auth_data) (st : core) : core * list effect :=
  let u := {| user_id := Cache.or_option (wid data) (me data);
              user_name := Cache.or_string (pushname data) "User";
              phone := Cache.or_string (auth_phone data) EmptyString;
              avatar := None; user_status := None;
              isOnline := true; lastSeen := None |} in
  let saved :=
    if autoSave st &&
       match QR.sessionPath (qr st) with
       | Some p => JS.truthy_string p
       | None => false
       end
    then [SaveSession] else [] in
  let beat :=
    match heartbeatInterval st with
    | Some t => [ClearInterval t]
    | None => []
    end ++ [SetInterval heartbeat] in
  let '(w, initial) := requestInitialData (wire st) in
  let cleared :=
    match QR.core_qrRefreshInterval (qr st) with
    | Some t => [ClearInterval t]
    | None => []
    end in
  ({| cache := cache st; contacts := contacts st; user := Some u;
      isConnected := isConnected st; isAuthenticated := true;
      wire := w; heartbeatInterval := Some heartbeat;
      qr := {| QR.credentials := QR.credentials (qr st);
               QR.core_qrData := QR.core_qrData (qr st);
               QR.core_qrRefreshInterval := None;
               QR.sessionPath := QR.sessionPath (qr st) |};
      autoSave := autoSave st; webhooks := webhooks st |},
   saved ++ beat ++ initial ++
   [Emit "auth.success" (User (Some u)); Emit "ready" Nothing] ++ cleared).

(** *** Chat and presence updates *)

(** The properties of [data] that [handleChatUpdate] reads. *)
Record chat_data := {
  cd_id : option string;
  cd_jid : option string;
  cd_name : option string;
  cd_subject : option string;
  cd_participants : option (list string);
  cd_admins : option (list string);
  cd_description : option string
}.

Definition truthy_option (a : option string) : bool :=
  match a with Some s => JS.truthy_string s | None => false end.

(** The chat created when the id is not in the cache. *)
Definition new_chat (now : Z) (chatId : string) (d : chat_data) : Cache.WAChat :=
  {| Cache.chat_id := chatId;
     Cache.name :=
       Cache.or_string (Cache.or_option (cd_name d) (cd_subject d)) "Unknown";
     Cache.chat_type := if JS.includes chatId "@g.us" then "group" else "dm";
     Cache.chat_timestamp := now;
     Cache.unreadCount := 0;
     Cache.lastMessage := None;
     Cache.participants := None; Cache.admins := None;
     Cache.description := None; Cache.picture := None;
     Cache.archived := false; Cache.pinned := false; Cache.muted := false |}.

(** The five conditional assignments of [handleChatUpdate]. *)
Definition merge_chat (d : chat_data) (c : Cache.WAChat) : Cache.WAChat :=
  {| Cache.chat_id := Cache.chat_id c;
     Cache.name :=
       match cd_subject d with
       | Some s => if JS.truthy_string s then s
                   else Cache.or_string (cd_name d) (Cache.name c)
       | None => Cache.or_string (cd_name d) (Cache.name c)
       end;
     Cache.chat_type := Cache.chat_type c;
     Cache.chat_timestamp := Cache.chat_timestamp c;
     Cache.unreadCount := Cache.unreadCount c;
     Cache.lastMessage := Cache.lastMessage c;
     Cache.participants :=
       match cd_participants d with
       | Some p => Some p
       | None => Cache.participants c
       end;
     Cache.admins :=
       match cd_admins d with Some a => Some a | None => Cache.admins c end;
     Cache.description :=
       if truthy_option (cd_description d) then cd_description d
       else Cache.description c;
     Cache.picture := Cache.picture c;
     Cache.archived := Cache.archived c; Cache.pinned := Cache.pinned c;
     Cache.muted := Cache.muted c |}.

(** [handleChatUpdate]; [None] is the [TypeError] of [chatId.includes] when
    the event has neither [id] nor [jid]. *)
Definition handleChatUpdate (now : Z) (d : chat_data) (st : core)
  : option (core * list effect) :=
  match Cache.or_option (cd_id d) (cd_jid d) with
  | None => None
  | Some chatId =>
      let chat :=
        match Cache.chats (cache st) !! chatId with
        | Some c => c
        | None => new_chat now chatId d
        end in
      let chat' := merge_chat d chat in
      Some (set_chats (<[chatId := chat']> (Cache.chats (cache st))) st,
            [Emit "chat.update" (Chat chat')])
  end.

(** The properties of [data] that [handlePresenceUpdate] reads. *)
Record presence_data := {
  pd_from : option string;
  pd_id : option string;
  pd_name : option string;
  pd_type : option string;
  pd_lastSeen : option Z
}.

Definition truthy_number_option (a : option Z) : bool :=
  match a with Some n => JS.truthy_number n | None => false end.

Definition handlePresenceUpdate (d : presence_data) (st : core)
  : core * list effect :=
  let userId := Cache.or_option (pd_from d) (pd_id d) in
  let u :=
    match contacts st !! userId with
    | Some u => u
    | None => {| user_id := userId;
                 user_name := Cache.or_string (pd_name d) "Unknown";
                 phone := EmptyString; avatar := None; user_status := None;
                 isOnline := false; lastSeen := None |}
    end in
  let u' :=
    {| user_id := user_id u; user_name := user_name u; phone := phone u;
       avatar := avatar u; user_status := user_status u;
       isOnline := match pd_type d with
                   | Some t => String.eqb t "available"
                   | None => false
                   end;
       lastSeen := if truthy_number_option (pd_lastSeen d) then pd_lastSeen d
                   else lastSeen u |} in
  (set_contacts (<[userId := u']> (contacts st)) st,
   [Emit "presence.update" (Presence userId (isOnline u') (lastSeen u'))]).

(** *** The dispatch of incoming frames *)

(** Property access [v.k] on a value: [undefined] when [v] is no object or
    has no such property. *)
Fixpoint property_of (entries : list (string * Codec.value)) (k : string)
  : Codec.value :=
  match entries with
  | [] => Codec.VUndefined
  | (k', v) :: r => if String.eqb k' k then v else property_of r k
  end.

Definition get (v : Codec.value) (k : string) : Codec.value :=
  match v with
  | Codec.VObj entries => property_of entries k
  | _ => Codec.VUndefined
  end.

(** A property read as a string, a number or a list of strings: [None]
    when it is absent or of another type. *)
Definition get_string (v : Codec.value) (k : string) : option string :=
  match get v k with Codec.VStr s => Some s | _ => None end.

Definition get_number (v : Codec.value) (k : string) : option Z :=
  match get v k with Codec.VNum n => Some n | _ => None end.

Definition get_strings (v : Codec.value) (k : string) : option (list string) :=
  match get v k with
  | Codec.VList l =>
      Some (flat_map (fun x => match x with Codec.VStr s => [s] | _ => [] end) l)
  | _ => None
  end.

Definition get_value (v : Codec.value) (k : string) : option Codec.value :=
  match get v k with Codec.VUndefined => None | x => Some x end.

(** [parsed.type === t]. *)
Definition type_is (parsed : Codec.value) (t : string) : bool :=
  match get parsed "type" with
  | Codec.VStr s => String.eqb s t
  | _ => false
  end.

(** The handler the if-chain of [handleIncomingMessage] selects. *)
Inductive handler :=
| QRResponse | AuthSuccess | NewMessage | ChatUpdate | PresenceUpdate | NoHandler.

Definition route (parsed : Codec.value) : handler :=
  if type_is parsed "qr_response" then QRResponse
  else if type_is parsed "auth_success" then AuthSuccess
  else if type_is parsed "message" then NewMessage
  else if type_is parsed "chat_update" then ChatUpdate
  else if type_is parsed "presence" then PresenceUpdate
  else NoHandler.

(** [handleIncomingMessage], with the clock, the random source and the
    Base64 printer of buffers as arguments.  An error thrown by a handler is
    caught and logged. *)
Definition handleIncomingMessage (base64 : Codec.Buffer -> string)
  (e : Cache.env) (data : Codec.Buffer) (st : core) : core * list effect :=
  let parsed := Codec.parseBinaryMessage data in
  let d := get parsed "data" in
  match route parsed with
  | QRResponse =>
      let '(q, effs) :=
        QR.handleQRResponse base64 (Cache.now e) (qr st) (get_string d "ref") in
      (set_qr q st, map OfQR effs)
  | AuthSuccess =>
      handleAuthSuccess
        {| wid := get_string d "wid"; me := get_string d "me";
           pushname := get_string d "pushname";
           auth_phone := get_string d "phone" |} st
  | NewMessage =>
      let '(c, effs) :=
        Cache.handleNewMessage (webhooks st) e
          {| Cache.data_id := get_string d "id";
             Cache.data_timestamp := get_number d "timestamp";
             Cache.data_from := get_string d "from";
             Cache.data_chat := get_string d "chat";
             Cache.data_sender := get_string d "sender";
             Cache.data_type := get_string d "type";
             Cache.data_content := get_value d "content";
             Cache.data_text := get_string d "text" |} (cache st) in
      (set_cache c st, map OfCache effs)
  | ChatUpdate =>
      match handleChatUpdate (Cache.now e)
              {| cd_id := get_string d "id"; cd_jid := get_string d "jid";
                 cd_name := get_string d "name";
                 cd_subject := get_string d "subject";
                 cd_participants := get_strings d "participants";
                 cd_admins := get_strings d "admins";
                 cd_description := get_string d "description" |} st with
      | Some r => r
      | None => (st, [Log "Error parsing message:"])
      end
  | PresenceUpdate =>
      handlePresenceUpdate
        {| pd_from := get_string d "from"; pd_id := get_string d "id";
           pd_name := get_string d "name"; pd_type := get_string d "type";
           pd_lastSeen := get_number d "lastSeen" |} st
  | NoHandler => (st, [])
  end.

(** *** Operations on chats and messages *)

Definition action_frame (kind action : string) (target : Codec.value)
  : Codec.Buffer :=
  Codec.serializeList
    [Codec.VStr "action"; Codec.VStr kind; Codec.VStr action; target].

(** The update of a cached chat shared by [archiveChat], [pinChat] and
    [muteChat]: the chat is changed, stored and announced when it is in the
    cache. *)
Definition update_chat (chatId : string) (f : Cache.WAChat -> Cache.WAChat)
  (st : core) : core * list effect :=
  match Cache.chats (cache st) !! chatId with
  | Some c =>
      (set_chats (<[chatId := f c]> (Cache.chats (cache st))) st,
       [Emit "chat.update" (Chat (f c))])
  | None => (st, [])
  end.

Definition with_archived (b : bool) (c : Cache.WAChat) : Cache.WAChat :=
  {| Cache.chat_id := Cache.chat_id c; Cache.name := Cache.name c;
     Cache.chat_type := Cache.chat_type c;
     Cache.chat_timestamp := Cache.chat_timestamp c;
     Cache.unreadCount := Cache.unreadCount c;
     Cache.lastMessage := Cache.lastMessage c;
     Cache.participants := Cache.participants c; Cache.admins := Cache.admins c;
     Cache.description := Cache.description c; Cache.picture := Cache.picture c;
     Cache.archived := b; Cache.pinned := Cache.pinned c;
     Cache.muted := Cache.muted c |}.

Definition with_pinned (b : bool) (c : Cache.WAChat) : Cache.WAChat :=
  {| Cache.chat_id := Cache.chat_id c; Cache.name := Cache.name c;
     Cache.chat_type := Cache.chat_type c;
     Cache.chat_timestamp := Cache.chat_timestamp c;
     Cache.unreadCount := Cache.unreadCount c;
     Cache.lastMessage := Cache.lastMessage c;
     Cache.participants := Cache.participants c; Cache.admins := Cache.admins c;
     Cache.description := Cache.description c; Cache.picture := Cache.picture c;
     Cache.archived := Cache.archived c; Cache.pinned := b;
     Cache.muted := Cache.muted c |}.

Definition with_muted (b : bool) (c : Cache.WAChat) : Cache.WAChat :=
  {| Cache.chat_id := Cache.chat_id c; Cache.name := Cache.name c;
     Cache.chat_type := Cache.chat_type c;
     Cache.chat_timestamp := Cache.chat_timestamp c;
     Cache.unreadCount := Cache.unreadCount c;
     Cache.lastMessage := Cache.lastMessage c;
     Cache.participants := Cache.participants c; Cache.admins := Cache.admins c;
     Cache.description := Cache.description c; Cache.picture := Cache.picture c;
     Cache.archived := Cache.archived c; Cache.pinned := Cache.pinned c;
     Cache.muted := b |}.

Definition archiveChat (chatId : string) (archive : bool) (st : core)
  : core * list effect :=
  let '(st1, e1) :=
    send (action_frame "chat" (if archive then "archive" else "unarchive")
                       (Codec.VStr chatId)) st in
  let '(st2, e2) := update_chat chatId (with_archived archive) st1 in
  (st2, e1 ++ e2).

Definition pinChat (chatId : string) (pin : bool) (st : core)
  : core * list effect :=
  let '(st1, e1) :=
    send (action_frame "chat" (if pin then "pin" else "unpin")
                       (Codec.VStr chatId)) st in
  let '(st2, e2) := update_chat chatId (with_pinned pin) st1 in
  (st2, e1 ++ e2).

(** [muteChat]; [duration] is [None] when the argument is left out. *)
Definition muteChat (chatId : string) (mute : bool) (duration : option Z)
  (st : core) : core * list effect :=
  let '(st1, e1) :=
    send (action_frame "chat" "mute"
            (Codec.VObj
               [("jid", Codec.VStr chatId); ("mute", Codec.VBool mute);
                ("duration",
                 Codec.VNum
                   (Cache.or_number duration
                      (if mute then 8 * 60 * 60 * 1000 else 0)))])) st in
  let '(st2, e2) := update_chat chatId (with_muted mute) st1 in
  (st2, e1 ++ e2).

Definition deleteMessage (messageId : string) (forEveryone : bool) (st : core)
  : core * list effect :=
  let '(st1, e1) :=
    send (action_frame "message" "delete"
            (Codec.VObj [("messageId", Codec.VStr messageId);
                         ("forEveryone", Codec.VBool forEveryone)])) st in
  (set_messages (delete messageId (Cache.messages (cache st1))) st1,
   e1 ++ [Emit "message.delete"
            (Value (Codec.VObj [("messageId", Codec.VStr messageId);
                                ("forEveryone", Codec.VBool forEveryone)]))]).

Definition not_authenticated : string := "Not authenticated".

Definition serializeMessage (m : Cache.WAMessage) : Codec.Buffer :=
  Codec.serializeList
    [Codec.VStr "action"; Codec.VStr "addMessage";
     Codec.VObj
       [("id", Codec.VStr (Cache.id m)); ("type", Codec.VStr (Cache.type m));
        ("to", match Cache.chat m with
               | Some c => Codec.VStr c
               | None => Codec.VUndefined
               end);
        ("content", Cache.content m);
        ("timestamp", Codec.VNum (Cache.timestamp m))]].

(** The three assignments of [sendMessage] to the chat of the message. *)
Definition with_last (m : Cache.WAMessage) (c : Cache.WAChat) : Cache.WAChat :=
  {| Cache.chat_id := Cache.chat_id c; Cache.name := Cache.name c;
     Cache.chat_type := Cache.chat_type c;
     Cache.chat_timestamp := Cache.timestamp m;
     Cache.unreadCount := Cache.unreadCount c;
     Cache.lastMessage := Some m;
     Cache.participants := Cache.participants c; Cache.admins := Cache.admins c;
     Cache.description := Cache.description c; Cache.picture := Cache.picture c;
     Cache.archived := Cache.archived c; Cache.pinned := Cache.pinned c;
     Cache.muted := Cache.muted c |}.

(** The message [sendMessage] builds. *)
Definition outgoing (e : Cache.env) (chatId text : string) (u : WAUser)
  : Cache.WAMessage :=
  {| Cache.id := Cache.generateMessageId e; Cache.fromMe := true;
     Cache.timestamp := Cache.now e; Cache.chat := Some chatId;
     Cache.sender := user_id u; Cache.type := "text";
     Cache.content := Codec.VObj [("text", Codec.VStr text)];
     Cache.status := "pending" |}.

(** [sendMessage(chatId, text)] without options; the environment gives the
    id ([generateMessageId]) and the timestamp.  Reading [this.user!.id]
    with no user set is a [TypeError]. *)
Definition sendMessage (e : Cache.env) (chatId text : string) (st : core)
  : Runtime.outcome * core * list effect :=
  if negb (isAuthenticated st) then (Runtime.Rejected not_authenticated, st, [])
  else
    match user st with
    | None =>
        (Runtime.Rejected "Cannot read properties of null (reading 'id')", st, [])
    | Some u =>
        let message := outgoing e chatId text u in
        let '(st1, e1) := send (serializeMessage message) st in
        let st2 :=
          set_messages (<[Cache.id message := message]>
                          (Cache.messages (cache st1))) st1 in
        let st3 :=
          match Cache.chats (cache st2) !! chatId with
          | Some c =>
              set_chats (<[chatId := with_last message c]>
                           (Cache.chats (cache st2))) st2
          | None => st2
          end in
        (Runtime.Fulfilled, st3, e1 ++ [Emit "message.sent" (Message message)])
    end.

(** [disconnect]. *)
Definition disconnect (st : core) : core * list effect :=
  ({| cache := cache st; contacts := contacts st; user := user st;
      isConnected := false; isAuthenticated := false;
      wire := {| ws := None; messageQueue := messageQueue (wire st) |};
      heartbeatInterval := None;
      qr := {| QR.credentials := QR.credentials (qr st);
               QR.core_qrData := QR.core_qrData (qr st);
               QR.core_qrRefreshInterval := None;
               QR.sessionPath := QR.sessionPath (qr st) |};
      autoSave := autoSave st; webhooks := webhooks st |},
   match heartbeatInterval st with Some t => [ClearInterval t] | None => [] end ++
   match QR.core_qrRefreshInterval (qr st) with
   | Some t => [ClearInterval t]
   | None => []
   end ++
   match ws (wire st) with Some _ => [CloseSocket] | None => [] end ++
   [Emit "disconnected" Nothing]).

(** A client as the constructor leaves it, with a closed socket. *)
Definition initial : core :=
  {| cache := {| Cache.chats := ∅; Cache.messages := ∅ |};
     contacts := ∅; user := None;
     isConnected := false; isAuthenticated := false;
     wire := {| ws := None; messageQueue := [] |};
     heartbeatInterval := None;
     qr := {| QR.credentials := None; QR.core_qrData := None;
              QR.core_qrRefreshInterval := None; QR.sessionPath := None |};
     autoSave := true; webhooks := false |}.

Definition one_chat_core : core := set_cache Cache.one_chat_cache initial.

Definition family_update : chat_data :=
  {| cd_id := Some "1234567890@s.whatsapp.net"; cd_jid := None;
     cd_name := Some "Ana Maria"; cd_subject := None;
     cd_participants := None; cd_admins := None; cd_description := None |}.

Definition ana : WAUser :=
  {| user_id := Some "40700000000@s.whatsapp.net"; user_name := "Me";
     phone := "40700000000"; avatar := None; user_status := None;
     isOnline := true; lastSeen := None |}.

(** A client that is authenticated as [ana], holds one chat and has no
    open socket. *)
Definition signed_in : core :=
  {| cache := Cache.one_chat_cache; contacts := ∅; user := Some ana;
     isConnected := false; isAuthenticated := true;
     wire := {| ws := None; messageQueue := [] |};
     heartbeatInterval := None; qr := qr initial;
     autoSave := true; webhooks := false |}.

End Core.

(** ** The helpers of [utils/helpers.ts] *)

Module Helpers.

(** The longest prefix of [s] made of digits, and what follows it: where
    a greedy [[0-9]]-run starting at the head of [s] ends. *)
Fixpoint digit_run (s : string) : string :=
  match s with
  | String c r => if Pairing.digit c then String c (digit_run r) else EmptyString
  | EmptyString => EmptyString
  end.

Fixpoint after_digits (s : string) : string :=
  match s with
  | String c r => if Pairing.digit c then after_digits r else s
  | EmptyString => EmptyString
  end.

(** [s.replace(/^0+/, '')]. *)
Fixpoint without_leading_zeros (s : string) : string :=
  match s with
  | String "0"%char r => without_leading_zeros r
  | _ => s
  end.

(** [formatPhoneNumber]: [/\D/g] removes every character that is no digit,
    as [/[^0-9]/g] does. *)
Definition formatPhoneNumber (phoneNumber : string) : string :=
  let cleaned := Pairing.digits_only phoneNumber in
  without_leading_zeros cleaned.

(** [/^[0-9]{10,15}@s\.whatsapp\.net$/.test(jid)].  The character after the
    digits is no digit, so the bounded repetition has to stop exactly where
    the run of digits stops. *)
Definition regularPattern (jid : string) : bool :=
  let n := String.length (digit_run jid) in
  (10 <=? n)%nat && (n <=? 15)%nat &&
  String.eqb (after_digits jid) "@s.whatsapp.net".

(** [/^[0-9]{10,15}-[0-9]+@g\.us$/.test(jid)]. *)
Definition groupPattern (jid : string) : bool :=
  let n := String.length (digit_run jid) in
  (10 <=? n)%nat && (n <=? 15)%nat &&
  match after_digits jid with
  | String "-"%char r =>
      (1 <=? String.length (digit_run r))%nat &&
      String.eqb (after_digits r) "@g.us"
  | _ => false
  end.

Definition validateJid (jid : string) : bool :=
  if negb (JS.truthy_string jid) then false
  else regularPattern jid || groupPattern jid.

Definition phoneNumberToJid (phoneNumber : string) : string :=
  let formatted := formatPhoneNumber phoneNumber in
  formatted +:+ "@s.whatsapp.net".

(** [extractPhoneNumber]: group 1 of [/^([0-9]+)@/], or the empty string. *)
Definition extractPhoneNumber (jid : string) : string :=
  if negb (JS.truthy_string jid) then EmptyString
  else
    if (1 <=? String.length (digit_run jid))%nat &&
       match after_digits jid with
       | String "@"%char _ => true
       | _ => false
       end
    then digit_run jid
    else EmptyString.

End Helpers.

(** ** The rest of the two authenticators: [setPairingCode], [displayQR],
    [reset] and the timer callbacks *)

Module Lifecycle.
Import Runtime.

Definition no_phone_number : string :=
  "No phone number set. Call requestPairingCode() first.".

(** [PairingCodeAuthenticator.setPairingCode]: the event it emits, or the
    error it throws. *)
Definition setPairingCode (st : Pairing.state) (pairingCode : string)
  : Crypto.result (list effect) :=
  match Pairing.phoneNumber st with
  | Some p =>
      if JS.truthy_string p
      then Crypto.Ok [Emit "pairing_code" (Codec.VStr pairingCode)]
      else Crypto.Throw no_phone_number
  | None => Crypto.Throw no_phone_number
  end.

(** [PairingCodeAuthenticator.reset]. *)
Definition pairing_reset (st : Pairing.state) : Pairing.state * list effect :=
  let '(st1, cleared) := Pairing.clearTimers st in
  ({| Pairing.clientId := Pairing.clientId st1; Pairing.keys := Pairing.keys st1;
      Pairing.pairingTimeout := Pairing.pairingTimeout st1;
      Pairing.phoneNumber := None;
      Pairing.pairingTimer := Pairing.pairingTimer st1 |}, cleared).

(** The callback of the pairing timer. *)
Definition pairing_expired (st : Pairing.state) : Pairing.state * list effect :=
  (st, [Emit "pairing_expired" Codec.VUndefined]).

Definition no_qr_data : string :=
  "No QR data available. Call generateQR() first.".

(** [QRAuthenticator.displayQR(qrData, small)], each argument [None] when
    it is left out: the arguments handed to [qrcode.generate], or the error
    thrown. *)
Definition displayQR (st : QR.state) (qrData : option string)
  (small : option bool) : Crypto.result (string * bool) :=
  let qrData :=
    match qrData with
    | Some d => d
    | None => Cache.or_string (QR.qrData st) EmptyString
    end in
  let small := match small with Some b => b | None => true end in
  if negb (JS.truthy_string qrData) then Crypto.Throw no_qr_data
  else Crypto.Ok (qrData, small).

(** [QRAuthenticator.reset]. *)
Definition qr_reset (st : QR.state) : QR.state * list effect :=
  let '(st1, cleared) := QR.clearTimers st in
  ({| QR.clientId := QR.clientId st1; QR.keys := QR.keys st1;
      QR.qrTimeout := QR.qrTimeout st1;
      QR.qrRefreshInterval := QR.qrRefreshInterval st1;
      QR.qrTimer := QR.qrTimer st1; QR.qrRefreshTimer := QR.qrRefreshTimer st1;
      QR.qrData := None |}, cleared).

(** The callback of the expiry timer set by [generateQR]. *)
Definition qr_expired (st : QR.state) : QR.state * list effect :=
  ({| QR.clientId := QR.clientId st; QR.keys := QR.keys st;
      QR.qrTimeout := QR.qrTimeout st;
      QR.qrRefreshInterval := QR.qrRefreshInterval st;
      QR.qrTimer := QR.qrTimer st; QR.qrRefreshTimer := QR.qrRefreshTimer st;
      QR.qrData := None |}, [Emit "qr_expired" Codec.VUndefined]).

(** The callback of the refresh interval set by [generateQR]. *)
Definition qr_refresh_needed (st : QR.state) : QR.state * list effect :=
  (st, [Emit "qr_refresh_needed" Codec.VUndefined]).

End Lifecycle.

(** ** [WhatsAppClient] *)

Module Client.

Inductive ClientState :=
| DISCONNECTED | CONNECTING | CONNECTED | AUTHENTICATING | AUTHENTICATED
| READY | LOGGING_OUT.

Definition ClientState_eqb (a b : ClientState) : bool :=
  match a, b with
  | DISCONNECTED, DISCONNECTED | CONNECTING, CONNECTING
  | CONNECTED, CONNECTED | AUTHENTICATING, AUTHENTICATING
  | AUTHENTICATED, AUTHENTICATED | READY, READY
  | LOGGING_OUT, LOGGING_OUT => true
  | _, _ => false
  end.

(** The fields the methods read and write. *)
Record client := {
  state : ClientState;
  qrAuth : QR.state;
  pairingAuth : Pairing.state
}.

(** What a call does: a [state_change] event, an action of one of the two
    authenticators (its timers and its own events), or an event of the
    client. *)
Inductive effect :=
| StateChange (from to : ClientState)
| Auth (e : Runtime.effect)
| Emit (event : string) (payload : Codec.value).

(** The constructor, with the client ids and key pairs the two
    authenticators draw as arguments. *)
Definition new (options_clientId : option string)
  (options_qrTimeout options_qrRefreshInterval options_pairingTimeout : option Z)
  (qr_random_clientId : string) (qr_generated : Runtime.keypair)
  (pairing_random_clientId : string) (pairing_generated : Runtime.keypair)
  : client :=
  {| state := DISCONNECTED;
     qrAuth :=
       QR.new options_clientId
              (Some (Cache.or_number options_qrTimeout 60000))
              (Some (Cache.or_number options_qrRefreshInterval 20000))
              qr_random_clientId qr_generated;
     pairingAuth :=
       Pairing.new options_clientId
                   (Some (Cache.or_number options_pairingTimeout 60000))
                   pairing_random_clientId pairing_generated |}.

(** [_setupAuthenticatorEvents]: every event of an authenticator is emitted
    again by the client. *)
Definition forward (effs : list Runtime.effect) : list effect :=
  flat_map (fun e => match e with
                     | Runtime.Emit event payload => [Auth e; Emit event payload]
                     | _ => [Auth e]
                     end) effs.

Definition _setState (newState : ClientState) (c : client)
  : client * list effect :=
  ({| state := newState; qrAuth := qrAuth c; pairingAuth := pairingAuth c |},
   if ClientState_eqb (state c) newState then []
   else [StateChange (state c) newState]).

Definition _loadSession : bool := false.

(** [initialize], with the [ref] that [generateQR] draws as an argument.
    Nothing in its [try] block throws, so the [catch] branch is left out. *)
Definition initialize (ref : string) (c : client)
  : Runtime.outcome * client * list effect :=
  let '(c1, e1) := _setState CONNECTING c in
  let sessionLoaded := _loadSession in
  if sessionLoaded then
    let '(c2, e2) := _setState AUTHENTICATING c1 in
    let '(c3, e3) := _setState AUTHENTICATED c2 in
    let '(c4, e4) := _setState READY c3 in
    (Runtime.Fulfilled, c4, e1 ++ e2 ++ e3 ++ e4)
  else
    let '(c2, e2) := _setState AUTHENTICATING c1 in
    let '(_, q, e3) := QR.generateQR (qrAuth c2) ref in
    (Runtime.Fulfilled,
     {| state := state c2; qrAuth := q; pairingAuth := pairingAuth c2 |},
     e1 ++ e2 ++ forward e3).

Definition not_authenticating : string :=
  "Client must be in AUTHENTICATING state to request a pairing code".

Definition requestPairingCode (phoneNumber : string) (c : client)
  : Runtime.outcome * client * list effect :=
  if negb (ClientState_eqb (state c) AUTHENTICATING)
  then (Runtime.Rejected not_authenticating, c, [])
  else
    let '(out, p, effs) := Pairing.requestPairingCode (pairingAuth c) phoneNumber in
    let c1 := {| state := state c; qrAuth := qrAuth c; pairingAuth := p |} in
    match out with
    | Runtime.Fulfilled => (Runtime.Fulfilled, c1, forward effs)
    | Runtime.Rejected message =>
        (Runtime.Rejected message, c1,
         forward effs ++ [Emit "error" (Codec.VStr message)])
    end.

Definition logout (c : client) : Runtime.outcome * client * list effect :=
  let '(c1, e1) := _setState LOGGING_OUT c in
  let '(q, e2) := Lifecycle.qr_reset (qrAuth c1) in
  let '(p, e3) := Lifecycle.pairing_reset (pairingAuth c1) in
  let '(c2, e4) :=
    _setState DISCONNECTED
              {| state := state c1; qrAuth := q; pairingAuth := p |} in
  (Runtime.Fulfilled, c2,
   e1 ++ forward e2 ++ forward e3 ++ e4 ++ [Emit "logout" Codec.VUndefined]).

Definition isAuthenticated (c : client) : bool :=
  ClientState_eqb (state c) AUTHENTICATED || ClientState_eqb (state c) READY.

(** What can happen to a client: a call of one of its three methods, or
    one of the timers of its authenticators firing.  A call is taken as a
    whole: the caller awaits its promise before anything else happens. *)
Inductive call :=
| Initialize (ref : string)
| RequestPairingCode (phoneNumber : string)
| Logout
| QRTimerFires
| QRRefreshFires
| PairingTimerFires.

Definition step (c : client) (k : call) : client * list effect :=
  match k with
  | Initialize ref => let '(_, c', effs) := initialize ref c in (c', effs)
  | RequestPairingCode p => let '(_, c', effs) := requestPairingCode p c in (c', effs)
  | Logout => let '(_, c', effs) := logout c in (c', effs)
  | QRTimerFires =>
      let '(q, effs) := Lifecycle.qr_expired (qrAuth c) in
      ({| state := state c; qrAuth := q; pairingAuth := pairingAuth c |},
       forward effs)
  | QRRefreshFires =>
      let '(q, effs) := Lifecycle.qr_refresh_needed (qrAuth c) in
      ({| state := state c; qrAuth := q; pairingAuth := pairingAuth c |},
       forward effs)
  | PairingTimerFires =>
      let '(p, effs) := Lifecycle.pairing_expired (pairingAuth c) in
      ({| state := state c; qrAuth := qrAuth c; pairingAuth := p |},
       forward effs)
  end.

Fixpoint run (c : client) (ks : list call) : client * list effect :=
  match ks with
  | [] => (c, [])
  | k :: r =>
      let '(c1, e1) := step c k in
      let '(c2, e2) := run c1 r in
      (c2, e1 ++ e2)
  end.

(** The state a listener of [state_change] reconstructs from a trace,
    starting from [s]: [None] when an event does not start where the last
    one ended, or announces no change. *)
Fixpoint follow (s : ClientState) (effs : list effect) : option ClientState :=
  match effs with
  | [] => Some s
  | StateChange a b :: r =>
      if ClientState_eqb a s && negb (ClientState_eqb a b) then follow b r
      else None
  | _ :: r => follow s r
  end.

Definition timer_eqb (a b : Runtime.timer) : bool :=
  (Runtime.delay a =? Runtime.delay b) &&
  String.eqb (Runtime.fires a) (Runtime.fires b).

Fixpoint remove_timer (t : Runtime.timer) (l : list Runtime.timer)
  : list Runtime.timer :=
  match l with
  | [] => []
  | x :: r => if timer_eqb t x then r else x :: remove_timer t r
  end.

(** The timers a trace leaves set: every [setTimeout] or [setInterval]
    adds one, every [clearTimeout] or [clearInterval] removes the one it
    names, if it is there. *)
Fixpoint live (effs : list effect) (set : list Runtime.timer)
  : list Runtime.timer :=
  match effs with
  | [] => set
  | Auth (Runtime.SetTimeout t) :: r | Auth (Runtime.SetInterval t) :: r =>
      live r (t :: set)
  | Auth (Runtime.ClearTimeout t) :: r | Auth (Runtime.ClearInterval t) :: r =>
      live r (remove_timer t set)
  | _ :: r => live r set
  end.

Definition option_list {A} (o : option A) : list A :=
  match o with Some a => [a] | None => [] end.

(** The timers the fields of the two authenticators hold. *)
Definition held (c : client) : list Runtime.timer :=
  option_list (Pairing.pairingTimer (pairingAuth c)) ++
  option_list (QR.qrRefreshTimer (qrAuth c)) ++
  option_list (QR.qrTimer (qrAuth c)).

(** Whether the last of the [initialize] and [logout] calls in a sequence
    was an [initialize]; [b] when there is none. *)
Fixpoint authenticating (b : bool) (ks : list call) : bool :=
  match ks with
  | [] => b
  | Initialize _ :: r => authenticating true r
  | Logout :: r => authenticating false r
  | _ :: r => authenticating b r
  end.

(** A client with the default options. *)
Definition default : client :=
  new None None None None
      "0123456789abcdef0123456789abcdef"
      {| Runtime.privateKey := "c2VjcmV0LWtleQ=="; Runtime.publicKey := "cHVibGljLWtleQ==" |}
      "fedcba9876543210fedcba9876543210"
      {| Runtime.privateKey := "b3RoZXIta2V5"; Runtime.publicKey := "b3RoZXItcHVi" |}.

End Client.

(** ** [WebSocketClient] *)

Module Socket.

Inductive ConnectionState :=
| CLOSED | CONNECTING | CONNECTED | AUTHENTICATING | AUTHENTICATED | READY.

Definition ConnectionState_eqb (a b : ConnectionState) : bool :=
  match a, b with
  | CLOSED, CLOSED | CONNECTING, CONNECTING | CONNECTED, CONNECTED
  | AUTHENTICATING, AUTHENTICATING | AUTHENTICATED, AUTHENTICATED
  | READY, READY => true
  | _, _ => false
  end.

(** What the client reads of [this.credentials]: whether the object has any
    key, and whether [privateKey] and [serverPublicKey] are truthy. *)
Record credentials := {
  nonempty : bool;
  privateKey : bool;
  serverPublicKey : bool
}.

(** The fields of the client.  [ws] tells whether [this.ws] is a socket or
    [null]; [retry] holds [reconnectAttempts] and [reconnectTimer];
    [creds] is [None] when [this.credentials] is [null]. *)
Record client := {
  state : ConnectionState;
  ws : bool;
  retry : Reconnect.client;
  keepAliveTimer : option Z;
  creds : option credentials
}.

Record options := {
  reconnect : Reconnect.options;
  keepAliveInterval : Z
}.

Inductive effect :=
| StateChange (from to : ConnectionState)
| Emit (event : string)
| Retry (e : Reconnect.client_effect)
| ClearKeepAlive (interval : Z)
| SetKeepAlive (interval : Z)
| Terminate
| NewSocket
| CloseSocket (code : Z)
| Send (type : string)
| Uncaught (message : string).

(** The constructor. *)
Definition new (reconnectInterval maxReconnectAttempts keepAlive : option Z)
  : options * client :=
  ({| reconnect :=
        {| Reconnect.reconnectInterval := Cache.or_number reconnectInterval 5000;
           Reconnect.maxReconnectAttempts :=
             Cache.or_number maxReconnectAttempts 10 |};
      keepAliveInterval := Cache.or_number keepAlive 30000 |},
   {| state := CLOSED; ws := false;
      retry := {| Reconnect.reconnectAttempts := 0;
                  Reconnect.reconnectTimer := None |};
      keepAliveTimer := None;
      creds := Some {| nonempty := false; privateKey := false;
                       serverPublicKey := false |} |}).

Definition _setState (newState : ConnectionState) (c : client)
  : client * list effect :=
  ({| state := newState; ws := ws c; retry := retry c;
      keepAliveTimer := keepAliveTimer c; creds := creds c |},
   if ConnectionState_eqb (state c) newState then []
   else [StateChange (state c) newState]).

Definition _clearTimers (c : client) : client * list effect :=
  ({| state := state c; ws := ws c;
      retry := {| Reconnect.reconnectAttempts :=
                    Reconnect.reconnectAttempts (retry c);
                  Reconnect.reconnectTimer := None |};
      keepAliveTimer := None; creds := creds c |},
   match Reconnect.reconnectTimer (retry c) with
   | Some d => [Retry (Reconnect.ClearTimeout d)]
   | None => []
   end ++
   match keepAliveTimer c with Some d => [ClearKeepAlive d] | None => [] end).

Definition _startKeepAlive (o : options) (c : client) : client * list effect :=
  ({| state := state c; ws := ws c; retry := retry c;
      keepAliveTimer := Some (keepAliveInterval o); creds := creds c |},
   match keepAliveTimer c with Some d => [ClearKeepAlive d] | None => [] end ++
   [SetKeepAlive (keepAliveInterval o)]).

Definition not_connected : string := "WebSocket is not connected".

(** [send(data)] for an object of the given [type]: the frame goes out, or
    the promise is rejected. *)
Definition send (type : string) (c : client) : Runtime.outcome * list effect :=
  if negb (ws c) || ConnectionState_eqb (state c) CLOSED
  then (Runtime.Rejected not_connected, [])
  else (Runtime.Fulfilled, [Send type]).

(** [_authenticate]: [None] when it throws. *)
Definition _authenticate (c : client) : option (client * list effect) :=
  if negb (ws c) || negb (ConnectionState_eqb (state c) CONNECTED) then None
  else
    let '(c1, e1) := _setState AUTHENTICATING c in
    Some (c1, e1 ++ snd (send "auth" c1)).

(** [_connect]. *)
Definition _connect (c : client) : client * list effect :=
  let '(c1, e1) := _setState CONNECTING c in
  let '(c2, e2) := _clearTimers c1 in
  ({| state := state c2; ws := true; retry := retry c2;
      keepAliveTimer := keepAliveTimer c2; creds := creds c2 |},
   e1 ++ e2 ++ (if ws c2 then [Terminate] else []) ++ [NewSocket]).

(** [connect(credentials)]. *)
Definition connect (credentials : option credentials) (c : client)
  : client * list effect :=
  _connect {| state := state c; ws := ws c;
              retry := {| Reconnect.reconnectAttempts := 0;
                          Reconnect.reconnectTimer :=
                            Reconnect.reconnectTimer (retry c) |};
              keepAliveTimer := keepAliveTimer c; creds := credentials |}.

(** [close(code, reason)]. *)
Definition close (code : Z) (c : client) : client * list effect :=
  let '(c1, e1) := _clearTimers c in
  let '(c2, e2) :=
    _setState CLOSED {| state := state c1; ws := false; retry := retry c1;
                        keepAliveTimer := keepAliveTimer c1;
                        creds := creds c1 |} in
  (c2, e1 ++ (if ws c1 then [CloseSocket code] else []) ++ e2).

(** The handler of the socket's [open] event. *)
Definition on_open (o : options) (c : client) : client * list effect :=
  let '(c1, e1) := _setState CONNECTED c in
  let '(c2, e2) := _startKeepAlive o c1 in
  if match creds c2 with Some k => nonempty k | None => false end
  then match _authenticate c2 with
       | Some (c3, e3) => (c3, e1 ++ e2 ++ e3)
       | None => (c2, e1 ++ e2 ++ [Uncaught not_connected])
       end
  else (c2, e1 ++ e2).

(** The handler of the socket's [close] event. *)
Definition on_close (o : options) (code : Z) (c : client)
  : client * list effect :=
  let '(c1, e1) := _setState CLOSED c in
  let '(c2, e2) := _clearTimers c1 in
  if negb (code =? 1000) then
    let '(r, e3) := Reconnect._reconnect (reconnect o) (retry c2) in
    ({| state := state c2; ws := ws c2; retry := r;
        keepAliveTimer := keepAliveTimer c2; creds := creds c2 |},
     e1 ++ e2 ++ [Emit "close"] ++ map Retry e3)
  else (c2, e1 ++ e2 ++ [Emit "close"]).

(** A message as [_handleMessage] tells them apart once the text is
    parsed. *)
Inductive incoming :=
| Unreadable
| AuthResponse (success : bool) (withServerPublicKey : bool)
| Encrypted (decrypts : bool)
| Pong
| Other.

Definition _handleMessage (m : incoming) (c : client) : client * list effect :=
  match m with
  | Unreadable => (c, [Emit "error"])
  | AuthResponse true withKey =>
      let '(c1, e1) := _setState AUTHENTICATED c in
      if withKey then
        match creds c1 with
        | Some k =>
            let '(c2, e2) :=
              _setState READY
                {| state := state c1; ws := ws c1; retry := retry c1;
                   keepAliveTimer := keepAliveTimer c1;
                   creds := Some {| nonempty := true; privateKey := privateKey k;
                                    serverPublicKey := true |} |} in
            (c2, e1 ++ [Emit "authenticated"] ++ e2)
        | None => (c1, e1 ++ [Emit "error"])
        end
      else
        let '(c2, e2) := _setState READY c1 in
        (c2, e1 ++ [Emit "authenticated"] ++ e2)
  | AuthResponse false _ => (c, [Emit "auth_failure"])
  | Encrypted decrypts =>
      match creds c with
      | Some k =>
          if privateKey k && serverPublicKey k
          then (c, [Emit (if decrypts then "message" else "error")])
          else (c, [Emit "error"])
      | None => (c, [Emit "error"])
      end
  | Pong => (c, [Emit "pong"])
  | Other => (c, [Emit "message"])
  end.

(** What can happen to a client: a call of [connect] or [close], an event
    of the socket, or one of the two timers firing. *)
Inductive input :=
| Connect (credentials : option credentials)
| Close (code : Z)
| Opened
| Closed (code : Z)
| Failed
| Received (m : incoming)
| ReconnectTimerFires
| KeepAliveFires.

Definition step (o : options) (c : client) (i : input) : client * list effect :=
  match i with
  | Connect k => connect k c
  | Close code => close code c
  | Opened => on_open o c
  | Closed code => on_close o code c
  | Failed => (c, [Emit "error"])
  | Received m => _handleMessage m c
  | ReconnectTimerFires => _connect c
  | KeepAliveFires =>
      if ws c && negb (ConnectionState_eqb (state c) CLOSED)
      then (c, snd (send "ping" c)) else (c, [])
  end.

Fixpoint run (o : options) (c : client) (inputs : list input)
  : client * list effect :=
  match inputs with
  | [] => (c, [])
  | i :: r =>
      let '(c1, e1) := step o c i in
      let '(c2, e2) := run o c1 r in
      (c2, e1 ++ e2)
  end.

(** The attempt numbers announced by [reconnecting] in a trace. *)
Definition announced (effs : list effect) : list Z :=
  flat_map (fun e => match e with
                     | Retry (Reconnect.ClientEmit _ (Some n)) => [n]
                     | _ => []
                     end) effs.

(** How many reconnections a trace schedules. *)
Definition scheduled (effs : list effect) : nat :=
  length (flat_map (fun e => match e with
                             | Retry (Reconnect.ClientConnectAfter _) => [e]
                             | _ => []
                             end) effs).

Definition is_connect (i : input) : bool :=
  match i with Connect _ => true | _ => false end.

(** The bound [_reconnect] compares the attempts with. *)
Definition limit (o : options) : Z :=
  if JS.truthy_number (Reconnect.maxReconnectAttempts (reconnect o))
  then Reconnect.maxReconnectAttempts (reconnect o) else 10.

(** A list of effects that announces and schedules nothing. *)
Definition quiet (effs : list effect) : Prop :=
  announced effs = [] /\ scheduled effs = 0%nat.

(** A connection that opens and drops three times, the reconnect timer
    firing in between, under at most two attempts. *)
Definition two_attempts : options * client := new None (Some 2) None.

Definition flaky : list input :=
  [Opened; Closed 1006; ReconnectTimerFires;
   Opened; Closed 1006; ReconnectTimerFires;
   Opened; Closed 1006].

End Socket.

(** * Theorems *)

(** ** Facts about the JavaScript primitives *)

Module JSFacts.

Lemma ToInt32_small (x : Z) : - 2 ^ 31 <= x < 2 ^ 31 -> JS.ToInt32 x = x.
Proof.
  unfold JS.ToInt32. change (2 ^ 31) with 2147483648.
  change (2 ^ 32) with 4294967296. intros H.
  rewrite Z.mod_small by lia. lia.
Qed.

Lemma land_255 (x : Z) : Z.land x 255 = x mod 256.
Proof. change 255 with (Z.ones 8). now rewrite Z.land_ones by lia. Qed.

(** Byte [k/8] of a non-negative length, as [(len >> k) & 0xFF] computes it. *)
Lemma and_shr_byte (n k : Z) :
  0 <= n -> k = 0 \/ k = 8 \/ k = 16 ->
  JS.bitand (JS.shr n k) 255 = (n / 2 ^ k) mod 256.
Proof.
  intros Hn Hk. unfold JS.bitand, JS.shr.
  assert (Hi : - 2 ^ 31 <= JS.ToInt32 n < 2 ^ 31).
  { unfold JS.ToInt32. change (2 ^ 31) with 2147483648.
    change (2 ^ 32) with 4294967296.
    pose proof (Z.mod_pos_bound (n + 2147483648) 4294967296). lia. }
  assert (Hs : Z.shiftr (JS.ToInt32 n) (k mod 32) = JS.ToInt32 n / 2 ^ k).
  { destruct Hk as [-> | [-> | ->]]; now rewrite Z.shiftr_div_pow2. }
  rewrite Hs.
  assert (Hq : - 2 ^ 31 <= JS.ToInt32 n / 2 ^ k < 2 ^ 31).
  { change (2 ^ 31) with 2147483648 in *.
    destruct Hk as [-> | [-> | ->]];
      [change (2 ^ 0) with 1 | change (2 ^ 8) with 256 | change (2 ^ 16) with 65536];
      Z.div_mod_to_equations; lia. }
  rewrite (ToInt32_small _ Hq), (ToInt32_small 255) by (cbn; lia).
  rewrite land_255.
  rewrite ToInt32_small
    by (change (2 ^ 31) with 2147483648;
        pose proof (Z.mod_pos_bound (JS.ToInt32 n / 2 ^ k) 256); lia).
  unfold JS.ToInt32. change (2 ^ 31) with 2147483648.
  change (2 ^ 32) with 4294967296.
  destruct Hk as [-> | [-> | ->]];
    [change (2 ^ 0) with 1 | change (2 ^ 8) with 256 | change (2 ^ 16) with 65536];
    Z.div_mod_to_equations; lia.
Qed.

Lemma and_255_byte (n : Z) : 0 <= n -> JS.bitand n 255 = n mod 256.
Proof.
  intros Hn. pose proof (and_shr_byte n 0 Hn (or_introl eq_refl)) as H.
  unfold JS.shr in H. cbn [Z.modulo] in H. change (0 mod 32) with 0 in H.
  rewrite Z.shiftr_0_r in H. unfold JS.bitand in *.
  assert (Hi : - 2 ^ 31 <= JS.ToInt32 n < 2 ^ 31).
  { unfold JS.ToInt32. change (2 ^ 31) with 2147483648.
    change (2 ^ 32) with 4294967296.
    pose proof (Z.mod_pos_bound (n + 2147483648) 4294967296). lia. }
  rewrite (ToInt32_small _ Hi) in H. rewrite H.
  change (2 ^ 0) with 1. now rewrite Z.div_1_r.
Qed.

(** [indexOf] returns the first position of the string, or -1 when the
    string is at no position. *)
Lemma indexOf_from_spec (l : list string) (s : string) (i : Z) :
  (JS.indexOf_from l s i = -1 /\ forall j, nth_error l j <> Some s) \/
  (exists j : nat,
      JS.indexOf_from l s i = i + Z.of_nat j /\ nth_error l j = Some s /\
      forall k, (k < j)%nat -> nth_error l k <> Some s).
Proof.
  revert i. induction l as [| t r IH]; intros i; cbn [JS.indexOf_from].
  - left. split; [reflexivity |]. intros [| j]; discriminate.
  - destruct (String.eqb_spec t s) as [-> | Hne].
    + right. exists 0%nat. split; [lia |]. split; [reflexivity |]. lia.
    + destruct (IH (i + 1)) as [[H1 H2] | [j [H1 [H2 H3]]]].
      * left. split; [exact H1 |]. intros [| j]; cbn; [congruence | apply H2].
      * right. exists (S j). split; [lia |]. split; [exact H2 |].
        intros [| k] Hk; cbn; [congruence | apply H3; lia].
Qed.

End JSFacts.

(** ** The binary codec *)

Module CodecTheory.
Import Codec.


Lemma Buffer_from_byte (x : Z) : 0 <= x < 256 -> Buffer_from [x] = [x].
Proof.
  intros H. unfold Buffer_from. cbn [map].
  now rewrite JSFacts.land_255, Z.mod_small.
Qed.

Lemma Buffer_from_bytes2 (x y : Z) :
  0 <= x < 256 -> 0 <= y < 256 -> Buffer_from [x; y] = [x; y].
Proof.
  intros Hx Hy. unfold Buffer_from. cbn [map].
  now rewrite !JSFacts.land_255, !Z.mod_small.
Qed.

(** The three bytes after [BINARY_20] are the length in base 256, most
    significant first (its low 24 bits). *)
Lemma length20_bytes (len : Z) :
  0 <= len ->
  length20 len = [(len / 65536) mod 256; (len / 256) mod 256; len mod 256].
Proof.
  intros H. unfold length20, Buffer_from. cbn [map].
  rewrite (JSFacts.and_shr_byte len 16), (JSFacts.and_shr_byte len 8),
    JSFacts.and_255_byte by auto.
  rewrite !JSFacts.land_255, !Z.mod_mod by lia. reflexivity.
Qed.

Lemma WA_TOKENS_length : length WA_TOKENS = 148%nat.
Proof. reflexivity. Qed.

(** [serializeItem] on an object is [serializeList] of the alternating list
    of its keys and values, as the source builds it. *)
Lemma serializeItem_object (entries : list (string * value)) :
  serializeItem (VObj entries) = serializeList (entries_pairs entries).
Proof.
  unfold serializeList, serializeListWith. cbn [serializeItem].
  assert (Hlen : Z.of_nat (length (entries_pairs entries)) =
                 2 * Z.of_nat (length entries)).
  { unfold entries_pairs. induction entries as [| kv es IH]; [reflexivity |].
    cbn [flat_map length app] in *. lia. }
  rewrite Hlen. clear Hlen.
  replace (2 * Z.of_nat (length entries) =? 0)
    with (Z.of_nat (length entries) =? 0)
    by (destruct (Z.eqb_spec (Z.of_nat (length entries)) 0),
                 (Z.eqb_spec (2 * Z.of_nat (length entries)) 0); lia).
  destruct (Z.of_nat (length entries) =? 0); [reflexivity |]. f_equal.
  unfold entries_pairs. induction entries as [| [k x] es IH]; [reflexivity |].
  cbn [flat_map app fst snd]. rewrite IH, <- app_assoc. reflexivity.
Qed.

(** C10.  The empty string is entry 0 of the token table, so it is written as
    the single byte 0, the byte that also stands for null and for the empty
    list: the three have the same frame, and whatever reads the frame returns
    the same result for all three. *)
Theorem empty_string_null_empty_list_same_frame :
  nth_error WA_TOKENS 0 = Some EmptyString /\
  serializeString EmptyString = [0] /\
  serializeItem (VStr EmptyString) = [0] /\
  serializeItem VNull = [0] /\
  serializeList [] = [0] /\
  serializeItem (VList []) = [0] /\
  forall (A : Type) (read : Buffer -> A),
    read (serializeItem (VStr EmptyString)) = read (serializeItem VNull) /\
    read (serializeItem VNull) = read (serializeItem (VList [])).
Proof.
  repeat split; reflexivity.
Qed.

(** C2.  A string that is an entry of the token table below index 236 is
    written as one byte, the first index at which it stands; any other
    string is written as its UTF-8 bytes after [BINARY_8] and a one-byte
    length when there are fewer than 256 of them, and after [BINARY_20] and a
    three-byte big-endian length otherwise. *)
Theorem serializeString_policy (s : string) :
  let payload := Buffer_from_utf8 s in
  let len := Z.of_nat (length payload) in
  ((exists i : nat, (i < 236)%nat /\ nth_error WA_TOKENS i = Some s) ->
   exists j : nat,
     (j < 236)%nat /\ nth_error WA_TOKENS j = Some s /\
     (forall k, (k < j)%nat -> nth_error WA_TOKENS k <> Some s) /\
     serializeString s = [Z.of_nat j]) /\
  (~ (exists i : nat, (i < 236)%nat /\ nth_error WA_TOKENS i = Some s) ->
   (len < 256 -> serializeString s = [WA_TAGS.BINARY_8; len] ++ payload) /\
   (256 <= len ->
    serializeString s =
    [WA_TAGS.BINARY_20; (len / 65536) mod 256; (len / 256) mod 256;
     len mod 256] ++ payload)).
Proof.
  intros payload len.
  assert (Hlen : 0 <= len) by (unfold len; lia).
  unfold serializeString, JS.indexOf. fold payload. fold len.
  destruct (JSFacts.indexOf_from_spec WA_TOKENS s 0)
    as [[Hidx Hnone] | [j [Hidx [Hj Hfirst]]]]; rewrite Hidx.
  - split.
    + intros [i [_ Hi]]. now apply Hnone in Hi.
    + intros _. cbn [Z.leb Z.compare andb]. split; intros Hl.
      * destruct (Z.ltb_spec len 256); [| lia].
        rewrite Buffer_from_bytes2 by (unfold WA_TAGS.BINARY_8; lia).
        reflexivity.
      * destruct (Z.ltb_spec len 256); [lia |].
        rewrite length20_bytes by exact Hlen.
        rewrite Buffer_from_byte by (unfold WA_TAGS.BINARY_20; lia).
        reflexivity.
  - assert (Hjlt : (j < 148)%nat).
    { rewrite <- WA_TOKENS_length. apply nth_error_Some. congruence. }
    split.
    + intros _. exists j. repeat split; [lia | exact Hj | exact Hfirst |].
      destruct (Z.leb_spec 0 (0 + Z.of_nat j)); [| lia].
      destruct (Z.ltb_spec (0 + Z.of_nat j) 236); [| lia].
      cbn [andb]. rewrite Buffer_from_byte by lia. reflexivity.
    + intros Hno. exfalso. apply Hno. exists j. split; [lia | exact Hj].
Qed.

(** The policy at a token and at a short string that is no token. *)
Lemma serializeString_policy_witness :
  (exists j : nat,
      nth_error WA_TOKENS j = Some "admin" /\
      serializeString "admin" = [Z.of_nat j]) /\
  serializeString "hello" = [252; 5; 104; 101; 108; 108; 111].
Proof.
  split.
  - destruct (proj1 (serializeString_policy "admin")) as [j [_ [Hj [_ H]]]].
    + exists 109%nat. split; [lia | reflexivity].
    + exists j. split; [exact Hj | exact H].
  - refine (proj1 (proj2 (serializeString_policy "hello") _) _).
    + intros [i [_ H]]. apply nth_error_In in H. cbn in H.
      repeat (destruct H as [H | H]; [discriminate H |]). exact H.
    + cbn. lia.
Defined.

(** *** The frame classifier *)

Lemma ref_run_prefix (s : string) :
  exists post, s = ref_run s +:+ post /\
               forallb ref_char (list_ascii_of_string (ref_run s)) = true.
Proof.
  induction s as [| c r [post [Hs Hall]]]; cbn [ref_run].
  - exists EmptyString. split; reflexivity.
  - destruct (ref_char c) eqn:Hc.
    + exists post. split.
      * change (String c r = String c (ref_run r +:+ post)).
        f_equal. exact Hs.
      * cbn [list_ascii_of_string forallb]. now rewrite Hc, Hall.
    + exists (String c r). split; reflexivity.
Qed.

(** A match of the reference pattern is a piece of the searched string, at
    least twenty characters long, all of them in the class. *)
Lemma match_ref_Some (s ref : string) :
  match_ref s = Some ref ->
  exists pre post,
    s = pre +:+ ref +:+ post /\ (20 <= String.length ref)%nat /\
    forallb ref_char (list_ascii_of_string ref) = true.
Proof.
  induction s as [| c r IH]; cbn [match_ref].
  - cbn. discriminate.
  - destruct (Nat.leb_spec 20 (String.length (ref_run (String c r))))
      as [Hlen | Hlen].
    + intros [= <-]. destruct (ref_run_prefix (String c r)) as [post [Hs Hall]].
      exists EmptyString, post. auto.
    + intros H. destruct (IH H) as [pre [post [Hs [Hl Hall]]]].
      exists (String c pre), post.
      change (String c r = String c (pre +:+ ref +:+ post) /\
              (20 <= String.length ref)%nat /\
              forallb ref_char (list_ascii_of_string ref) = true).
      split; [f_equal; exact Hs | auto].
Qed.

(** Every buffer falls in one of the three classes of [parseBinaryMessage]:
    a reference match behind a [LIST_8] tag in a buffer of more than ten
    bytes, one of the two marker words, or neither. *)
Lemma parseBinaryMessage_classes (data : Buffer) :
  (exists ref pre post,
      parseBinaryMessage data = qr_response ref /\
      toString_binary data = pre +:+ ref +:+ post /\
      (20 <= String.length ref)%nat /\
      forallb ref_char (list_ascii_of_string ref) = true /\
      hd_error data = Some WA_TAGS.LIST_8 /\ (10 < length data)%nat) \/
  (parseBinaryMessage data = auth_success /\
   (JS.includes (toString_binary data) "success" = true \/
    JS.includes (toString_binary data) "connected" = true)) \/
  (parseBinaryMessage data = unknown data /\
   JS.includes (toString_binary data) "success" = false /\
   JS.includes (toString_binary data) "connected" = false).
Proof.
  unfold parseBinaryMessage.
  destruct ((10 <? Z.of_nat (length data)) &&
            match data with b :: _ => b =? WA_TAGS.LIST_8 | [] => false end)
    eqn:Hguard.
  - destruct (match_ref (toString_binary data)) as [ref |] eqn:Hm.
    + left. apply andb_prop in Hguard as [Hlen Hhd].
      destruct (match_ref_Some _ _ Hm) as [pre [post [Hs [Hl Hall]]]].
      exists ref, pre, post. repeat split; auto.
      * destruct data as [| b d]; [discriminate |].
        apply Z.eqb_eq in Hhd. now subst b.
      * apply Z.ltb_lt in Hlen. lia.
    + right. destruct (JS.includes _ "success") eqn:H1; cbn [orb]; [auto |].
      destruct (JS.includes _ "connected") eqn:H2; auto.
  - right. destruct (JS.includes _ "success") eqn:H1; cbn [orb]; [auto |].
    destruct (JS.includes _ "connected") eqn:H2; auto.
Qed.




(** No reader at all inverts the serializer, since null and the empty string
    share a frame. *)
Lemma no_reader_inverts_serializeItem :
  ~ exists read : Buffer -> value,
      forall v, read (serializeItem v) = as_decoded v.
Proof.
  intros [read H].
  pose proof (H VNull) as H1. pose proof (H (VStr EmptyString)) as H2.
  change (serializeItem (VStr EmptyString)) with (serializeItem VNull) in H2.
  rewrite H1 in H2. discriminate H2.
Qed.

(** The three classes on frames the client sends: the heartbeat, a frame
    holding a marker word, and the admin init frame with its client id. *)
Example parse_heartbeat :
  parseBinaryMessage (serializeList [VStr "admin"; VStr "test"]) =
  parsed "unknown" (VObj [("raw", VStr "f8026dfc0474657374")]).
Proof. reflexivity. Qed.

Example parse_marker_word :
  parseBinaryMessage (serializeItem (VStr "connected")) = auth_success.
Proof. reflexivity. Qed.

Example parse_admin_init :
  parseBinaryMessage
    (serializeList
       [VStr "admin"; VStr "init"; VList [VNum 2; VNum 2323; VNum 4];
        VList [VStr "@ourorg/whatsapp-core"; VStr "Chrome"];
        VStr "AAAAAAAAAAAAAAAAAAAAAA=="; VBool true]) =
  qr_response "AAAAAAAAAAAAAAAAAAAAAA==b".
Proof. reflexivity. Qed.

(** The record [auth_success] is read back from its own frame: the round
    trip holds at this one object because its frame contains [success]. *)
Example parse_auth_success_fixed_point :
  parseBinaryMessage (serializeItem auth_success) = auth_success.
Proof. reflexivity. Qed.

End CodecTheory.

(** ** The pairing-code authenticator *)

Module PairingTheory.
Import Pairing.

Lemma all_digits_not_plus (c : ascii) (r : string) :
  all_digits (String c r) = true -> c <> "+"%char.
Proof.
  cbn [all_digits]. intros H ->. discriminate H.
Qed.

(** The pattern of the source accepts exactly the strings the specification
    describes. *)
Lemma matches_phone_pattern_spec (s : string) :
  matches_phone_pattern s = true <-> E164_like s.
Proof.
  unfold matches_phone_pattern, E164_like. split.
  - intros H. apply andb_prop in H as [H Hmax]. apply andb_prop in H as [Hd Hmin].
    apply Nat.leb_le in Hmin, Hmax.
    set (rest := match s with String "+"%char r => r | _ => s end) in *.
    exists rest. split; [| auto].
    destruct s as [| c r]; [now left |].
    destruct (ascii_dec c "+"%char) as [-> | Hc]; [now right |].
    left. subst rest.
    destruct c as [[] [] [] [] [] [] [] []]; try reflexivity. now elim Hc.
  - intros [ds [[-> | ->] [Hd [Hmin Hmax]]]].
    + assert (Hrest : match ds with String "+"%char r => r | _ => ds end = ds).
      { destruct ds as [| c r]; [reflexivity |].
        pose proof (all_digits_not_plus c r Hd) as Hc.
        destruct c as [[] [] [] [] [] [] [] []]; try reflexivity. now elim Hc. }
      rewrite Hrest, Hd. cbn [andb].
      apply andb_true_intro. split; apply Nat.leb_le; lia.
    + rewrite Hd. cbn [andb].
      apply andb_true_intro. split; apply Nat.leb_le; lia.
Qed.

(** C5, as the code has it.  A phone number that is not ten to fifteen
    digits with an optional leading plus sign makes [requestPairingCode]
    reject with the format error, before any effect: the authenticator (its
    stored phone number and its timer) is unchanged, no timer is set and
    nothing is emitted.  Nothing is thrown at the call: the method is
    [async] and returns a promise, rejected with the plain [Error] that
    carries the message. *)
Theorem requestPairingCode_invalid_no_effect (st : state) (phone : string) :
  ~ E164_like phone ->
  requestPairingCode st phone = (Rejected invalid_phone_number, st, []) /\
  Call.requestPairingCode st phone =
    (Call.Returns
       (Call.RejectedWith {| Call.name := "Error";
                             Call.message := invalid_phone_number |}),
     st, []).
Proof.
  intros Hbad.
  assert (H : requestPairingCode st phone = (Rejected invalid_phone_number, st, [])).
  { unfold requestPairingCode.
    destruct (matches_phone_pattern phone) eqn:Hm.
    - exfalso. apply Hbad. now apply matches_phone_pattern_spec.
    - now rewrite orb_true_r. }
  split; [exact H |]. unfold Call.requestPairingCode. now rewrite H.
Qed.

Lemma five_digits_not_E164_like : ~ E164_like "12345".
Proof.
  intros H. apply matches_phone_pattern_spec in H. discriminate H.
Qed.

(** The five-digit number of the specification's scenario. *)
Lemma requestPairingCode_invalid_no_effect_witness :
  requestPairingCode fresh_authenticator "12345" =
    (Rejected invalid_phone_number, fresh_authenticator, []) /\
  Call.requestPairingCode fresh_authenticator "12345" =
    (Call.Returns
       (Call.RejectedWith {| Call.name := "Error";
                             Call.message := invalid_phone_number |}),
     fresh_authenticator, []).
Proof.
  exact (requestPairingCode_invalid_no_effect fresh_authenticator "12345"
           five_digits_not_E164_like).
Defined.

(** C5 as stated fails: for the five-digit number the call throws nothing,
    so no [ValidationError] is raised where the call is made; what the
    caller gets is a promise rejected with an [Error]. *)
Lemma requestPairingCode_throws_nothing :
  matches_phone_pattern "12345" = false /\
  fst (fst (Call.requestPairingCode fresh_authenticator "12345")) =
    Call.Returns
      (Call.RejectedWith {| Call.name := "Error";
                            Call.message := invalid_phone_number |}) /\
  (forall message,
      fst (fst (Call.requestPairingCode fresh_authenticator "12345")) <>
      Call.Throws {| Call.name := "ValidationError";
                     Call.message := message |}) /\
  (forall message,
      fst (fst (Call.requestPairingCode fresh_authenticator "12345")) <>
      Call.Returns
        (Call.RejectedWith {| Call.name := "ValidationError";
                              Call.message := message |})).
Proof.
  split; [reflexivity |]. split; [reflexivity |].
  split; intros message; discriminate.
Qed.

(** *** The generated code *)

Lemma chars_get (n : nat) :
  (n < 36)%nat ->
  exists c, String.get n chars = Some c /\ upper_or_digit c = true.
Proof.
  intros H.
  do 36 (destruct n as [| n]; [eexists; split; reflexivity |]). lia.
Qed.

(** **** The double product

    [SpecFloat] gives the operations and no lemmas about them; what the
    index needs is proved here. *)

Lemma iter_pos_nat {A} (f : A -> A) (p : positive) : forall x,
  SpecFloat.iter_pos f p x = Nat.iter (Pos.to_nat p) f x.
Proof.
  induction p as [p IH | p IH |]; intros x; cbn [SpecFloat.iter_pos].
  - rewrite !IH, Pos2Nat.inj_xI. 
    replace (S (2 * Pos.to_nat p)) with (Pos.to_nat p + (Pos.to_nat p + 1))%nat by lia.
    rewrite !Nat.iter_add. reflexivity.
  - rewrite !IH, Pos2Nat.inj_xO.
    replace (2 * Pos.to_nat p)%nat with (Pos.to_nat p + Pos.to_nat p)%nat by lia.
    rewrite Nat.iter_add. reflexivity.
  - reflexivity.
Qed.

Lemma shr_1_spec (mrs : shr_record) :
  0 <= shr_m mrs ->
  shr_m (shr_1 mrs) = shr_m mrs / 2 /\ shr_r (shr_1 mrs) = Z.odd (shr_m mrs).
Proof.
  destruct mrs as [m r s]. cbn [shr_m]. intros Hm.
  destruct m as [| [p | p |] |]; cbn [shr_1 shr_m shr_r]; try lia.
  - split; reflexivity.
  - split; [|reflexivity]. rewrite Pos2Z.inj_xI.
    apply (Z.div_unique_pos _ 2 _ 1); lia.
  - split; [|reflexivity]. rewrite Pos2Z.inj_xO.
    apply (Z.div_unique_pos _ 2 _ 0); lia.
  - split; reflexivity.
Qed.

Lemma shr_iter (k : nat) (mrs : shr_record) :
  0 <= shr_m mrs ->
  shr_m (Nat.iter (S k) shr_1 mrs) = shr_m mrs / 2 ^ Z.of_nat (S k) /\
  shr_r (Nat.iter (S k) shr_1 mrs) = Z.odd (shr_m mrs / 2 ^ Z.of_nat k).
Proof.
  intros Hm. induction k as [|k [IHm IHr]].
  - cbn [Nat.iter nat_rect]. destruct (shr_1_spec mrs Hm) as [-> ->].
    change (2 ^ Z.of_nat 1) with 2. change (2 ^ Z.of_nat 0) with 1.
    rewrite Z.div_1_r. split; reflexivity.
  - rewrite Nat.iter_succ.
    assert (H0 : 0 <= shr_m (Nat.iter (S k) shr_1 mrs)).
    { rewrite IHm. apply Z.div_pos; [exact Hm | lia]. }
    destruct (shr_1_spec _ H0) as [-> ->]. rewrite IHm. split; [|reflexivity].
    rewrite Z.div_div by lia.
    rewrite (Nat2Z.inj_succ (S k)), Z.pow_succ_r by lia.
    f_equal. lia.
Qed.

(** Shifting a mantissa right by [n] binary places and rounding to nearest
    adds at most half a unit of the last place kept. *)
Lemma shr_round (M E n : Z) :
  0 < M ->
  let '(mrs, e') := shr (shr_record_of_loc M loc_Exact) E n in
  let m2 := round_nearest_even (shr_m mrs) (loc_of_shr_record mrs) in
  exists k, 0 <= k /\ (k = 0 \/ k = n) /\ e' = E + k /\ 0 <= m2 /\
            m2 * 2 ^ k <= M + (if k =? 0 then 0 else 2 ^ (k - 1)).
Proof.
  intros HM. unfold shr. destruct n as [| p |].
  - cbn. exists 0. split; [lia|]. split; [left; reflexivity|].
    split; [lia|]. rewrite Z.eqb_refl, Z.pow_0_r. split; lia.
  - rewrite iter_pos_nat.
    destruct (Pos2Nat.is_succ p) as [k Hk]. rewrite Hk.
    destruct (shr_iter k (shr_record_of_loc M loc_Exact)) as [Hm Hr];
      [cbn; lia|].
    cbn [shr_record_of_loc shr_m] in Hm, Hr.
    assert (Hp : Z.pos p = Z.of_nat (S k)) by lia.
    set (R := Nat.iter (S k) shr_1 _) in *.
    exists (Z.pos p). split; [lia|]. split; [right; reflexivity|].
    split; [reflexivity|].
    replace (Z.pos p =? 0) with false by reflexivity.
    rewrite Hp in *. clear Hp Hk.
    set (q := M / 2 ^ Z.of_nat k) in *.
    assert (Hpow : 2 ^ Z.of_nat (S k) = 2 * 2 ^ Z.of_nat k)
      by (rewrite Nat2Z.inj_succ, Z.pow_succ_r; lia).
    assert (Hpos : 0 < 2 ^ Z.of_nat k) by (apply Z.pow_pos_nonneg; lia).
    replace (Z.of_nat (S k) - 1) with (Z.of_nat k) by lia.
    assert (Hq : shr_m R = q / 2).
    { rewrite Hm, Hpow, (Z.mul_comm 2). unfold q.
      rewrite <- Z.div_div by lia. reflexivity. }
    assert (Hq0 : 0 <= q) by (apply Z.div_pos; lia).
    assert (HqM : q * 2 ^ Z.of_nat k <= M).
    { unfold q. rewrite Z.mul_comm. apply Z.mul_div_le. lia. }
    assert (Hhalf : 0 <= q / 2) by (apply Z.div_pos; lia).
    assert (Hdiv : q = 2 * (q / 2) + (if Z.odd q then 1 else 0)).
    { rewrite (Z.div_mod q 2) at 1 by lia. f_equal.
      rewrite Zmod_odd. reflexivity. }
    rewrite Hpow.
    destruct R as [m1 r1 s1]. cbn [shr_m shr_r] in *. subst m1 r1.
    rewrite Hq. clearbody q. set (t := 2 ^ Z.of_nat k) in *. clearbody t.
    set (h := q / 2) in *. clearbody h.
    destruct (Z.odd q); destruct s1; cbn [loc_of_shr_record round_nearest_even].
    + split; [lia | nia].
    + destruct (Z.even h); split; try lia; nia.
    + split; [lia | nia].
    + split; [lia | nia].
  - cbn. exists 0. split; [lia|]. split; [left; reflexivity|].
    split; [lia|]. rewrite Z.eqb_refl, Z.pow_0_r. split; lia.
Qed.

(** A plain shift leaves at most what there was. *)
Lemma shr_floor (m e n : Z) :
  0 <= m ->
  let '(mrs, e') := shr (shr_record_of_loc m loc_Exact) e n in
  exists k, 0 <= k /\ (k = 0 \/ k = n) /\ e' = e + k /\ 0 <= shr_m mrs /\
            shr_m mrs * 2 ^ k <= m.
Proof.
  intros Hm. unfold shr. destruct n as [| p |].
  - cbn. exists 0. split; [lia|]. split; [left; reflexivity|].
    split; [lia|]. rewrite Z.pow_0_r. split; lia.
  - rewrite iter_pos_nat.
    destruct (Pos2Nat.is_succ p) as [k Hk]. rewrite Hk.
    destruct (shr_iter k (shr_record_of_loc m loc_Exact)) as [Hs _];
      [cbn; lia|].
    cbn [shr_record_of_loc shr_m] in Hs |- *.
    exists (Z.pos p). split; [lia|]. split; [right; reflexivity|].
    split; [reflexivity|].
    replace (Z.pos p) with (Z.of_nat (S k)) by lia. rewrite Hs.
    assert (Hpos : 0 < 2 ^ Z.of_nat (S k)) by (apply Z.pow_pos_nonneg; lia).
    split; [apply Z.div_pos; lia|].
    rewrite Z.mul_comm. apply Z.mul_div_le. lia.
  - cbn. exists 0. split; [lia|]. split; [left; reflexivity|].
    split; [lia|]. rewrite Z.pow_0_r. split; lia.
Qed.

Lemma digits2_pos_le (p : positive) :
  2 ^ (Z.pos (digits2_pos p) - 1) <= Z.pos p.
Proof.
  induction p as [p IH | p IH |]; cbn [digits2_pos].
  - rewrite Pos2Z.inj_succ. replace (Z.succ (Z.pos (digits2_pos p)) - 1)
      with (Z.succ (Z.pos (digits2_pos p) - 1)) by lia.
    rewrite Z.pow_succ_r by lia. lia.
  - rewrite Pos2Z.inj_succ. replace (Z.succ (Z.pos (digits2_pos p)) - 1)
      with (Z.succ (Z.pos (digits2_pos p) - 1)) by lia.
    rewrite Z.pow_succ_r by lia. lia.
  - reflexivity.
Qed.

Lemma Zdigits2_le (m k : Z) : 0 <= m < 2 ^ k -> 0 <= k -> Zdigits2 m <= k.
Proof.
  intros [H0 Hk] Hk0. destruct m as [| p |]; cbn [Zdigits2]; try lia.
  pose proof (digits2_pos_le p) as Hd.
  destruct (Z.le_gt_cases (Z.pos (digits2_pos p)) k) as [|Hgt]; [assumption|].
  exfalso.
  assert (2 ^ k <= 2 ^ (Z.pos (digits2_pos p) - 1))
    by (apply Z.pow_le_mono_r; lia).
  lia.
Qed.

Lemma digits2_pos_gt (p : positive) : Z.pos p < 2 ^ Z.pos (digits2_pos p).
Proof.
  induction p as [p IH | p IH |]; cbn [digits2_pos].
  - rewrite Pos2Z.inj_succ, Z.pow_succ_r by lia. lia.
  - rewrite Pos2Z.inj_succ, Z.pow_succ_r by lia. lia.
  - reflexivity.
Qed.


(** The product of two doubles, rounded: the mantissa [M] at exponent [E]
    comes back as zero or as a double that lies below every bound [K] that
    [M] misses by more than half a unit of the last place. *)
Lemma binary_round_aux_below (M : positive) (E K : Z) :
  -1127 <= E <= -64 ->
  Z.pos M < 2 ^ 106 ->
  Z.pos M + 2 ^ 52 < K ->
  match binary_round_aux 53 1024 false (Z.pos M) E loc_Exact with
  | S754_zero false => True
  | S754_finite false m3 e3 => E <= e3 /\ Z.pos m3 * 2 ^ (e3 - E) < K
  | _ => False
  end.
Proof.
  intros HE HM HK. unfold binary_round_aux, shr_fexp.
  set (n1 := fexp 53 1024 (Zdigits2 (Z.pos M) + E) - E).
  assert (Hn1 : n1 <= 53).
  { unfold n1, fexp, emin.
    pose proof (Zdigits2_le (Z.pos M) 106 (conj (Pos2Z.is_nonneg M) HM)
                  ltac:(lia)).
    lia. }
  pose proof (shr_round (Z.pos M) E n1 (Pos2Z.is_pos M)) as H1.
  destruct (shr (shr_record_of_loc (Z.pos M) loc_Exact) E n1) as [mrs1 e1].
  cbv zeta in H1. destruct H1 as (k1 & Hk1 & Hk1n & -> & Hm2 & Hb1).
  set (m2 := round_nearest_even (shr_m mrs1) (loc_of_shr_record mrs1)) in *.
  assert (Hpow1 : 0 < 2 ^ k1) by (apply Z.pow_pos_nonneg; lia).
  assert (Hhalf : (if k1 =? 0 then 0 else 2 ^ (k1 - 1)) <= 2 ^ 52).
  { destruct (Z.eqb_spec k1 0); [lia|]. apply Z.pow_le_mono_r; lia. }
  assert (Hm2K : m2 * 2 ^ k1 < K) by lia.
  assert (Hm2lt : m2 < 2 ^ 107).
  { assert (m2 <= m2 * 2 ^ k1) by nia.
    assert (2 ^ 106 + 2 ^ 52 < 2 ^ 107) by reflexivity. lia. }
  set (n2 := fexp 53 1024 (Zdigits2 m2 + (E + k1)) - (E + k1)).
  assert (Hn2 : n2 <= 54).
  { unfold n2, fexp, emin.
    pose proof (Zdigits2_le m2 107 (conj Hm2 Hm2lt) ltac:(lia)). lia. }
  pose proof (shr_floor m2 (E + k1) n2 Hm2) as H2.
  destruct (shr (shr_record_of_loc m2 loc_Exact) (E + k1) n2) as [mrs2 e2].
  destruct H2 as (k2 & Hk2 & Hk2n & -> & Hm3 & Hb2).
  destruct (shr_m mrs2) as [| m3 |] eqn:Hm3e; [exact I | | lia].
  replace (E + k1 + k2 <=? 1024 - 53) with true
    by (symmetry; apply Z.leb_le; lia).
  split; [lia|].
  replace (E + k1 + k2 - E) with (k2 + k1) by lia.
  rewrite Z.pow_add_r by lia. nia.
Qed.


Lemma unit_interval_finite (s : bool) (m : positive) (e : Z) :
  unit_interval (S754_finite s m e) = true ->
  s = false /\ -1074 <= e <= -52 /\ Z.pos m < 2 ^ 53 /\ Z.pos m < 2 ^ (- e).
Proof.
  unfold unit_interval. intros H.
  apply andb_true_iff in H. destruct H as [H Hlt].
  apply andb_true_iff in H. destruct H as [Hv Hle].
  assert (Hs : s = false) by (destruct s; [discriminate Hle | reflexivity]).
  subst s. split; [reflexivity|].
  cbn [valid_binary] in Hv. unfold bounded, canonical_mantissa in Hv.
  apply andb_true_iff in Hv. destruct Hv as [Hc _].
  apply Z.eqb_eq in Hc. unfold fexp, emin, prec, emax in Hc.
  pose proof (digits2_pos_gt m) as Hd.
  assert (Hd53 : Z.pos (digits2_pos m) <= 53) by lia.
  assert (Hm53 : Z.pos m < 2 ^ 53).
  { eapply Z.lt_le_trans; [exact Hd|]. apply Z.pow_le_mono_r; lia. }
  assert (He : e <= -52 /\ (e = -52 -> Z.pos m < 2 ^ 52)).
  { unfold SFltb in Hlt.
    change (Number_of_Z 1) with (S754_finite false 4503599627370496 (-52)) in Hlt.
    cbn [SFcompare] in Hlt.
    destruct (e ?= -52) eqn:Hcmp.
    - rewrite Z.compare_eq_iff in Hcmp. split; [lia|]. intros _.
      destruct (Pos.compare_cont Eq m 4503599627370496) eqn:Hcont;
        try discriminate Hlt.
      rewrite Pos.compare_cont_spec in Hcont.
      destruct (Pos.compare m 4503599627370496) eqn:Hc2;
        try discriminate Hcont.
      apply Pos.compare_lt_iff in Hc2.
      change (2 ^ 52) with (Z.pos 4503599627370496).
      apply Pos2Z.pos_lt_pos. exact Hc2.
    - rewrite Z.compare_lt_iff in Hcmp. split; [lia | intros Heq; lia].
    - discriminate Hlt. }
  destruct He as [He Hm52]. split; [lia|]. split; [exact Hm53|].
  destruct (Z.eq_dec e (-52)) as [-> | Hne]; [apply Hm52; reflexivity|].
  eapply Z.lt_le_trans; [exact Hm53|]. apply Z.pow_le_mono_r; lia.
Qed.

(** The index [Math.floor(Math.random() * chars.length)] is one of 0, ...,
    35 for every draw in [0, 1): the rounding of the product never reaches
    36. *)
Lemma index_in_range (r : spec_float) :
  unit_interval r = true ->
  exists i, Math_floor (Number_mul r (Number_of_Z 36)) = Some i /\ 0 <= i < 36.
Proof.
  intros Hr.
  change (Number_of_Z 36) with (S754_finite false 5066549580791808 (-47)).
  destruct r as [s | s | | s m e].
  - exists 0. split; [reflexivity | lia].
  - destruct s; discriminate Hr.
  - discriminate Hr.
  - destruct (unit_interval_finite s m e Hr) as (-> & He & Hm53 & Hm1).
    unfold Number_mul. cbn [SFmul xorb].
    set (M := (m * 5066549580791808)%positive).
    set (E := e + -47).
    assert (HM : Z.pos M = Z.pos m * (36 * 2 ^ 47)) by (unfold M; lia).
    assert (Hpow : 2 ^ (- E) = 2 ^ 47 * 2 ^ (- e)).
    { unfold E. replace (- (e + -47)) with (47 + - e) by lia.
      apply Z.pow_add_r; lia. }
    pose proof (binary_round_aux_below M E (36 * 2 ^ (- E))) as Hb.
    assert (Hpe : 0 < 2 ^ (- e)) by (apply Z.pow_pos_nonneg; lia).
    assert (H1 : -1127 <= E <= -64) by (unfold E; lia).
    assert (H2 : Z.pos M < 2 ^ 106).
    { rewrite HM. change (2 ^ 106) with (2 ^ 53 * 2 ^ 53).
      assert (36 * 2 ^ 47 < 2 ^ 53) by reflexivity. nia. }
    assert (H3 : Z.pos M + 2 ^ 52 < 36 * 2 ^ (- E)).
    { rewrite HM, Hpow. assert (2 ^ 52 < 36 * 2 ^ 47) by reflexivity. nia. }
    specialize (Hb H1 H2 H3). unfold prec, emax.
    destruct (binary_round_aux 53 1024 false (Z.pos M) E loc_Exact)
      as [[] | [] | | [] m3 e3]; try contradiction.
    + exists 0. split; [reflexivity | lia].
    + destruct Hb as [Hle Hlt]. cbn [Math_floor].
      eexists. split; [reflexivity|].
      assert (Hp3 : 0 < 2 ^ (e3 - E)) by (apply Z.pow_pos_nonneg; lia).
      assert (HpE : 0 < 2 ^ (- E)) by (apply Z.pow_pos_nonneg; lia).
      destruct (Z.leb_spec 0 e3) as [Hpos | Hneg].
      * assert (Hsplit : 2 ^ (e3 - E) = 2 ^ e3 * 2 ^ (- E)).
        { replace (e3 - E) with (e3 + - E) by lia. apply Z.pow_add_r; lia. }
        assert (0 < 2 ^ e3) by (apply Z.pow_pos_nonneg; lia).
        rewrite Hsplit in Hlt. nia.
      * assert (Hsplit : 2 ^ (- E) = 2 ^ (- e3) * 2 ^ (e3 - E)).
        { replace (- E) with (- e3 + (e3 - E)) by lia. apply Z.pow_add_r; lia. }
        assert (Hq : 0 < 2 ^ (- e3)) by (apply Z.pow_pos_nonneg; lia).
        rewrite Hsplit in Hlt. split.
        -- apply Z.div_pos; lia.
        -- apply Z.div_lt_upper_bound; [exact Hq|]. nia.
Qed.

Lemma pick_char (r : spec_float) :
  unit_interval r = true ->
  exists c, pick r = String c EmptyString /\ upper_or_digit c = true.
Proof.
  intros Hr. unfold pick. change (Z.of_nat (String.length chars)) with 36.
  destruct (index_in_range r Hr) as [i [-> Hi]].
  destruct (Z.ltb_spec i 0); [lia |].
  destruct (chars_get (Z.to_nat i)) as [c [Hc Hu]]; [lia |].
  rewrite Hc. eauto.
Qed.

(** Whatever doubles in [0, 1) [Math.random()] returns, the generated code
    is eight characters from [A-Z0-9]. *)
Lemma generatePairingCode_pattern (random : nat -> spec_float) :
  (forall i, unit_interval (random i) = true) ->
  matches_code_pattern (generatePairingCode random) = true.
Proof.
  intros H. unfold generatePairingCode. cbn [seq fold_left].
  destruct (pick_char (random 0%nat)) as [c0 [-> H0]]; [apply H |].
  destruct (pick_char (random 1%nat)) as [c1 [-> H1]]; [apply H |].
  destruct (pick_char (random 2%nat)) as [c2 [-> H2]]; [apply H |].
  destruct (pick_char (random 3%nat)) as [c3 [-> H3]]; [apply H |].
  destruct (pick_char (random 4%nat)) as [c4 [-> H4]]; [apply H |].
  destruct (pick_char (random 5%nat)) as [c5 [-> H5]]; [apply H |].
  destruct (pick_char (random 6%nat)) as [c6 [-> H6]]; [apply H |].
  destruct (pick_char (random 7%nat)) as [c7 [-> H7]]; [apply H |].
  unfold matches_code_pattern.
  change (forallb upper_or_digit [c0; c1; c2; c3; c4; c5; c6; c7] && true = true).
  cbn [forallb]. now rewrite H0, H1, H2, H3, H4, H5, H6, H7.
Qed.

(** C4 as stated fails: the number with spaces and a dash is rejected, and
    the authenticator stores no phone number. *)
Lemma requestPairingCode_rejects_separators :
  matches_phone_pattern "+1 234-567-8900" = false /\
  requestPairingCode fresh_authenticator "+1 234-567-8900" =
  (Rejected invalid_phone_number, fresh_authenticator, []).
Proof.
  split; reflexivity.
Qed.

(** C4, as the code has it.  The number written with separators is rejected
    without effect.  Written without them, [+12345678900] is accepted: the
    stored number is [12345678900], the expiry timer is set (after the
    pending one, if any, is cleared) and [pairing_requested] is emitted with
    the client id, the public key and the stored number; no code is issued
    by the request.  The code of [generatePairingCode] is eight characters
    of [A-Z0-9] whatever doubles in [0, 1) the random draws are. *)
Theorem pairing_request_scenario (st : state) (random : nat -> spec_float) :
  requestPairingCode st "+1 234-567-8900" =
    (Rejected invalid_phone_number, st, []) /\
  (let expiry := {| delay := pairingTimeout st; fires := "pairing_expired" |} in
   requestPairingCode st "+12345678900" =
     (Fulfilled,
      {| clientId := clientId st; keys := keys st;
         pairingTimeout := pairingTimeout st;
         phoneNumber := Some "12345678900";
         pairingTimer := Some expiry |},
      match pairingTimer st with
      | Some pending => [ClearTimeout pending]
      | None => []
      end ++
      [SetTimeout expiry;
       Emit "pairing_requested"
            (Codec.VObj
               [("clientId", Codec.VStr (clientId st));
                ("publicKey", Codec.VStr (publicKey (keys st)));
                ("phoneNumber", Codec.VStr "12345678900")])])) /\
  ((forall i, unit_interval (random i) = true) ->
   matches_code_pattern (generatePairingCode random) = true).
Proof.
  split; [| split].
  - reflexivity.
  - unfold requestPairingCode, clearTimers.
    cbn [JS.truthy_string negb orb]. 
    change (matches_phone_pattern "+12345678900") with true.
    cbn [negb orb pairingTimer]. destruct (pairingTimer st); reflexivity.
  - apply generatePairingCode_pattern.
Qed.

(** The scenario on a fresh authenticator, with every draw the double just
    below 25/36 whose product with 36 rounds up to 25. *)
Lemma pairing_request_scenario_witness :
  phoneNumber
    (snd (fst (requestPairingCode fresh_authenticator "+12345678900"))) =
    Some "12345678900" /\
  matches_code_pattern (generatePairingCode (fun _ => rounding_draw)) = true.
Proof.
  destruct (pairing_request_scenario fresh_authenticator (fun _ => rounding_draw))
    as [_ [Hreq Hcode]].
  split.
  - cbv zeta in Hreq. rewrite Hreq. reflexivity.
  - apply Hcode. intros _. reflexivity.
Defined.

Example generatePairingCode_half :
  generatePairingCode (fun _ => one_half) = "SSSSSSSS".
Proof. reflexivity. Qed.

(** The exact product of [rounding_draw] and 36 is below 25, so its floor
    would be 24 and the character [Y]; the double product is 25. *)
Example generatePairingCode_rounding :
  Number_mul rounding_draw (Number_of_Z 36) = Number_of_Z 25 /\
  Z.pos 6254999482459022 * 36 < 25 * 2 ^ 53 /\
  generatePairingCode (fun _ => rounding_draw) = "ZZZZZZZZ".
Proof. repeat split. Qed.

End PairingTheory.

(** ** The QR string *)

Module QRTheory.
Import QR.

Lemma append_String (c : ascii) (a b : string) :
  String c a +:+ b = String c (a +:+ b).
Proof. reflexivity. Qed.

Lemma append_Empty (b : string) : EmptyString +:+ b = b.
Proof. reflexivity. Qed.

(** Splitting at the separator that follows a field free of it gives the
    field and the split of the rest. *)
Lemma split_field (sep : ascii) (a b : string) :
  JS.free_of sep a = true ->
  JS.split sep (a +:+ String sep b) = a :: JS.split sep b.
Proof.
  induction a as [| c a IH]; intros Hfree.
  - rewrite append_Empty. cbn [JS.split]. now rewrite Ascii.eqb_refl.
  - cbn [JS.free_of] in Hfree. apply andb_prop in Hfree as [Hc Ha].
    rewrite append_String. cbn [JS.split].
    apply negb_true_iff in Hc. rewrite Hc, (IH Ha). reflexivity.
Qed.

Lemma split_last_field (sep : ascii) (a : string) :
  JS.free_of sep a = true -> JS.split sep a = [a].
Proof.
  induction a as [| c a IH]; intros Hfree; [reflexivity |].
  cbn [JS.free_of] in Hfree. apply andb_prop in Hfree as [Hc Ha].
  cbn [JS.split]. apply negb_true_iff in Hc. now rewrite Hc, (IH Ha).
Qed.

(** Three fields free of commas are recovered from their join. *)
Lemma split_three_fields (a b c : string) :
  JS.free_of "," a = true -> JS.free_of "," b = true ->
  JS.free_of "," c = true ->
  JS.split "," (a +:+ "," +:+ b +:+ "," +:+ c) = [a; b; c].
Proof.
  intros Ha Hb Hc.
  change ("," +:+ b +:+ "," +:+ c) with (String "," (b +:+ String "," c)).
  now rewrite (split_field _ _ _ Ha), (split_field _ _ _ Hb),
    (split_last_field _ _ Hc).
Qed.

(** C8.  [generateQR] returns the three fields [ref], [clientId] and
    [publicKey] in this order, joined by commas and otherwise unchanged; it
    stores this string, and emits it, and nothing else, as the [qr] event.
    When no field holds a comma the string splits at its commas into exactly
    these three fields. *)
Theorem generateQR_three_fields (st : state) (ref : string) :
  let data := fst (fst (generateQR st ref)) in
  let st' := snd (fst (generateQR st ref)) in
  let effects := snd (generateQR st ref) in
  data = JS.join "," [ref; clientId st; publicKey (keys st)] /\
  data = ref +:+ "," +:+ clientId st +:+ "," +:+ publicKey (keys st) /\
  qrData st' = Some data /\
  In (Emit "qr" (Codec.VStr data)) effects /\
  (forall event payload,
      In (Emit event payload) effects ->
      event = "qr" /\ payload = Codec.VStr data) /\
  (JS.free_of "," ref = true -> JS.free_of "," (clientId st) = true ->
   JS.free_of "," (publicKey (keys st)) = true ->
   JS.split "," data = [ref; clientId st; publicKey (keys st)]).
Proof.
  unfold generateQR, clearTimers.
  cbn [fst snd clientId keys qrData]. repeat split.
  - apply in_or_app. right. cbn. auto.
  - apply in_app_or in H as [H | H].
    + apply in_app_or in H as [H | H];
        [destruct (qrTimer st) | destruct (qrRefreshTimer st)];
        cbn in H; intuition discriminate.
    + cbn in H. destruct H as [H | [H | [H | []]]];
        congruence.
  - apply in_app_or in H as [H | H].
    + apply in_app_or in H as [H | H];
        [destruct (qrTimer st) | destruct (qrRefreshTimer st)];
        cbn in H; intuition discriminate.
    + cbn in H. destruct H as [H | [H | [H | []]]];
        congruence.
  - apply split_three_fields.
Qed.

(** An authenticator as the constructor leaves it, and a drawn [ref]. *)
Lemma generateQR_three_fields_witness :
  JS.split ","
    (fst (fst (generateQR
                 (new None None None "0123456789abcdef0123456789abcdef"
                      {| privateKey := "c2VjcmV0LWtleQ==";
                         publicKey := "cHVibGljLWtleQ==" |})
                 "q83vEjRWeJCrze8SNFZ4kA=="))) =
  ["q83vEjRWeJCrze8SNFZ4kA=="; "0123456789abcdef0123456789abcdef";
   "cHVibGljLWtleQ=="].
Proof.
  refine (proj2 (proj2 (proj2 (proj2 (proj2
    (generateQR_three_fields
       (new None None None "0123456789abcdef0123456789abcdef"
            {| privateKey := "c2VjcmV0LWtleQ=="; publicKey := "cHVibGljLWtleQ==" |})
       "q83vEjRWeJCrze8SNFZ4kA=="))))) _ _ _); reflexivity.
Defined.

(** A client id given by the caller is not escaped: a comma in it yields a
    fourth field. *)
Example generateQR_comma_in_clientId :
  JS.split ","
    (fst (fst (generateQR
                 (new (Some "a,b") None None "unused"
                      {| privateKey := "c2s="; publicKey := "cGs=" |})
                 "cmVm"))) =
  ["cmVm"; "a"; "b"; "cGs="].
Proof. reflexivity. Qed.

(** [WhatsAppCore.handleQRResponse] joins the fields in another order: the
    reference, the public key in Base64, then the client id. *)
Lemma handleQRResponse_order (base64 : Codec.Buffer -> string) (now : Z)
  (c : core) (cred : AuthCredentials) (r : string) :
  credentials c = Some cred -> JS.truthy_string r = true ->
  In (Emit "qr"
        (Codec.VStr (r +:+ "," +:+ base64 (cred_publicKey cred) +:+ "," +:+
                     cred_clientId cred)))
     (snd (handleQRResponse base64 now c (Some r))).
Proof.
  intros Hc Hr. unfold handleQRResponse. rewrite Hc, Hr.
  cbn [snd]. apply in_or_app. left. left. reflexivity.
Qed.

End QRTheory.

(** ** The reconnection policy *)

Module ReconnectTheory.
Import Reconnect.






(** [WebSocketClient._reconnect] waits the same [reconnectInterval] before
    every attempt: its delay does not grow with the attempt number. *)
Lemma WebSocketClient_reconnect_constant_delay (o : options) (c : client) :
  let max := if JS.truthy_number (maxReconnectAttempts o)
             then maxReconnectAttempts o else 10 in
  reconnectAttempts c < max ->
  In (ClientConnectAfter (reconnectInterval o)) (snd (_reconnect o c)) /\
  reconnectAttempts (fst (_reconnect o c)) = reconnectAttempts c + 1.
Proof.
  intros max H. unfold _reconnect. fold max.
  destruct (Z.leb_spec max (reconnectAttempts c)); [lia |].
  cbn [fst snd reconnectAttempts]. split; [| reflexivity].
  apply in_or_app. right. right. left. reflexivity.
Qed.

End ReconnectTheory.

(** ** The entity cache *)

Module CacheTheory.
Import Cache.

Lemma message_of_env (e1 e2 : env) (d : data) :
  carries_id_and_timestamp d -> message_of e1 d = message_of e2 d.
Proof.
  intros [[i [Hi Hti]] [t [Ht Htt]]]. unfold message_of, or_string, or_number.
  now rewrite Hi, Hti, Ht, Htt.
Qed.

Lemma touch_unreadCount (m : WAMessage) (c : WAChat) :
  unreadCount (touch m c) = unreadCount c + 1.
Proof. reflexivity. Qed.

(** The cache after one call. *)
Lemma handleNewMessage_cache (w : bool) (e : env) (d : data) (st : cache) :
  fst (handleNewMessage w e d st) =
  {| chats := match chat_of st (message_of e d) with
              | Some (k, c) => <[k := touch (message_of e d) c]> (chats st)
              | None => chats st
              end;
     messages := <[id (message_of e d) := message_of e d]> (messages st) |}.
Proof.
  unfold handleNewMessage.
  destruct (chat_of st (message_of e d)) as [[k c] |]; reflexivity.
Qed.

Lemma chat_of_Some (st : cache) (m : WAMessage) (k : string) (c : WAChat) :
  chat_of st m = Some (k, c) <-> chat m = Some k /\ chats st !! k = Some c.
Proof.
  unfold chat_of. destruct (chat m) as [k' |].
  - destruct (chats st !! k') as [c' |] eqn:Hl.
    + split.
      * intros [= <- <-]. auto.
      * intros [[= <-] H]. congruence.
    + split; [discriminate |]. intros [[= <-] H]. congruence.
  - split; [discriminate | intros [H _]; discriminate].
Qed.

(** The caches after one and after two applications of an event that
    carries an id and a timestamp. *)
Lemma handleNewMessage_once_twice (w : bool) (e1 e2 : env) (d : data)
  (st : cache) :
  carries_id_and_timestamp d ->
  let m := message_of e1 d in
  let once := fst (handleNewMessage w e1 d st) in
  let twice := fst (handleNewMessage w e2 d once) in
  once = {| chats := match chat_of st m with
                     | Some (k, c) => <[k := touch m c]> (chats st)
                     | None => chats st
                     end;
            messages := <[id m := m]> (messages st) |} /\
  twice = {| chats := match chat_of st m with
                      | Some (k, c) => <[k := touch m (touch m c)]> (chats st)
                      | None => chats st
                      end;
             messages := <[id m := m]> (messages st) |}.
Proof.
  intros Hd m once twice.
  assert (Hm : message_of e2 d = m) by (symmetry; now apply message_of_env).
  assert (Honce : once =
    {| chats := match chat_of st m with
                | Some (k, c) => <[k := touch m c]> (chats st)
                | None => chats st
                end;
       messages := <[id m := m]> (messages st) |})
    by apply handleNewMessage_cache.
  split; [exact Honce |].
  unfold twice. rewrite handleNewMessage_cache, Hm. fold once. rewrite Honce.
  cbn [messages chats]. rewrite insert_insert_eq. f_equal.
  destruct (chat_of st m) as [[k c] |] eqn:Hk.
  - assert (Hk' : chat_of {| chats := <[k := touch m c]> (chats st);
                             messages := <[id m := m]> (messages st) |} m =
                  Some (k, touch m c)).
    { apply chat_of_Some in Hk as [Hchat _]. apply chat_of_Some.
      split; [exact Hchat |]. cbn [chats]. apply lookup_insert_eq. }
    rewrite Hk'. apply insert_insert_eq.
  - assert (Hk' : chat_of {| chats := chats st;
                             messages := <[id m := m]> (messages st) |} m = None).
    { unfold chat_of in *. cbn [chats]. exact Hk. }
    now rewrite Hk'.
Qed.

(** Two caches that hold different chats under a key are different. *)
Lemma caches_differ (k : string) (c1 c2 : WAChat) (cs : gmap string WAChat)
  (ms1 ms2 : gmap string WAMessage) :
  unreadCount c1 <> unreadCount c2 ->
  {| chats := <[k := c1]> cs; messages := ms1 |} <>
  {| chats := <[k := c2]> cs; messages := ms2 |}.
Proof.
  intros Hne Heq. apply (f_equal (fun s => chats s !! k)) in Heq.
  cbn [chats] in Heq. rewrite !lookup_insert_eq in Heq.
  apply Hne. congruence.
Qed.

(** C6, as the code has it.  Let an event that carries an id and a timestamp
    be applied twice.  The message map is the same after the second
    application as after the first.  When the chat of the message is not in
    the cache, so is the whole cache, and no chat is created.  When it is,
    every application counts one more unread message: after the second the
    chat has two more than before, and the cache differs from the cache
    after the first. *)
Theorem handleNewMessage_twice (w : bool) (e1 e2 : env) (d : data) (st : cache) :
  carries_id_and_timestamp d ->
  let m := message_of e1 d in
  let once := fst (handleNewMessage w e1 d st) in
  let twice := fst (handleNewMessage w e2 d once) in
  messages twice = messages once /\
  (chat_of st m = None -> twice = once /\ chats once = chats st) /\
  (forall k c, chat_of st m = Some (k, c) ->
     chats once = <[k := touch m c]> (chats st) /\
     chats twice = <[k := touch m (touch m c)]> (chats st) /\
     unreadCount (touch m (touch m c)) = unreadCount c + 2 /\
     twice <> once).
Proof.
  intros Hd m once twice.
  destruct (handleNewMessage_once_twice w e1 e2 d st Hd) as [Honce Htwice].
  fold m in Honce, Htwice. fold once in Honce, Htwice. fold twice in Htwice.
  split; [| split].
  - now rewrite Htwice, Honce.
  - intros Hnone. rewrite Hnone in Honce, Htwice.
    split; [congruence | now rewrite Honce].
  - intros k c Hk. rewrite Hk in Honce, Htwice.
    split; [now rewrite Honce |]. split; [now rewrite Htwice |].
    split; [rewrite !touch_unreadCount; lia |].
    rewrite Htwice, Honce. apply caches_differ.
    rewrite !touch_unreadCount. lia.
Qed.

(** One chat, one event for it: the second application changes the cache
    again, and the unread count goes from 1 to 2. *)
Lemma handleNewMessage_twice_witness :
  chats (fst (handleNewMessage false noon hello_event
                (fst (handleNewMessage false noon hello_event one_chat_cache)))) =
  <[ "1234567890@s.whatsapp.net" :=
       touch (message_of noon hello_event)
             (touch (message_of noon hello_event) one_chat) ]>
    (chats one_chat_cache).
Proof.
  assert (Hd : carries_id_and_timestamp hello_event).
  { split; eexists; split; reflexivity. }
  assert (Hk : chat_of one_chat_cache (message_of noon hello_event) =
               Some ("1234567890@s.whatsapp.net", one_chat)).
  { apply chat_of_Some. split; [reflexivity |]. apply lookup_singleton_eq. }
  exact (proj1 (proj2 (proj2 (proj2
           (handleNewMessage_twice false noon noon hello_event one_chat_cache Hd))
           _ _ Hk))).
Defined.

(** C6 as stated fails: for the one chat and its event, the cache after two
    applications is not the cache after one, and the unread count is 2
    after the second application where it was 1 after the first. *)
Lemma handleNewMessage_not_idempotent :
  fst (handleNewMessage false noon hello_event
         (fst (handleNewMessage false noon hello_event one_chat_cache))) <>
  fst (handleNewMessage false noon hello_event one_chat_cache) /\
  unreadCount <$>
    chats (fst (handleNewMessage false noon hello_event one_chat_cache))
      !! "1234567890@s.whatsapp.net" = Some 1 /\
  unreadCount <$>
    chats (fst (handleNewMessage false noon hello_event
                  (fst (handleNewMessage false noon hello_event one_chat_cache))))
      !! "1234567890@s.whatsapp.net" = Some 2.
Proof.
  assert (Hd : carries_id_and_timestamp hello_event).
  { split; eexists; split; reflexivity. }
  assert (Hk : chat_of one_chat_cache (message_of noon hello_event) =
               Some ("1234567890@s.whatsapp.net", one_chat)).
  { apply chat_of_Some. split; [reflexivity |]. apply lookup_singleton_eq. }
  destruct (handleNewMessage_once_twice false noon noon hello_event
              one_chat_cache Hd) as [H1 H2].
  cbv zeta in H1, H2. rewrite Hk in H1, H2. rewrite H2, H1.
  split; [| split].
  - apply caches_differ. rewrite !touch_unreadCount. cbn. lia.
  - cbn [chats]. rewrite lookup_insert_eq. reflexivity.
  - cbn [chats]. rewrite lookup_insert_eq. reflexivity.
Qed.

(** Without an id in the event each application stores a message of its
    own, under the id generated from the clock and the random source. *)
Lemma handleNewMessage_without_id (w : bool) (e1 e2 : env) (d : data)
  (st : cache) :
  data_id d = None -> generateMessageId e1 <> generateMessageId e2 ->
  let twice := fst (handleNewMessage w e2 d (fst (handleNewMessage w e1 d st))) in
  messages twice !! generateMessageId e1 = Some (message_of e1 d) /\
  messages twice !! generateMessageId e2 = Some (message_of e2 d).
Proof.
  intros Hid Hne twice. unfold twice. rewrite !handleNewMessage_cache.
  cbn [messages].
  assert (Hgen : forall e, id (message_of e d) = generateMessageId e).
  { intros e. unfold message_of. cbn [id]. now rewrite Hid. }
  rewrite !Hgen. split.
  - rewrite lookup_insert_ne by congruence. apply lookup_insert_eq.
  - apply lookup_insert_eq.
Qed.

End CacheTheory.

(** ** The cryptographic wrapper *)

Module CryptoTheory.
Import Crypto.

(** *** The small instance satisfies the laws *)

Lemma ascii_xor_swap (a b c : ascii) :
  ascii_xor a (ascii_xor b c) = ascii_xor b (ascii_xor a c).
Proof.
  destruct a as [a0 a1 a2 a3 a4 a5 a6 a7], b as [b0 b1 b2 b3 b4 b5 b6 b7],
    c as [c0 c1 c2 c3 c4 c5 c6 c7].
  cbn [ascii_xor].
  assert (H : forall x y z, xorb x (xorb y z) = xorb y (xorb x z))
    by (intros [] [] []; reflexivity).
  now rewrite (H a0), (H a1), (H a2), (H a3), (H a4), (H a5), (H a6), (H a7).
Qed.

Lemma xor_bytes_swap (a b g : Uint8Array) :
  xor_bytes a (xor_bytes b g) = xor_bytes b (xor_bytes a g).
Proof.
  revert b g. induction a as [| x a IH]; intros [| y b] [| z g];
    try reflexivity.
  cbn [xor_bytes]. now rewrite ascii_xor_swap, IH.
Qed.

Lemma xor_bytes_length (n p : Uint8Array) :
  length (xor_bytes n p) = Nat.min (length n) (length p).
Proof.
  revert p. induction n as [| x n IH]; intros [| y p]; try reflexivity.
  cbn [xor_bytes length]. now rewrite IH.
Qed.

Lemma pad32_length (s : Uint8Array) : length (pad32 s) = 32%nat.
Proof.
  unfold pad32. rewrite length_firstn, length_app, repeat_length. lia.
Qed.

Lemma small_unseal_seal (m n k : Uint8Array) :
  small_unseal (k ++ n ++ m) n k = Some m.
Proof.
  unfold small_unseal. rewrite <- length_app, app_assoc.
  rewrite firstn_app, Nat.sub_diag, firstn_all, firstn_0, app_nil_r.
  rewrite skipn_app, Nat.sub_diag, skipn_all, skipn_0.
  destruct (decide (k ++ n = k ++ n)); [reflexivity | contradiction].
Qed.

Lemma to_int_not_nil (n : Z) :
  Z.to_int n <> Decimal.Pos Decimal.Nil /\ Z.to_int n <> Decimal.Neg Decimal.Nil.
Proof.
  split; intros H; pose proof (of_to n) as Hn; rewrite H in Hn;
    cbn in Hn; subst n; discriminate H.
Qed.

Lemma small_JSON_parse_integer (n : Z) :
  small_JSON_parse (JS.Number_toString n) = Some (Codec.VNum n).
Proof.
  unfold small_JSON_parse, JS.Number_toString at 1.
  destruct (to_int_not_nil n) as [Hp Hn].
  rewrite (NilZero.isi _ Hp Hn), of_to.
  now rewrite String.eqb_refl.
Qed.

Lemma small_lawful : NaClLaws small.
Proof.
  split.
  - intros a b. apply xor_bytes_swap.
  - intros n Hn.
    change (length (xor_bytes n (repeat "009"%char 32)) = 32%nat).
    rewrite xor_bytes_length, repeat_length, Hn. reflexivity.
  - apply pad32_length.
  - intros m n k. apply small_unseal_seal.
  - intros b. cbn [decodeBase64 encodeBase64 small].
    now rewrite list_ascii_of_string_of_list_ascii.
  - intros s. cbn [decodeUTF8 encodeUTF8 small].
    now rewrite string_of_list_ascii_of_string.
  - intros n _. apply small_JSON_parse_integer.
Qed.


(** *** The wrapper over any primitives that satisfy the laws *)

Section Laws.
Context {L : NaCl} (laws : NaClLaws L).


(** [decrypt] returns a value only from a box that opened: the value is read
    from the text of the bytes [secretbox.open] returned. *)
Lemma decrypt_Ok (c privateKey : string) (publicKey : option string)
  (v : Codec.value) :
  decrypt c privateKey publicKey = Ok v ->
  exists combined key bytes text,
    decodeBase64 c = Some combined /\
    sharedSecret privateKey publicKey = Ok key /\
    unseal (skipn 24 combined) (firstn 24 combined) key = Some bytes /\
    encodeUTF8 bytes = Some text /\ v = read_text text.
Proof.
  unfold decrypt, util_decodeBase64.
  destruct (decodeBase64 c) as [combined |]; [| discriminate].
  cbn [bind]. destruct (sharedSecret privateKey publicKey) as [key | msg];
    [| discriminate].
  cbn [bind]. unfold secretbox_open.
  destruct (negb (length key =? 32)%nat); [discriminate |].
  destruct (negb (length (firstn 24 combined) =? 24)%nat); [discriminate |].
  cbn [bind].
  destruct (unseal (skipn 24 combined) (firstn 24 combined) key)
    as [bytes |] eqn:Hopen; [| discriminate].
  destruct (encodeUTF8 bytes) as [text |] eqn:Htext; [| discriminate].
  intros H. exists combined, key, bytes, text.
  repeat split; auto. unfold read_text.
  destruct (JSON_parse text); congruence.
Qed.


(** The shared secret of two keys is 32 bytes long. *)
Lemma createSharedSecret_length (privateKey publicKey : string)
  (key : Uint8Array) :
  createSharedSecret privateKey publicKey = Ok key -> length key = 32%nat.
Proof.
  unfold createSharedSecret, util_decodeBase64.
  destruct (decodeBase64 privateKey) as [sk |]; [| discriminate].
  destruct (decodeBase64 publicKey) as [pk |]; [| discriminate].
  cbn [bind]. unfold box_before.
  destruct (negb (length pk =? 32)%nat); [discriminate |].
  destruct (negb (length sk =? 32)%nat); [discriminate |].
  intros [= <-]. apply (hsalsa20_length L laws).
Qed.

(** C9.  For key pairs generated from two secrets of 32 bytes, the shared
    secret of the first private key and the second public key is returned,
    and it is the shared secret of the second private key and the first
    public key. *)
Theorem shared_secret_commutes (a b : Uint8Array) :
  length a = 32%nat -> length b = 32%nat ->
  let A := generateKeyPair a in
  let B := generateKeyPair b in
  exists secret,
    createSharedSecret (Runtime.privateKey A) (Runtime.publicKey B) = Ok secret /\
    createSharedSecret (Runtime.privateKey B) (Runtime.publicKey A) = Ok secret.
Proof.
  intros Ha Hb A B.
  exists (hsalsa20 (scalarMult a (scalarMult b basePoint))).
  unfold A, B, generateKeyPair, box_keyPair, createSharedSecret,
    util_decodeBase64.
  cbn [fst snd Runtime.privateKey Runtime.publicKey].
  rewrite !(decodeBase64_encodeBase64 L laws). cbn [bind]. unfold box_before.
  rewrite !(scalarMult_base_length L laws) by assumption.
  rewrite Ha, Hb. cbn [negb Nat.eqb].
  split; [reflexivity |]. now rewrite (scalarMult_comm L laws a b).
Qed.





End Laws.

(** The two directions of the key agreement on the small instance. *)
Lemma shared_secret_commutes_witness :
  exists secret,
    createSharedSecret (L := small)
      (Runtime.privateKey (generateKeyPair (L := small) secret_a))
      (Runtime.publicKey (generateKeyPair (L := small) secret_b)) = Ok secret /\
    createSharedSecret (L := small)
      (Runtime.privateKey (generateKeyPair (L := small) secret_b))
      (Runtime.publicKey (generateKeyPair (L := small) secret_a)) = Ok secret.
Proof.
  exact (shared_secret_commutes small_lawful secret_a secret_b eq_refl eq_refl).
Defined.



End CryptoTheory.

(** ** More on the binary codec *)

Module CodecLaws.
Import Codec.

Lemma Buffer_from_utf8_bytes (s : string) :
  Forall (fun b => 0 <= b < 256) (Buffer_from_utf8 s).
Proof.
  unfold Buffer_from_utf8. apply Forall_map, Forall_forall. intros c _.
  pose proof (N_ascii_bounded c). lia.
Qed.

(** The two shapes of the frame of a string: one byte below 148, the first
    index of the string in the token table, or a tag and length bytes
    followed by the UTF-8 bytes. *)
Lemma serializeString_shape (s : string) :
  (exists j : nat,
      (j < 148)%nat /\ nth_error WA_TOKENS j = Some s /\
      (forall k, (k < j)%nat -> nth_error WA_TOKENS k <> Some s) /\
      serializeString s = [Z.of_nat j]) \/
  ((forall j, nth_error WA_TOKENS j <> Some s) /\
   ((exists n, serializeString s = [WA_TAGS.BINARY_8; n] ++ Buffer_from_utf8 s) \/
    (exists b0 b1 b2,
        serializeString s =
        [WA_TAGS.BINARY_20; b0; b1; b2] ++ Buffer_from_utf8 s))).
Proof.
  unfold serializeString, JS.indexOf.
  destruct (JSFacts.indexOf_from_spec WA_TOKENS s 0)
    as [[Hidx Hnone] | [j [Hidx [Hj Hfirst]]]]; rewrite Hidx.
  - right. split; [exact Hnone |]. cbn [Z.leb Z.compare andb].
    destruct (Z.of_nat (length (Buffer_from_utf8 s)) <? 256).
    + left. eexists. unfold Buffer_from. cbn [map]. reflexivity.
    + right. unfold length20, Buffer_from. cbn [map app]. eauto.
  - left. assert (Hjlt : (j < 148)%nat).
    { change 148%nat with (length WA_TOKENS). apply nth_error_Some. congruence. }
    exists j. repeat split; auto.
    destruct (Z.leb_spec 0 (0 + Z.of_nat j)); [| lia].
    destruct (Z.ltb_spec (0 + Z.of_nat j) 236); [| lia].
    cbn [andb]. unfold Buffer_from. cbn [map].
    rewrite JSFacts.land_255, Z.mod_small by lia. reflexivity.
Qed.

(** X2.  The token table holds every non-empty string once: such a string
    is written as the byte of the index at which it stands, so looking the
    byte up in the table gives the string back. *)
Theorem token_byte_is_its_index (i : nat) (s : string) :
  nth_error WA_TOKENS i = Some s -> s <> EmptyString ->
  serializeString s = [Z.of_nat i] /\
  nth_error WA_TOKENS (Z.to_nat (hd 0 (serializeString s))) = Some s.
Proof.
  intros Hi Hs.
  assert (Hlt : (i < 148)%nat).
  { change 148%nat with (length WA_TOKENS). apply nth_error_Some. congruence. }
  assert (Hall : forallb
            (fun k => match nth_error WA_TOKENS k with
                      | Some t => String.eqb t EmptyString ||
                                  (JS.indexOf WA_TOKENS t =? Z.of_nat k)
                      | None => true
                      end) (seq 0 148) = true) by (vm_compute; reflexivity).
  rewrite forallb_forall in Hall. specialize (Hall i).
  rewrite Hi in Hall.
  assert (Hin : In i (seq 0 148)) by (apply in_seq; lia).
  specialize (Hall Hin). apply orb_prop in Hall as [He | Hidx].
  - apply String.eqb_eq in He. contradiction.
  - apply Z.eqb_eq in Hidx.
    assert (E : serializeString s = [Z.of_nat i]).
    { unfold serializeString. rewrite Hidx.
      destruct (Z.leb_spec 0 (Z.of_nat i)); [| lia].
      destruct (Z.ltb_spec (Z.of_nat i) 236); [| lia].
      cbn [andb]. unfold Buffer_from. cbn [map].
      rewrite JSFacts.land_255, Z.mod_small by lia. reflexivity. }
    split; [exact E |]. rewrite E. cbn [hd]. now rewrite Nat2Z.id.
Qed.

Lemma token_byte_is_its_index_witness :
  serializeString "admin" = [109] /\
  nth_error WA_TOKENS (Z.to_nat (hd 0 (serializeString "admin"))) = Some "admin".
Proof.
  apply (token_byte_is_its_index 109 "admin"); [reflexivity | discriminate].
Defined.

(** The three bytes of a length, and the number they spell. *)
Lemma length20_value (len : Z) :
  0 <= len ->
  exists b0 b1 b2,
    length20 len = [b0; b1; b2] /\
    0 <= b0 < 256 /\ 0 <= b1 < 256 /\ 0 <= b2 < 256 /\
    65536 * b0 + 256 * b1 + b2 = len mod 2 ^ 24.
Proof.
  intros H. exists ((len / 65536) mod 256), ((len / 256) mod 256), (len mod 256).
  split.
  - unfold length20, Buffer_from. cbn [map].
    rewrite (JSFacts.and_shr_byte len 16), (JSFacts.and_shr_byte len 8),
      JSFacts.and_255_byte by auto.
    now rewrite !JSFacts.land_255, !Z.mod_mod by lia.
  - change (2 ^ 24) with 16777216. repeat split;
      try apply Z.mod_pos_bound; try lia.
    Z.div_mod_to_equations. lia.
Qed.

(** X3.  A buffer of fewer than 256 bytes is written after [BINARY_8] and its
    length; a longer one after [BINARY_20] and three bytes that spell its
    length modulo 2^24, so the length of a buffer of 16 MiB or more is not
    recoverable from its frame.  The frame is the one [serializeString]
    gives a string with the same bytes that is no entry of the token table:
    the two are indistinguishable. *)
Theorem serializeBinary_policy (data : Buffer) :
  let len := Z.of_nat (length data) in
  (len < 256 -> serializeBinary data = [WA_TAGS.BINARY_8; len] ++ data) /\
  (256 <= len ->
   exists b0 b1 b2,
     serializeBinary data = [WA_TAGS.BINARY_20; b0; b1; b2] ++ data /\
     0 <= b0 < 256 /\ 0 <= b1 < 256 /\ 0 <= b2 < 256 /\
     65536 * b0 + 256 * b1 + b2 = len mod 2 ^ 24) /\
  (forall s,
      (forall j, nth_error WA_TOKENS j <> Some s) ->
      data = Buffer_from_utf8 s -> serializeBinary data = serializeString s).
Proof.
  intros len. assert (Hlen : 0 <= len) by (unfold len; lia).
  unfold serializeBinary. fold len. split; [| split].
  - intros Hl. destruct (Z.ltb_spec len 256); [| lia].
    unfold Buffer_from. cbn [map].
    rewrite !JSFacts.land_255, !Z.mod_small by (unfold WA_TAGS.BINARY_8; lia).
    reflexivity.
  - intros Hl. destruct (Z.ltb_spec len 256); [lia |].
    destruct (length20_value len Hlen) as [b0 [b1 [b2 [E Hb]]]].
    exists b0, b1, b2. split; [| exact Hb]. rewrite E. reflexivity.
  - intros s Hnone ->. unfold serializeString, JS.indexOf.
    destruct (JSFacts.indexOf_from_spec WA_TOKENS s 0)
      as [[Hidx _] | [j [_ [Hj _]]]]; [| now apply Hnone in Hj].
    rewrite Hidx. reflexivity.
Qed.

(** X4.  The empty list is the single byte [LIST_EMPTY]; a list of 1 to 255
    items is [LIST_8], the count, and the frames of the items in order; a
    longer list is [LIST_16], two bytes that spell the count modulo 65536,
    and the frames of the items. *)
Theorem serializeList_policy (l : list value) :
  let n := Z.of_nat (length l) in
  (l = [] -> serializeList l = [WA_TAGS.LIST_EMPTY]) /\
  (0 < n < 256 ->
   serializeList l = [WA_TAGS.LIST_8; n] ++ flat_map serializeItem l) /\
  (256 <= n ->
   serializeList l =
   [WA_TAGS.LIST_16; (n / 256) mod 256; n mod 256] ++ flat_map serializeItem l /\
   256 * ((n / 256) mod 256) + n mod 256 = n mod 65536).
Proof.
  intros n. unfold serializeList, serializeListWith, list_header. fold n.
  split; [| split].
  - intros ->. reflexivity.
  - intros Hn. destruct (Z.eqb_spec n 0); [lia |].
    destruct (Z.ltb_spec n 256); [| lia].
    unfold Buffer_from. cbn [map].
    rewrite !JSFacts.land_255, !Z.mod_small by (unfold WA_TAGS.LIST_8; lia).
    reflexivity.
  - intros Hn. destruct (Z.eqb_spec n 0); [lia |].
    destruct (Z.ltb_spec n 256); [lia |]. split.
    + unfold Buffer_from. cbn [map app].
      rewrite (JSFacts.and_shr_byte n 8), JSFacts.and_255_byte by (auto; lia).
      rewrite !JSFacts.land_255, !Z.mod_mod by lia. reflexivity.
    + Z.div_mod_to_equations. lia.
Qed.

(** X5.  No frame is empty, and a frame starts with a token index below 148
    or with one of the four tags [LIST_8], [LIST_16], [BINARY_8] and
    [BINARY_20]: the serializer never writes the stream, dictionary, JID,
    hex, nibble or [BINARY_32] tags at the head of a frame. *)
Theorem frame_head (v : value) :
  exists b rest,
    serializeItem v = b :: rest /\
    (0 <= b < 148 \/ b = WA_TAGS.LIST_8 \/ b = WA_TAGS.LIST_16 \/
     b = WA_TAGS.BINARY_8 \/ b = WA_TAGS.BINARY_20).
Proof.
  assert (Hstr : forall s, exists b rest,
             serializeString s = b :: rest /\
             (0 <= b < 148 \/ b = WA_TAGS.LIST_8 \/ b = WA_TAGS.LIST_16 \/
              b = WA_TAGS.BINARY_8 \/ b = WA_TAGS.BINARY_20)).
  { intros s.
    destruct (serializeString_shape s)
      as [[j [Hj [_ [_ E]]]] | [_ [[n E] | [b0 [b1 [b2 E]]]]]];
      rewrite E; cbn [app]; eexists; eexists; (split; [reflexivity |]);
      [left; lia | auto | auto 6]. }
  assert (Hhead : forall n, exists b rest,
             list_header n = b :: rest /\
             (b = WA_TAGS.LIST_8 \/ b = WA_TAGS.LIST_16)).
  { intros n. unfold list_header. destruct (n <? 256); cbn;
      eexists; eexists; (split; [reflexivity |]); auto. }
  destruct v as [| | s | b | n | d | l | es]; cbn [serializeItem].
  - exists 0, []. split; [reflexivity | left; lia].
  - exists 0, []. split; [reflexivity | left; lia].
  - apply Hstr.
  - apply Hstr.
  - apply Hstr.
  - unfold serializeBinary. destruct (Z.of_nat (length d) <? 256); cbn;
      eexists; eexists; (split; [reflexivity |]); auto 6.
  - unfold serializeListWith. destruct (Z.of_nat (length l) =? 0).
    + exists 0, []. split; [reflexivity | left; lia].
    + destruct (Hhead (Z.of_nat (length l))) as [b [rest [E H]]].
      rewrite E. exists b, (rest ++ flat_map serializeItem l).
      split; [reflexivity | intuition].
  - destruct (Z.of_nat (length es) =? 0).
    + exists 0, []. split; [reflexivity | left; lia].
    + destruct (Hhead (2 * Z.of_nat (length es))) as [b [rest [E H]]].
      rewrite E. eexists b, _. split; [reflexivity | intuition].
Qed.

End CodecLaws.

(** ** [WhatsAppCore]: the send queue, the dispatch and the cache operations *)

Module CoreLaws.
Import Codec Core.

Lemma drain_open (queue : list Buffer) :
  drain true queue = ([], map Send queue).
Proof.
  induction queue as [|m r IH]; cbn; [reflexivity|].
  rewrite IH. reflexivity.
Qed.

Lemma drain_closed (queue : list Buffer) : drain false queue = (queue, []).
Proof. destruct queue; reflexivity. Qed.

Lemma sent_app (a b : list effect) : sent (a ++ b) = sent a ++ sent b.
Proof. unfold sent. apply flat_map_app. Qed.

Lemma sent_Send (frames : list Buffer) : sent (map Send frames) = frames.
Proof.
  induction frames as [|f r IH]; cbn; [reflexivity|].
  unfold sent in IH. rewrite IH. reflexivity.
Qed.

Lemma sendAll_closed (frames : list Buffer) : forall w,
  socket_open w = false ->
  sendAll w frames =
    ({| ws := ws w; messageQueue := messageQueue w ++ frames |}, []).
Proof.
  induction frames as [|f r IH]; intros w Hw; cbn.
  - rewrite app_nil_r. destruct w; reflexivity.
  - unfold sendBinaryMessage. rewrite Hw.
    rewrite IH by (unfold socket_open in *; cbn; exact Hw).
    cbn. rewrite <- app_assoc. reflexivity.
Qed.

Lemma sendAll_open (frames : list Buffer) (w : link) :
  socket_open w = true -> sendAll w frames = (w, map Send frames).
Proof.
  intros Hw. induction frames as [|f r IH]; cbn; [reflexivity|].
  unfold sendBinaryMessage. rewrite Hw, IH. reflexivity.
Qed.

Lemma processMessageQueue_open (w : link) :
  socket_open w = true ->
  processMessageQueue w =
    ({| ws := ws w; messageQueue := [] |}, map Send (messageQueue w)).
Proof.
  intros Hw. unfold processMessageQueue. rewrite Hw, drain_open. reflexivity.
Qed.

Lemma processMessageQueue_closed (w : link) :
  socket_open w = false -> processMessageQueue w = (w, []).
Proof.
  intros Hw. unfold processMessageQueue. rewrite Hw, drain_closed.
  destruct w; reflexivity.
Qed.

Lemma requestInitialData_open (w : link) :
  socket_open w = true ->
  requestInitialData w =
    ({| ws := ws w; messageQueue := [] |},
     [Send chatsRequest; Send contactsRequest] ++ map Send (messageQueue w)).
Proof.
  intros Hw. unfold requestInitialData, sendBinaryMessage. rewrite Hw.
  cbv beta iota. rewrite Hw. cbv beta iota.
  rewrite processMessageQueue_open by exact Hw. reflexivity.
Qed.

Lemma requestInitialData_closed (w : link) :
  socket_open w = false ->
  requestInitialData w =
    ({| ws := ws w;
        messageQueue := messageQueue w ++ [chatsRequest; contactsRequest] |},
     []).
Proof.
  intros Hw. unfold requestInitialData, sendBinaryMessage. rewrite Hw.
  assert (Hw' : forall q, socket_open {| ws := ws w; messageQueue := q |} = false)
    by (intros q; exact Hw).
  cbv beta iota. rewrite Hw'. cbv beta iota.
  rewrite processMessageQueue_closed by apply Hw'.
  cbn [app messageQueue ws]. rewrite <- app_assoc. reflexivity.
Qed.

(** X6. Frames handed to [sendBinaryMessage] while the socket is closed
    wait in the queue in the order of the calls.  Once the socket is open,
    later frames are sent at once and so overtake the waiting ones, which
    leave only when [processMessageQueue] runs; no frame is lost or sent
    twice. *)
Theorem queued_frames_are_overtaken (w : link) (queued direct : list Buffer) :
  socket_open w = false ->
  let '(w1, e1) := sendAll w queued in
  let '(w2, e2) :=
    sendAll {| ws := Some true; messageQueue := messageQueue w1 |} direct in
  let '(w3, e3) := processMessageQueue w2 in
  e1 = [] /\
  messageQueue w1 = messageQueue w ++ queued /\
  sent e2 = direct /\
  sent (e2 ++ e3) = direct ++ messageQueue w ++ queued /\
  messageQueue w3 = [].
Proof.
  intros Hw. rewrite (sendAll_closed queued w Hw). cbn [messageQueue].
  rewrite sendAll_open by reflexivity.
  rewrite processMessageQueue_open by reflexivity. cbn [messageQueue].
  rewrite sent_app, !sent_Send. repeat split; reflexivity.
Qed.

Lemma queued_frames_are_overtaken_witness :
  socket_open {| ws := None; messageQueue := [[1]] |} = false /\
  let '(w1, e1) := sendAll {| ws := None; messageQueue := [[1]] |} [[2]; [3]] in
  let '(w2, e2) :=
    sendAll {| ws := Some true; messageQueue := messageQueue w1 |} [[4]] in
  let '(w3, e3) := processMessageQueue w2 in
  e1 = [] /\
  messageQueue w1 = [[1]] ++ [[2]; [3]] /\
  sent e2 = [[4]] /\
  sent (e2 ++ e3) = [[4]] ++ [[1]] ++ [[2]; [3]] /\
  messageQueue w3 = [].
Proof.
  split; [reflexivity|].
  apply (queued_frames_are_overtaken
           {| ws := None; messageQueue := [[1]] |} [[2]; [3]] [[4]]).
  reflexivity.
Defined.

(** X7. [handleAuthSuccess] is where the queue is emptied.  On an open
    socket it sends the chat query, the contact query and then everything
    that was waiting, in that order, and leaves the queue empty; on a closed
    socket it sends nothing and the two queries join the end of the queue.
    Either way the client is authenticated afterwards. *)
Theorem handleAuthSuccess_flushes_queue (d : auth_data) (st : core) :
  let '(st', effs) := handleAuthSuccess d st in
  isAuthenticated st' = true /\
  cache st' = cache st /\
  if socket_open (wire st)
  then sent effs = [chatsRequest; contactsRequest] ++ messageQueue (wire st) /\
       messageQueue (wire st') = []
  else sent effs = [] /\
       messageQueue (wire st') =
         messageQueue (wire st) ++ [chatsRequest; contactsRequest].
Proof.
  unfold handleAuthSuccess.
  destruct (socket_open (wire st)) eqn:Hw.
  - rewrite (requestInitialData_open _ Hw). cbn [isAuthenticated cache wire messageQueue].
    split; [reflexivity|]. split; [reflexivity|]. split; [|reflexivity].
    rewrite !sent_app.
    replace (sent (if autoSave st && _ then [SaveSession] else [])) with (@nil Buffer)
      by (destruct (autoSave st && _); reflexivity).
    replace (sent (match heartbeatInterval st with
                   | Some t => [ClearInterval t] | None => [] end))
      with (@nil Buffer) by (destruct (heartbeatInterval st); reflexivity).
    replace (sent (match QR.core_qrRefreshInterval (qr st) with
                   | Some t => [ClearInterval t] | None => [] end))
      with (@nil Buffer)
      by (destruct (QR.core_qrRefreshInterval (qr st)); reflexivity).
    cbn [app]. change (sent [SetInterval heartbeat]) with (@nil Buffer).
    change (sent [Emit "auth.success" _; Emit "ready" Nothing]) with (@nil Buffer).
    cbn [app]. rewrite app_nil_r.
    change (sent [Send chatsRequest; Send contactsRequest])
      with [chatsRequest; contactsRequest].
    rewrite sent_Send. reflexivity.
  - rewrite (requestInitialData_closed _ Hw). cbn [isAuthenticated cache wire messageQueue].
    split; [reflexivity|]. split; [reflexivity|]. split; [|reflexivity].
    rewrite !sent_app.
    replace (sent (if autoSave st && _ then [SaveSession] else [])) with (@nil Buffer)
      by (destruct (autoSave st && _); reflexivity).
    replace (sent (match heartbeatInterval st with
                   | Some t => [ClearInterval t] | None => [] end))
      with (@nil Buffer) by (destruct (heartbeatInterval st); reflexivity).
    replace (sent (match QR.core_qrRefreshInterval (qr st) with
                   | Some t => [ClearInterval t] | None => [] end))
      with (@nil Buffer)
      by (destruct (QR.core_qrRefreshInterval (qr st)); reflexivity).
    reflexivity.
Qed.

Lemma route_qr_response (ref : string) : route (qr_response ref) = QRResponse.
Proof. reflexivity. Qed.

Lemma route_auth_success : route auth_success = AuthSuccess.
Proof. reflexivity. Qed.

Lemma route_unknown (data : Buffer) : route (unknown data) = NoHandler.
Proof. reflexivity. Qed.

Lemma Forall_append {A} (P : A -> Prop) (a b : list A) :
  Forall P a -> Forall P b -> Forall P (a ++ b).
Proof. intros Ha Hb. apply List.Forall_app. split; assumption. Qed.

Lemma handleAuthSuccess_frame (d : auth_data) (st : core) :
  cache (fst (handleAuthSuccess d st)) = cache st /\
  contacts (fst (handleAuthSuccess d st)) = contacts st /\
  Forall (fun x => match x with OfCache _ => False | _ => True end)
         (snd (handleAuthSuccess d st)).
Proof.
  unfold handleAuthSuccess.
  destruct (requestInitialData (wire st)) as [w initial] eqn:Hr.
  cbn [fst snd cache contacts]. split; [reflexivity|]. split; [reflexivity|].
  assert (Hi : Forall (fun x => match x with OfCache _ => False | _ => True end)
                      initial).
  { destruct (socket_open (wire st)) eqn:Hw.
    - rewrite (requestInitialData_open _ Hw) in Hr. inversion Hr; subst.
      constructor; [exact I|]. constructor; [exact I|].
      apply List.Forall_forall. intros x Hx. apply in_map_iff in Hx.
      destruct Hx as [f [<- _]]. exact I.
    - rewrite (requestInitialData_closed _ Hw) in Hr. inversion Hr; subst.
      constructor. }
  repeat (apply Forall_append); try exact Hi.
  - destruct (autoSave st && _); repeat constructor.
  - destruct (heartbeatInterval st); repeat constructor.
  - repeat constructor.
  - repeat constructor.
  - destruct (QR.core_qrRefreshInterval (qr st)); repeat constructor.
Qed.

(** X8. Whatever bytes arrive on the socket, [handleIncomingMessage] calls
    [handleQRResponse], [handleAuthSuccess] or nothing: the parser never
    produces the types [message], [chat_update] or [presence], so no
    incoming frame changes the chats, the messages or the contacts. *)
Theorem incoming_frames_never_reach_the_cache (base64 : Buffer -> string)
  (e : Cache.env) (data : Buffer) (st : core) :
  (route (parseBinaryMessage data) = QRResponse \/
   route (parseBinaryMessage data) = AuthSuccess \/
   route (parseBinaryMessage data) = NoHandler) /\
  cache (fst (handleIncomingMessage base64 e data st)) = cache st /\
  contacts (fst (handleIncomingMessage base64 e data st)) = contacts st /\
  Forall (fun x => match x with OfCache _ => False | _ => True end)
         (snd (handleIncomingMessage base64 e data st)).
Proof.
  unfold handleIncomingMessage.
  destruct (CodecTheory.parseBinaryMessage_classes data)
    as [(ref & pre & post & Hp & _) | [(Hp & _) | (Hp & _)]]; rewrite Hp.
  - rewrite route_qr_response. split; [left; reflexivity|].
    destruct (QR.handleQRResponse _ _ _ _) as [q effs].
    cbn [fst snd]. split; [reflexivity|]. split; [reflexivity|].
    apply List.Forall_forall. intros x Hx. apply in_map_iff in Hx.
    destruct Hx as [f [<- _]]. exact I.
  - rewrite route_auth_success. split; [right; left; reflexivity|].
    apply handleAuthSuccess_frame.
  - rewrite route_unknown. split; [right; right; reflexivity|].
    cbn [fst snd]. repeat split. constructor.
Qed.

Lemma parseBinaryMessage_auth (data : Buffer) :
  JS.includes (toString_binary data) "success" = true \/
  JS.includes (toString_binary data) "connected" = true ->
  hd_error data <> Some WA_TAGS.LIST_8 ->
  parseBinaryMessage data = auth_success.
Proof.
  intros Hinc Hhd. unfold parseBinaryMessage.
  assert (Hq : match data with b :: _ => b =? WA_TAGS.LIST_8 | [] => false end
               = false).
  { destruct data as [|b r]; [reflexivity|].
    apply Z.eqb_neq. intros ->. apply Hhd. reflexivity. }
  rewrite Hq, andb_false_r.
  destruct Hinc as [-> | ->]; [reflexivity|].
  rewrite orb_true_r. reflexivity.
Qed.

(** X9. A frame that does not start with the LIST_8 byte and whose bytes
    contain [success] or [connected] anywhere authenticates the client:
    after [handleIncomingMessage] the client is authenticated as the fixed
    user [user@c.us] named [WhatsApp User], whatever its state was and
    whether or not credentials exist. *)
Theorem frame_with_success_authenticates (base64 : Buffer -> string)
  (e : Cache.env) (data : Buffer) (st : core) :
  JS.includes (toString_binary data) "success" = true \/
  JS.includes (toString_binary data) "connected" = true ->
  hd_error data <> Some WA_TAGS.LIST_8 ->
  isAuthenticated (fst (handleIncomingMessage base64 e data st)) = true /\
  user (fst (handleIncomingMessage base64 e data st)) =
    Some {| user_id := Some "user@c.us"; user_name := "WhatsApp User";
            phone := EmptyString; avatar := None; user_status := None;
            isOnline := true; lastSeen := None |}.
Proof.
  intros Hinc Hhd. unfold handleIncomingMessage.
  rewrite (parseBinaryMessage_auth data Hinc Hhd), route_auth_success.
  unfold handleAuthSuccess.
  destruct (requestInitialData (wire st)) as [w initial].
  cbn [fst isAuthenticated user]. split; reflexivity.
Qed.

Lemma frame_with_success_authenticates_witness :
  isAuthenticated
    (fst (handleIncomingMessage (fun _ => EmptyString) Cache.noon
            (Buffer_from_utf8 "login success") initial)) = true /\
  user (fst (handleIncomingMessage (fun _ => EmptyString) Cache.noon
               (Buffer_from_utf8 "login success") initial)) =
    Some {| user_id := Some "user@c.us"; user_name := "WhatsApp User";
            phone := EmptyString; avatar := None; user_status := None;
            isOnline := true; lastSeen := None |}.
Proof.
  apply (frame_with_success_authenticates (fun _ => EmptyString) Cache.noon
           (Buffer_from_utf8 "login success") initial).
  - left. vm_compute. reflexivity.
  - vm_compute. discriminate.
Defined.

End CoreLaws.

(** ** [WhatsAppCore]: updates of chats, contacts and messages *)

Module CoreCacheLaws.
Import Codec Core.

Lemma or_string_idem (a : option string) (b : string) :
  Cache.or_string a (Cache.or_string a b) = Cache.or_string a b.
Proof.
  unfold Cache.or_string. destruct a as [s|]; [|reflexivity].
  destruct (JS.truthy_string s); reflexivity.
Qed.

Lemma merge_chat_idem (d : chat_data) (c : Cache.WAChat) :
  merge_chat d (merge_chat d c) = merge_chat d c.
Proof.
  unfold merge_chat. cbn.
  f_equal.
  - destruct (cd_subject d) as [s|]; [destruct (JS.truthy_string s)|];
      try reflexivity; apply or_string_idem.
  - destruct (cd_participants d); reflexivity.
  - destruct (cd_admins d); reflexivity.
  - destruct (truthy_option (cd_description d)); reflexivity.
Qed.

(** X10. [handleChatUpdate] is idempotent, unlike [handleNewMessage]: the
    same update applied again, at any later time, leaves the client as the
    first application left it and emits the same event.  It touches no
    message, and a chat that was cached keeps its archived, pinned and muted
    flags, its unread count, its last message and its timestamp. *)
Theorem handleChatUpdate_idempotent (now now' : Z) (d : chat_data)
  (st st1 : core) (effs : list effect) :
  handleChatUpdate now d st = Some (st1, effs) ->
  handleChatUpdate now' d st1 = Some (st1, effs) /\
  Cache.messages (cache st1) = Cache.messages (cache st) /\
  forall k c, Cache.chats (cache st) !! k = Some c ->
    exists c', Cache.chats (cache st1) !! k = Some c' /\
      Cache.archived c' = Cache.archived c /\
      Cache.pinned c' = Cache.pinned c /\
      Cache.muted c' = Cache.muted c /\
      Cache.unreadCount c' = Cache.unreadCount c /\
      Cache.lastMessage c' = Cache.lastMessage c /\
      Cache.chat_timestamp c' = Cache.chat_timestamp c.
Proof.
  unfold handleChatUpdate.
  destruct (Cache.or_option (cd_id d) (cd_jid d)) as [chatId|]; [|discriminate].
  intros H. injection H as <- <-.
  cbn [cache set_chats set_cache Cache.chats Cache.messages].
  rewrite lookup_insert_eq, merge_chat_idem, insert_insert_eq.
  split; [reflexivity|]. split; [reflexivity|].
  intros k c Hk. destruct (decide (k = chatId)) as [->|Hne].
  - rewrite lookup_insert_eq, Hk. eexists. split; [reflexivity|].
    repeat split; reflexivity.
  - rewrite lookup_insert_ne by congruence. exists c.
    split; [exact Hk|]. repeat split; reflexivity.
Qed.

Lemma handleChatUpdate_idempotent_witness :
  exists st1 effs,
    handleChatUpdate 5 family_update one_chat_core = Some (st1, effs) /\
    handleChatUpdate 9 family_update st1 = Some (st1, effs).
Proof.
  eexists. eexists. split; [reflexivity|].
  apply (handleChatUpdate_idempotent 5 9 family_update one_chat_core).
  reflexivity.
Defined.

(** X11. [handlePresenceUpdate] is idempotent and local: applying the same
    presence event again changes nothing and emits the same event, the
    chats and messages are untouched, and only the contact stored under
    [data.from || data.id] changes.  That contact is online exactly when the
    event's type is [available]. *)
Theorem handlePresenceUpdate_idempotent (d : presence_data) (st : core) :
  let '(st1, effs) := handlePresenceUpdate d st in
  handlePresenceUpdate d st1 = (st1, effs) /\
  cache st1 = cache st /\
  (forall k, k <> Cache.or_option (pd_from d) (pd_id d) ->
             contacts st1 !! k = contacts st !! k) /\
  exists u, contacts st1 !! Cache.or_option (pd_from d) (pd_id d) = Some u /\
            (isOnline u = true <-> pd_type d = Some "available").
Proof.
  unfold handlePresenceUpdate.
  cbn [contacts set_contacts cache].
  rewrite lookup_insert_eq. cbn [user_id user_name phone avatar user_status
                                 isOnline lastSeen].
  rewrite insert_insert_eq.
  split; [|split; [reflexivity|split]].
  - destruct (truthy_number_option (pd_lastSeen d)); reflexivity.
  - intros k Hk. rewrite lookup_insert_ne by congruence. reflexivity.
  - eexists. split; [reflexivity|]. cbn [isOnline].
    destruct (pd_type d) as [t|]; [|split; discriminate].
    split.
    + intros H. apply String.eqb_eq in H. congruence.
    + intros H. injection H as ->. reflexivity.
Qed.

Lemma update_chat_cache (k : string) (f : Cache.WAChat -> Cache.WAChat)
  (st : core) :
  cache (fst (update_chat k f st)) =
    {| Cache.chats :=
         match Cache.chats (cache st) !! k with
         | Some c => <[k := f c]> (Cache.chats (cache st))
         | None => Cache.chats (cache st)
         end;
       Cache.messages := Cache.messages (cache st) |}.
Proof.
  unfold update_chat. destruct (Cache.chats (cache st) !! k); cbn.
  - reflexivity.
  - destruct (cache st); reflexivity.
Qed.

Lemma send_cache (frame : Buffer) (st : core) :
  cache (fst (send frame st)) = cache st.
Proof.
  unfold send. destruct (sendBinaryMessage (wire st) frame). reflexivity.
Qed.

Lemma update_chat_cache_eq (k : string) (f : Cache.WAChat -> Cache.WAChat)
  (s s' : core) :
  cache s = cache s' ->
  cache (fst (update_chat k f s)) = cache (fst (update_chat k f s')).
Proof. intros H. rewrite !update_chat_cache, H. reflexivity. Qed.

Lemma send_then_update_chat (frame : Buffer) (k : string)
  (f : Cache.WAChat -> Cache.WAChat) (st : core) :
  cache (fst (let '(st1, e1) := send frame st in
              let '(st2, e2) := update_chat k f st1 in (st2, e1 ++ e2))) =
  cache (fst (update_chat k f st)).
Proof.
  pose proof (send_cache frame st) as Hs.
  destruct (send frame st) as [st1 e1]. cbn [fst] in Hs.
  rewrite <- (update_chat_cache_eq k f st1 st Hs).
  destruct (update_chat k f st1). reflexivity.
Qed.

Lemma archiveChat_cache (k : string) (b : bool) (st : core) :
  cache (fst (archiveChat k b st)) =
    cache (fst (update_chat k (with_archived b) st)).
Proof. apply send_then_update_chat. Qed.

Lemma pinChat_cache (k : string) (b : bool) (st : core) :
  cache (fst (pinChat k b st)) = cache (fst (update_chat k (with_pinned b) st)).
Proof. apply send_then_update_chat. Qed.

Lemma muteChat_cache (k : string) (b : bool) (duration : option Z) (st : core) :
  cache (fst (muteChat k b duration st)) =
    cache (fst (update_chat k (with_muted b) st)).
Proof. apply send_then_update_chat. Qed.

(** Two updates of single chats commute on the cache when the functions
    applied commute. *)
Lemma update_chat_commute (x y : string) (f g : Cache.WAChat -> Cache.WAChat)
  (st : core) :
  (forall c, f (g c) = g (f c)) ->
  cache (fst (update_chat x f (fst (update_chat y g st)))) =
  cache (fst (update_chat y g (fst (update_chat x f st)))).
Proof.
  intros Hfg. rewrite !update_chat_cache.
  cbn [Cache.chats Cache.messages]. f_equal.
  destruct (decide (x = y)) as [->|Hne].
  - destruct (Cache.chats (cache st) !! y) as [c|] eqn:Hy.
    + rewrite !lookup_insert_eq, !insert_insert_eq, Hfg. reflexivity.
    + rewrite Hy. reflexivity.
  - destruct (Cache.chats (cache st) !! y) as [cy|] eqn:Hy;
      destruct (Cache.chats (cache st) !! x) as [cx|] eqn:Hx;
      rewrite ?lookup_insert_ne by congruence; rewrite ?Hx, ?Hy;
      try reflexivity.
    apply insert_insert_ne. congruence.
Qed.

(** X12. [archiveChat], [pinChat] and [muteChat] commute on the cache: for
    any two chat ids, equal or not, cached or not, calling two of them in
    either order leaves the same chats and messages.  None of them asks for
    an authenticated client. *)
Theorem chat_flag_updates_commute (x y : string) (a p m : bool)
  (duration : option Z) (st : core) :
  cache (fst (archiveChat x a (fst (pinChat y p st)))) =
    cache (fst (pinChat y p (fst (archiveChat x a st)))) /\
  cache (fst (archiveChat x a (fst (muteChat y m duration st)))) =
    cache (fst (muteChat y m duration (fst (archiveChat x a st)))) /\
  cache (fst (pinChat x p (fst (muteChat y m duration st)))) =
    cache (fst (muteChat y m duration (fst (pinChat x p st)))).
Proof.
  repeat split.
  - rewrite archiveChat_cache, pinChat_cache.
    rewrite (update_chat_cache_eq x _ _ _ (pinChat_cache y p st)).
    rewrite (update_chat_cache_eq y _ _ _ (archiveChat_cache x a st)).
    apply update_chat_commute. reflexivity.
  - rewrite archiveChat_cache, muteChat_cache.
    rewrite (update_chat_cache_eq x _ _ _ (muteChat_cache y m duration st)).
    rewrite (update_chat_cache_eq y _ _ _ (archiveChat_cache x a st)).
    apply update_chat_commute. reflexivity.
  - rewrite pinChat_cache, muteChat_cache.
    rewrite (update_chat_cache_eq x _ _ _ (muteChat_cache y m duration st)).
    rewrite (update_chat_cache_eq y _ _ _ (pinChat_cache x p st)).
    apply update_chat_commute. reflexivity.
Qed.

Lemma sendMessage_authenticated (e : Cache.env) (chatId text : string)
  (st : core) (u : WAUser) :
  isAuthenticated st = true -> user st = Some u ->
  sendMessage e chatId text st =
    (Runtime.Fulfilled,
     let st1 := fst (send (serializeMessage (outgoing e chatId text u)) st) in
     let st2 :=
       set_messages (<[Cache.generateMessageId e := outgoing e chatId text u]>
                       (Cache.messages (cache st1))) st1 in
     match Cache.chats (cache st2) !! chatId with
     | Some c =>
         set_chats (<[chatId := with_last (outgoing e chatId text u) c]>
                      (Cache.chats (cache st2))) st2
     | None => st2
     end,
     snd (send (serializeMessage (outgoing e chatId text u)) st) ++
     [Emit "message.sent" (Message (outgoing e chatId text u))]).
Proof.
  intros Ha Hu. unfold sendMessage. rewrite Ha, Hu. cbn [negb].
  destruct (send (serializeMessage (outgoing e chatId text u)) st) as [st1 e1].
  reflexivity.
Qed.

(** X13. Deleting a message does not remove it from its chat.  After
    [sendMessage] to a cached chat and [deleteMessage] of the id just
    sent, the message map no longer has the id, but the chat still carries
    the message as its last message, with its unread count unchanged. *)
Theorem deleted_message_stays_last_message (e : Cache.env)
  (chatId text : string) (forEveryone : bool) (st : core) (u : WAUser)
  (c : Cache.WAChat) :
  isAuthenticated st = true -> user st = Some u ->
  Cache.chats (cache st) !! chatId = Some c ->
  let '(out, st1, _) := sendMessage e chatId text st in
  let '(st2, _) := deleteMessage (Cache.generateMessageId e) forEveryone st1 in
  out = Runtime.Fulfilled /\
  Cache.messages (cache st1) !! Cache.generateMessageId e =
    Some (outgoing e chatId text u) /\
  Cache.messages (cache st2) !! Cache.generateMessageId e = None /\
  exists c', Cache.chats (cache st2) !! chatId = Some c' /\
    Cache.lastMessage c' = Some (outgoing e chatId text u) /\
    Cache.unreadCount c' = Cache.unreadCount c.
Proof.
  intros Ha Hu Hc. rewrite (sendMessage_authenticated e chatId text st u Ha Hu).
  cbv zeta.
  pose proof (send_cache (serializeMessage (outgoing e chatId text u)) st) as Hs.
  destruct (send (serializeMessage (outgoing e chatId text u)) st) as [st1 e1].
  cbn [fst snd] in *.
  cbn [cache set_messages set_cache Cache.chats Cache.messages].
  rewrite Hs, Hc.
  unfold deleteMessage.
  match goal with |- context [send ?f ?s] =>
    pose proof (send_cache f s) as Hs2; destruct (send f s) as [st2 e2] end.
  cbn [fst] in Hs2.
  cbn [cache set_messages set_chats set_cache Cache.chats Cache.messages] in *.
  rewrite Hs2. cbn [Cache.chats Cache.messages].
  split; [reflexivity|]. split; [apply lookup_insert_eq|].
  split; [apply lookup_delete_eq|].
  eexists. split; [apply lookup_insert_eq|]. split; reflexivity.
Qed.

Lemma deleted_message_stays_last_message_witness :
  let '(out, st1, _) :=
    sendMessage Cache.noon "1234567890@s.whatsapp.net" "hi" signed_in in
  let '(st2, _) := deleteMessage (Cache.generateMessageId Cache.noon) true st1 in
  out = Runtime.Fulfilled /\
  Cache.messages (cache st1) !! Cache.generateMessageId Cache.noon =
    Some (outgoing Cache.noon "1234567890@s.whatsapp.net" "hi" ana) /\
  Cache.messages (cache st2) !! Cache.generateMessageId Cache.noon = None /\
  exists c', Cache.chats (cache st2) !! "1234567890@s.whatsapp.net" = Some c' /\
    Cache.lastMessage c' =
      Some (outgoing Cache.noon "1234567890@s.whatsapp.net" "hi" ana) /\
    Cache.unreadCount c' = Cache.unreadCount Cache.one_chat.
Proof.
  apply (deleted_message_stays_last_message Cache.noon
           "1234567890@s.whatsapp.net" "hi" true signed_in ana Cache.one_chat);
    reflexivity.
Defined.

(** X14. [sendMessage] reports a message as sent even when nothing went on
    the socket: with the client authenticated and the socket not open, the
    call fulfils and emits [message.sent], the message is stored with
    status [pending], and its frame only joins the end of the queue. *)
Theorem sendMessage_offline_is_queued (e : Cache.env) (chatId text : string)
  (st : core) (u : WAUser) :
  isAuthenticated st = true -> user st = Some u ->
  socket_open (wire st) = false ->
  let '(out, st1, effs) := sendMessage e chatId text st in
  out = Runtime.Fulfilled /\
  effs = [Emit "message.sent" (Message (outgoing e chatId text u))] /\
  sent effs = [] /\
  messageQueue (wire st1) =
    messageQueue (wire st) ++ [serializeMessage (outgoing e chatId text u)] /\
  Cache.messages (cache st1) !! Cache.generateMessageId e =
    Some (outgoing e chatId text u).
Proof.
  intros Ha Hu Hw. rewrite (sendMessage_authenticated e chatId text st u Ha Hu).
  cbv zeta. unfold send, sendBinaryMessage. rewrite Hw.
  cbn [fst snd app cache wire set_wire set_messages set_cache
       Cache.chats Cache.messages messageQueue].
  split; [reflexivity|]. split; [reflexivity|]. split; [reflexivity|].
  destruct (Cache.chats (cache st) !! chatId);
    cbn [cache wire set_chats set_cache Cache.messages messageQueue];
    (split; [reflexivity | apply lookup_insert_eq]).
Qed.

Lemma sendMessage_offline_is_queued_witness :
  let '(out, st1, effs) :=
    sendMessage Cache.noon "1234567890@s.whatsapp.net" "hi" signed_in in
  out = Runtime.Fulfilled /\
  effs = [Emit "message.sent"
            (Message (outgoing Cache.noon "1234567890@s.whatsapp.net" "hi" ana))] /\
  sent effs = [] /\
  messageQueue (wire st1) =
    messageQueue (wire signed_in) ++
    [serializeMessage (outgoing Cache.noon "1234567890@s.whatsapp.net" "hi" ana)] /\
  Cache.messages (cache st1) !! Cache.generateMessageId Cache.noon =
    Some (outgoing Cache.noon "1234567890@s.whatsapp.net" "hi" ana).
Proof.
  apply (sendMessage_offline_is_queued Cache.noon "1234567890@s.whatsapp.net"
           "hi" signed_in ana); reflexivity.
Defined.

(** X15. [disconnect] drops the two flags, the timers and the socket but
    keeps the chats, the messages, the contacts, the user and the frames
    still waiting in the queue; [sendMessage] is rejected afterwards, and a
    second [disconnect] changes nothing and only emits [disconnected]. *)
Theorem disconnect_keeps_data (e : Cache.env) (chatId text : string)
  (st : core) :
  let '(st1, _) := disconnect st in
  cache st1 = cache st /\ contacts st1 = contacts st /\ user st1 = user st /\
  messageQueue (wire st1) = messageQueue (wire st) /\
  sendMessage e chatId text st1 =
    (Runtime.Rejected not_authenticated, st1, []) /\
  disconnect st1 = (st1, [Emit "disconnected" Nothing]).
Proof.
  unfold disconnect. cbn. repeat split; reflexivity.
Qed.

End CoreCacheLaws.

(** ** The helpers: phone numbers and JIDs *)

Module HelpersLaws.
Import Helpers.

Lemma append_cons (c : ascii) (a b : string) :
  String c a +:+ b = String c (a +:+ b).
Proof. reflexivity. Qed.

Lemma append_nil (b : string) : EmptyString +:+ b = b.
Proof. reflexivity. Qed.

Lemma digits_only_all_digits (s : string) :
  Pairing.all_digits (Pairing.digits_only s) = true.
Proof.
  induction s as [|c r IH]; [reflexivity|]. cbn [Pairing.digits_only].
  destruct (Pairing.digit c) eqn:Hc; [|exact IH].
  cbn [Pairing.all_digits]. rewrite Hc, IH. reflexivity.
Qed.

Lemma digits_only_id (s : string) :
  Pairing.all_digits s = true -> Pairing.digits_only s = s.
Proof.
  induction s as [|c r IH]; [reflexivity|]. cbn [Pairing.all_digits].
  intros H. apply andb_true_iff in H. destruct H as [Hc Hr].
  cbn [Pairing.digits_only]. rewrite Hc, IH by exact Hr. reflexivity.
Qed.

Lemma without_leading_zeros_all_digits (s : string) :
  Pairing.all_digits s = true ->
  Pairing.all_digits (without_leading_zeros s) = true.
Proof.
  induction s as [|c r IH]; [reflexivity|]. intros H.
  pose proof H as H'. cbn [Pairing.all_digits] in H'.
  apply andb_true_iff in H'. destruct H' as [_ Hr].
  cbn [without_leading_zeros].
  destruct c as [[] [] [] [] [] [] [] []]; try exact H. apply IH, Hr.
Qed.

Lemma without_leading_zeros_idem (s : string) :
  without_leading_zeros (without_leading_zeros s) = without_leading_zeros s.
Proof.
  induction s as [|c r IH]; [reflexivity|]. cbn [without_leading_zeros].
  destruct c as [[] [] [] [] [] [] [] []]; try reflexivity. exact IH.
Qed.

Lemma without_leading_zeros_head (s : string) :
  match without_leading_zeros s with
  | String c _ => c <> "0"%char
  | EmptyString => True
  end.
Proof.
  induction s as [|c r IH]; [exact I|]. cbn [without_leading_zeros].
  destruct c as [[] [] [] [] [] [] [] []]; try discriminate. exact IH.
Qed.

Lemma formatPhoneNumber_all_digits (p : string) :
  Pairing.all_digits (formatPhoneNumber p) = true.
Proof.
  apply without_leading_zeros_all_digits, digits_only_all_digits.
Qed.

(** A run of digits followed by a character that is no digit. *)
Lemma digit_run_append (ds : string) (c : ascii) (rest : string) :
  Pairing.all_digits ds = true -> Pairing.digit c = false ->
  digit_run (ds +:+ String c rest) = ds /\
  after_digits (ds +:+ String c rest) = String c rest.
Proof.
  intros Hds Hc. induction ds as [|d r IH].
  - rewrite append_nil. cbn [digit_run after_digits]. rewrite Hc. split; reflexivity.
  - cbn [Pairing.all_digits] in Hds. apply andb_true_iff in Hds.
    destruct Hds as [Hd Hr]. rewrite append_cons.
    cbn [digit_run after_digits]. rewrite Hd.
    destruct (IH Hr) as [-> ->]. split; reflexivity.
Qed.

Lemma digit_run_after_digits (s : string) :
  s = digit_run s +:+ after_digits s /\
  Pairing.all_digits (digit_run s) = true.
Proof.
  induction s as [|c r [IH1 IH2]]; [split; reflexivity|].
  cbn [digit_run after_digits]. destruct (Pairing.digit c) eqn:Hc.
  - rewrite append_cons, <- IH1. cbn [Pairing.all_digits]. rewrite Hc, IH2.
    split; reflexivity.
  - rewrite append_nil. split; reflexivity.
Qed.

(** X16. [formatPhoneNumber] returns digits only, with no leading zero, and
    formatting a formatted number changes nothing. *)
Theorem formatPhoneNumber_normal_form (p : string) :
  Pairing.all_digits (formatPhoneNumber p) = true /\
  match formatPhoneNumber p with
  | String c _ => c <> "0"%char
  | EmptyString => True
  end /\
  formatPhoneNumber (formatPhoneNumber p) = formatPhoneNumber p.
Proof.
  split; [apply formatPhoneNumber_all_digits|]. split.
  - apply without_leading_zeros_head.
  - unfold formatPhoneNumber at 1.
    rewrite digits_only_id by apply formatPhoneNumber_all_digits.
    apply without_leading_zeros_idem.
Qed.

(** The JID built from a run of digits. *)
Lemma extractPhoneNumber_of_digits (ds : string) :
  Pairing.all_digits ds = true ->
  extractPhoneNumber (ds +:+ "@s.whatsapp.net") = ds.
Proof.
  intros Hd. unfold extractPhoneNumber.
  destruct (digit_run_append ds "@" "s.whatsapp.net" Hd eq_refl)
    as [Hrun Hafter].
  rewrite Hrun, Hafter. destruct ds; reflexivity.
Qed.

Lemma validateJid_of_digits (ds : string) :
  Pairing.all_digits ds = true ->
  validateJid (ds +:+ "@s.whatsapp.net") = true <->
  (10 <= String.length ds <= 15)%nat.
Proof.
  intros Hd. unfold validateJid, regularPattern, groupPattern.
  destruct (digit_run_append ds "@" "s.whatsapp.net" Hd eq_refl)
    as [Hrun Hafter].
  rewrite Hrun, Hafter.
  assert (Ht : JS.truthy_string (ds +:+ "@s.whatsapp.net") = true)
    by (destruct ds; reflexivity).
  rewrite Ht. cbn [negb].
  change (String.eqb "@s.whatsapp.net" "@s.whatsapp.net") with true.
  rewrite andb_true_r, andb_false_r, orb_false_r, andb_true_iff.
  rewrite Nat.leb_le, Nat.leb_le. reflexivity.
Qed.

(** X17. [extractPhoneNumber] undoes [phoneNumberToJid] up to formatting:
    the number read back from the JID of any string is the formatted
    number, the empty string included. *)
Theorem extractPhoneNumber_phoneNumberToJid (p : string) :
  extractPhoneNumber (phoneNumberToJid p) = formatPhoneNumber p.
Proof.
  apply extractPhoneNumber_of_digits, formatPhoneNumber_all_digits.
Qed.

(** X18. [phoneNumberToJid] does not check its result: the JID it returns
    passes [validateJid] exactly when the formatted number has ten to
    fifteen digits. *)
Theorem validateJid_phoneNumberToJid (p : string) :
  validateJid (phoneNumberToJid p) = true <->
  (10 <= String.length (formatPhoneNumber p) <= 15)%nat.
Proof.
  apply validateJid_of_digits, formatPhoneNumber_all_digits.
Qed.

(** X19. What [validateJid] accepts, and what [extractPhoneNumber] makes of
    it.  A valid JID is ten to fifteen digits followed either by
    [@s.whatsapp.net], and then [extractPhoneNumber] returns those digits, or
    by a hyphen, more digits and [@g.us], and then [extractPhoneNumber]
    returns the empty string. *)
Theorem validateJid_shape (jid : string) :
  validateJid jid = true ->
  exists ds, Pairing.all_digits ds = true /\
    (10 <= String.length ds <= 15)%nat /\
    ((jid = ds +:+ "@s.whatsapp.net" /\ extractPhoneNumber jid = ds) \/
     (exists gs, Pairing.all_digits gs = true /\ (1 <= String.length gs)%nat /\
                 jid = ds +:+ "-" +:+ gs +:+ "@g.us" /\
                 extractPhoneNumber jid = EmptyString)).
Proof.
  unfold validateJid, extractPhoneNumber.
  destruct (JS.truthy_string jid); cbn [negb]; [|discriminate].
  destruct (digit_run_after_digits jid) as [Hsplit Hall].
  intros H. apply orb_true_iff in H. exists (digit_run jid).
  split; [exact Hall|].
  destruct H as [H | H].
  - unfold regularPattern in H. apply andb_true_iff in H. destruct H as [H Heq].
    apply andb_true_iff in H. destruct H as [Hlo Hhi].
    apply Nat.leb_le in Hlo. apply Nat.leb_le in Hhi.
    apply String.eqb_eq in Heq. split; [lia|]. left.
    rewrite Heq in *. split; [exact Hsplit|].
    replace (1 <=? String.length (digit_run jid))%nat with true
      by (symmetry; apply Nat.leb_le; lia).
    reflexivity.
  - unfold groupPattern in H. apply andb_true_iff in H. destruct H as [H Hg].
    apply andb_true_iff in H. destruct H as [Hlo Hhi].
    apply Nat.leb_le in Hlo. apply Nat.leb_le in Hhi. split; [lia|]. right.
    destruct (after_digits jid) as [|c r] eqn:Ha; [discriminate|].
    destruct (Ascii.eqb_spec c "-") as [->|Hne].
    + apply andb_true_iff in Hg. destruct Hg as [Hlen Heq].
      apply Nat.leb_le in Hlen. apply String.eqb_eq in Heq.
      destruct (digit_run_after_digits r) as [Hr Hrall].
      exists (digit_run r). split; [exact Hrall|]. split; [exact Hlen|].
      split.
      * rewrite Heq in Hr. rewrite Hsplit at 1. rewrite append_cons, append_nil.
        rewrite Hr at 1. reflexivity.
      * rewrite andb_false_r. reflexivity.
    + exfalso. destruct c as [[] [] [] [] [] [] [] []]; try discriminate Hg.
      apply Hne. reflexivity.
Qed.

Lemma validateJid_shape_witness :
  exists ds, Pairing.all_digits ds = true /\
    (10 <= String.length ds <= 15)%nat /\
    (("40712345678-1600000000@g.us" = ds +:+ "@s.whatsapp.net" /\
      extractPhoneNumber "40712345678-1600000000@g.us" = ds) \/
     (exists gs, Pairing.all_digits gs = true /\ (1 <= String.length gs)%nat /\
                 "40712345678-1600000000@g.us" = ds +:+ "-" +:+ gs +:+ "@g.us" /\
                 extractPhoneNumber "40712345678-1600000000@g.us" = EmptyString)).
Proof.
  apply (validateJid_shape "40712345678-1600000000@g.us"). reflexivity.
Defined.

Lemma all_digits_length_without_zeros (s : string) (c : ascii) :
  c <> "0"%char -> without_leading_zeros (String c s) = String c s.
Proof.
  intros Hc. cbn [without_leading_zeros].
  destruct c as [[] [] [] [] [] [] [] []]; try reflexivity.
  exfalso. apply Hc. reflexivity.
Qed.

(** X20. A phone number that [PairingCodeAuthenticator.requestPairingCode]
    accepts and whose first digit is not zero converts to a valid JID, and
    [extractPhoneNumber] reads back from that JID the number the
    authenticator stored. *)
Theorem accepted_phone_gives_valid_jid (st : Pairing.state) (phone : string)
  (st' : Pairing.state) (effs : list Runtime.effect) :
  Pairing.requestPairingCode st phone = (Runtime.Fulfilled, st', effs) ->
  (forall r, Pairing.digits_only phone <> String "0"%char r) ->
  validateJid (phoneNumberToJid phone) = true /\
  Pairing.phoneNumber st' = Some (extractPhoneNumber (phoneNumberToJid phone)).
Proof.
  intros Hreq Hz.
  unfold Pairing.requestPairingCode in Hreq.
  destruct (negb (JS.truthy_string phone) ||
            negb (Pairing.matches_phone_pattern phone)) eqn:Hv;
    [discriminate|].
  apply orb_false_iff in Hv. destruct Hv as [_ Hm].
  apply negb_false_iff in Hm.
  assert (Hst : Pairing.phoneNumber st' = Some (Pairing.digits_only phone)).
  { unfold Pairing.clearTimers in Hreq. cbn in Hreq.
    destruct (Pairing.pairingTimer st); injection Hreq as <- _; reflexivity. }
  assert (Hlen : (10 <= String.length (Pairing.digits_only phone) <= 15)%nat).
  { unfold Pairing.matches_phone_pattern in Hm.
    apply andb_true_iff in Hm. destruct Hm as [Hm Hhi].
    apply andb_true_iff in Hm. destruct Hm as [Hall Hlo].
    apply Nat.leb_le in Hlo. apply Nat.leb_le in Hhi.
    destruct phone as [|c r]; [cbn in Hlo; lia|].
    destruct (Ascii.eqb_spec c "+") as [->|Hne].
    - cbn [Pairing.digits_only].
      change (Pairing.digit "+") with false. cbn iota.
      rewrite digits_only_id by exact Hall. lia.
    - assert (Hrest : match String c r with
                      | String "+"%char r0 => r0
                      | _ => String c r
                      end = String c r).
      { destruct c as [[] [] [] [] [] [] [] []]; try reflexivity.
        exfalso. apply Hne. reflexivity. }
      rewrite Hrest in *. rewrite digits_only_id by exact Hall. lia. }
  assert (Hf : formatPhoneNumber phone = Pairing.digits_only phone).
  { unfold formatPhoneNumber.
    destruct (Pairing.digits_only phone) as [|c r] eqn:Hd; [reflexivity|].
    apply all_digits_length_without_zeros. intros ->. apply (Hz r).
    reflexivity. }
  pose proof (formatPhoneNumber_all_digits phone) as Hd.
  unfold phoneNumberToJid. split.
  - apply (validateJid_of_digits _ Hd). rewrite Hf. exact Hlen.
  - rewrite (extractPhoneNumber_of_digits _ Hd), Hf. exact Hst.
Qed.

Lemma accepted_phone_gives_valid_jid_witness :
  validateJid (phoneNumberToJid "+40712345678") = true /\
  Pairing.phoneNumber
    (snd (fst (Pairing.requestPairingCode Pairing.fresh_authenticator
                 "+40712345678"))) =
    Some (extractPhoneNumber (phoneNumberToJid "+40712345678")).
Proof.
  apply (accepted_phone_gives_valid_jid Pairing.fresh_authenticator
           "+40712345678" _ _ eq_refl).
  intros r. vm_compute. discriminate.
Defined.

End HelpersLaws.

(** ** The authenticators' life cycle and [WhatsAppClient] *)

Module ClientLaws.
Import Client.

Lemma ClientState_eqb_eq (a b : ClientState) :
  ClientState_eqb a b = true <-> a = b.
Proof. destruct a, b; cbn; split; intros H; try reflexivity; discriminate. Qed.

Lemma ClientState_eqb_refl (a : ClientState) : ClientState_eqb a a = true.
Proof. destruct a; reflexivity. Qed.

Lemma forward_app (a b : list Runtime.effect) :
  forward (a ++ b) = forward a ++ forward b.
Proof. unfold forward. apply flat_map_app. Qed.

Lemma follow_app (a b : list effect) : forall s,
  follow s (a ++ b) =
    match follow s a with Some s' => follow s' b | None => None end.
Proof.
  induction a as [|e r IH]; intros s; [reflexivity|].
  destruct e as [x y | e | ev p]; cbn [app follow].
  - destruct (ClientState_eqb x s && negb (ClientState_eqb x y));
      [apply IH | reflexivity].
  - apply IH.
  - apply IH.
Qed.

Lemma follow_forward (effs : list Runtime.effect) (s : ClientState) :
  follow s (forward effs) = Some s.
Proof.
  induction effs as [|e r IH]; [reflexivity|].
  unfold forward in *. cbn [flat_map]. rewrite follow_app.
  destruct e; cbn [follow]; exact IH.
Qed.

Lemma follow_setState (s : ClientState) (c : client) :
  follow (state c) (snd (_setState s c)) = Some s /\
  state (fst (_setState s c)) = s /\
  qrAuth (fst (_setState s c)) = qrAuth c /\
  pairingAuth (fst (_setState s c)) = pairingAuth c.
Proof.
  unfold _setState. cbn [fst snd state qrAuth pairingAuth].
  destruct (ClientState_eqb (state c) s) eqn:He.
  - apply ClientState_eqb_eq in He. rewrite He. repeat split; reflexivity.
  - cbn [follow]. rewrite ClientState_eqb_refl, He. repeat split; reflexivity.
Qed.

Lemma follow_emit (s : ClientState) (ev : string) (p : Codec.value) :
  follow s [Emit ev p] = Some s.
Proof. reflexivity. Qed.

(** One step: the state it leaves, and what a listener reads from it. *)
Lemma step_state (c : client) (k : call) :
  follow (state c) (snd (step c k)) = Some (state (fst (step c k))) /\
  state (fst (step c k)) =
    match k with
    | Initialize _ => AUTHENTICATING
    | Logout => DISCONNECTED
    | _ => state c
    end.
Proof.
  destruct k as [ref | phone | | | |]; cbn [step].
  - unfold initialize. cbn [_loadSession].
    destruct (follow_setState CONNECTING c) as (F1 & S1 & _).
    destruct (_setState CONNECTING c) as [c1 e1]. cbn [fst snd] in *.
    destruct (follow_setState AUTHENTICATING c1) as (F2 & S2 & _).
    destruct (_setState AUTHENTICATING c1) as [c2 e2]. cbn [fst snd] in *.
    destruct (QR.generateQR (qrAuth c2) ref) as [[d q] e3].
    cbn [fst snd state]. rewrite follow_app, F1, follow_app, <- S1, F2.
    rewrite follow_forward, S2. split; reflexivity.
  - unfold requestPairingCode.
    destruct (negb (ClientState_eqb (state c) AUTHENTICATING)).
    + split; reflexivity.
    + destruct (Pairing.requestPairingCode (pairingAuth c) phone)
        as [[out p] effs].
      destruct out; cbn [fst snd state].
      * rewrite follow_forward. split; reflexivity.
      * rewrite follow_app, follow_forward. split; reflexivity.
  - unfold logout.
    destruct (follow_setState LOGGING_OUT c) as (F1 & S1 & _).
    destruct (_setState LOGGING_OUT c) as [c1 e1]. cbn [fst snd] in *.
    destruct (Lifecycle.qr_reset (qrAuth c1)) as [q e2].
    destruct (Lifecycle.pairing_reset (pairingAuth c1)) as [p e3].
    pose proof (follow_setState DISCONNECTED
                  {| state := state c1; qrAuth := q; pairingAuth := p |})
      as (F4 & S4 & _).
    destruct (_setState DISCONNECTED _) as [c2 e4]. cbn [fst snd state] in *.
    rewrite follow_app, F1, follow_app, follow_forward, follow_app,
      follow_forward, follow_app, <- S1, F4.
    cbn [follow]. rewrite S4. split; reflexivity.
  - cbn [fst snd state]. split; reflexivity.
  - cbn [fst snd state]. split; reflexivity.
  - cbn [fst snd state]. split; reflexivity.
Qed.

Lemma client_run_cons (c : client) (k : call) (ks : list call) :
  run c (k :: ks) =
    (fst (run (fst (step c k)) ks),
     snd (step c k) ++ snd (run (fst (step c k)) ks)).
Proof.
  cbn [run]. destruct (step c k) as [c1 e1]. cbn [fst snd].
  destruct (run c1 ks) as [c2 e2]. reflexivity.
Qed.

Lemma run_state (ks : list call) : forall c,
  state c = DISCONNECTED \/ state c = AUTHENTICATING ->
  state (fst (run c ks)) =
    if authenticating (ClientState_eqb (state c) AUTHENTICATING) ks
    then AUTHENTICATING else DISCONNECTED.
Proof.
  induction ks as [|k r IH]; intros c Hc.
  - cbn. destruct Hc as [-> | ->]; reflexivity.
  - rewrite client_run_cons. cbn [fst].
    destruct (step_state c k) as [_ Hs].
    rewrite IH.
    + rewrite Hs. destruct k; reflexivity.
    + rewrite Hs. destruct k; auto.
Qed.

(** X21. The state of a [WhatsAppClient] after any sequence of calls and
    timer callbacks: AUTHENTICATING when the last of the [initialize] and
    [logout] calls was an [initialize], DISCONNECTED otherwise.  So the
    client is never authenticated, since [_loadSession] finds no session
    and nothing else moves the state on, and [requestPairingCode] is turned
    down with the state error exactly in the second case. *)
Theorem client_state_after_calls (clientId : option string)
  (qrTimeout qrRefreshInterval pairingTimeout : option Z)
  (id1 id2 : string) (keys1 keys2 : Runtime.keypair)
  (ks : list call) (phone : string) :
  let c := fst (run (new clientId qrTimeout qrRefreshInterval pairingTimeout
                         id1 keys1 id2 keys2) ks) in
  state c = (if authenticating false ks then AUTHENTICATING else DISCONNECTED) /\
  isAuthenticated c = false /\
  (authenticating false ks = false <->
   requestPairingCode phone c = (Runtime.Rejected not_authenticating, c, [])).
Proof.
  cbv zeta.
  set (c0 := new clientId qrTimeout qrRefreshInterval pairingTimeout
                 id1 keys1 id2 keys2).
  pose proof (run_state ks c0 (or_introl eq_refl)) as Hs.
  change (ClientState_eqb (state c0) AUTHENTICATING) with false in Hs.
  split; [exact Hs|]. split.
  - unfold isAuthenticated. rewrite Hs.
    destruct (authenticating false ks); reflexivity.
  - unfold requestPairingCode. rewrite Hs.
    destruct (authenticating false ks); cbn [ClientState_eqb negb].
    + split; [discriminate|].
      destruct (Pairing.requestPairingCode _ phone) as [[out p] effs].
      destruct out; [discriminate|].
      intros H. injection H as _ _ H.
      destruct (forward effs); discriminate.
    + split; reflexivity.
Qed.

Lemma run_follow (ks : list call) : forall c,
  follow (state c) (snd (run c ks)) = Some (state (fst (run c ks))).
Proof.
  induction ks as [|k r IH]; intros c; [reflexivity|].
  rewrite client_run_cons. cbn [fst snd]. rewrite follow_app.
  destruct (step_state c k) as [-> _]. apply IH.
Qed.

(** X22. The [state_change] events of a [WhatsAppClient] tell the whole
    story of its state: over any sequence of calls and timer callbacks from
    any client, every event announces a real change, starts from the state
    the previous event ended in, and the last one ends in the state the
    client is in. *)
Theorem state_changes_chain (c : client) (ks : list call) :
  follow (state c) (snd (run c ks)) = Some (state (fst (run c ks))).
Proof. apply run_follow. Qed.

Lemma timer_eqb_eq (a b : Runtime.timer) : timer_eqb a b = true <-> a = b.
Proof.
  unfold timer_eqb. rewrite andb_true_iff, Z.eqb_eq, String.eqb_eq.
  destruct a, b; cbn. split.
  - intros [-> ->]. reflexivity.
  - intros H. injection H as -> ->. split; reflexivity.
Qed.

Lemma remove_timer_head (t : Runtime.timer) (l : list Runtime.timer) :
  remove_timer t (t :: l) = l.
Proof.
  cbn. replace (timer_eqb t t) with true; [reflexivity|].
  symmetry. apply timer_eqb_eq. reflexivity.
Qed.

Lemma remove_timer_perm (t : Runtime.timer) (l l' : list Runtime.timer) :
  l ≡ₚ l' -> remove_timer t l ≡ₚ remove_timer t l'.
Proof.
  induction 1 as [| x l l' H IH | x y l | l l' l'' H1 IH1 H2 IH2].
  - reflexivity.
  - cbn. destruct (timer_eqb t x); [exact H | constructor; exact IH].
  - cbn. destruct (timer_eqb t x) eqn:Hx, (timer_eqb t y) eqn:Hy.
    + apply timer_eqb_eq in Hx, Hy. subst. reflexivity.
    + reflexivity.
    + reflexivity.
    + constructor.
  - etransitivity; eassumption.
Qed.

Lemma remove_timer_of (t : Runtime.timer) (set rest : list Runtime.timer) :
  set ≡ₚ t :: rest -> remove_timer t set ≡ₚ rest.
Proof.
  intros H. rewrite (remove_timer_perm t _ _ H). rewrite remove_timer_head.
  reflexivity.
Qed.

Lemma live_app (a b : list effect) : forall set,
  live (a ++ b) set = live b (live a set).
Proof.
  induction a as [|e r IH]; intros set; [reflexivity|].
  destruct e as [x y | e | ev p]; cbn [app live]; [apply IH | | apply IH].
  destruct e; apply IH.
Qed.

(** Clearing the timer a field holds, in a trace. *)
Lemma live_clear_timeout (o : option Runtime.timer)
  (set rest : list Runtime.timer) :
  set ≡ₚ option_list o ++ rest ->
  live (forward (match o with
                 | Some t => [Runtime.ClearTimeout t]
                 | None => []
                 end)) set ≡ₚ rest.
Proof.
  intros H. destruct o as [t|]; cbn in *; [|exact H].
  apply remove_timer_of, H.
Qed.

Lemma live_clear_interval (o : option Runtime.timer)
  (set rest : list Runtime.timer) :
  set ≡ₚ option_list o ++ rest ->
  live (forward (match o with
                 | Some t => [Runtime.ClearInterval t]
                 | None => []
                 end)) set ≡ₚ rest.
Proof.
  intros H. destruct o as [t|]; cbn in *; [|exact H].
  apply remove_timer_of, H.
Qed.

Lemma live_setState (s : ClientState) (c : client) (set : list Runtime.timer) :
  live (snd (_setState s c)) set = set.
Proof.
  unfold _setState. cbn [snd]. destruct (ClientState_eqb (state c) s); reflexivity.
Qed.

Lemma held_eq (c : client) :
  held c = option_list (Pairing.pairingTimer (pairingAuth c)) ++
           option_list (QR.qrRefreshTimer (qrAuth c)) ++
           option_list (QR.qrTimer (qrAuth c)).
Proof. reflexivity. Qed.

Lemma live_qr_clearTimers (q : QR.state) (set rest : list Runtime.timer) :
  set ≡ₚ option_list (QR.qrRefreshTimer q) ++ option_list (QR.qrTimer q) ++ rest ->
  live (forward (snd (QR.clearTimers q))) set ≡ₚ rest /\
  QR.qrTimer (fst (QR.clearTimers q)) = None /\
  QR.qrRefreshTimer (fst (QR.clearTimers q)) = None.
Proof.
  intros H. unfold QR.clearTimers. cbn [fst snd QR.qrTimer QR.qrRefreshTimer].
  split; [|split; reflexivity].
  rewrite forward_app, live_app.
  apply live_clear_interval.
  apply live_clear_timeout.
  rewrite H. rewrite !app_assoc. apply Permutation_app_tail.
  apply Permutation_app_comm.
Qed.

Lemma live_pairing_clearTimers (p : Pairing.state)
  (set rest : list Runtime.timer) :
  set ≡ₚ option_list (Pairing.pairingTimer p) ++ rest ->
  live (forward (snd (Pairing.clearTimers p))) set ≡ₚ rest /\
  Pairing.pairingTimer (fst (Pairing.clearTimers p)) = None.
Proof.
  intros H. unfold Pairing.clearTimers.
  destruct (Pairing.pairingTimer p) as [t|] eqn:Ht; cbn in *.
  - split; [|reflexivity]. apply remove_timer_of, H.
  - split; [exact H | exact Ht].
Qed.

Lemma step_live (c : client) (k : call) (set : list Runtime.timer) :
  set ≡ₚ held c ->
  live (snd (step c k)) set ≡ₚ held (fst (step c k)) /\
  (k = Logout -> held (fst (step c k)) = []).
Proof.
  intros H. rewrite held_eq in H.
  destruct k as [ref | phone | | | |]; cbn [step].
  - split; [|discriminate].
    unfold initialize. cbn [_loadSession].
    pose proof (live_setState CONNECTING c) as L1.
    destruct (follow_setState CONNECTING c) as (_ & _ & Q1 & P1).
    destruct (_setState CONNECTING c) as [c1 e1]. cbn [fst snd] in *.
    pose proof (live_setState AUTHENTICATING c1) as L2.
    destruct (follow_setState AUTHENTICATING c1) as (_ & _ & Q2 & P2).
    destruct (_setState AUTHENTICATING c1) as [c2 e2]. cbn [fst snd] in *.
    unfold QR.generateQR.
    destruct (live_qr_clearTimers (qrAuth c2) set
                (option_list (Pairing.pairingTimer (pairingAuth c))))
      as (Hl & Ht & Hr).
    { rewrite Q2, Q1, H. etransitivity; [apply Permutation_app_comm|].
      rewrite <- app_assoc. reflexivity. }
    destruct (QR.clearTimers (qrAuth c2)) as [q1 cleared].
    cbn [fst snd] in *.
    rewrite !live_app, L1, L2, forward_app, live_app.
    cbn [forward flat_map app live].
    rewrite held_eq. cbn [pairingAuth qrAuth QR.qrTimer QR.qrRefreshTimer
                          option_list].
    rewrite P2, P1, Hl. exact (Permutation_app_comm [_; _] _).
  - split; [|discriminate].
    unfold requestPairingCode.
    destruct (negb (ClientState_eqb (state c) AUTHENTICATING)).
    + cbn [fst snd live]. rewrite held_eq. exact H.
    + unfold Pairing.requestPairingCode.
      destruct (negb (JS.truthy_string phone) ||
                negb (Pairing.matches_phone_pattern phone)).
      * cbn [fst snd forward flat_map app live]. rewrite held_eq. exact H.
      * match goal with |- context [Pairing.clearTimers ?p] =>
          destruct (live_pairing_clearTimers p set
                      (option_list (QR.qrRefreshTimer (qrAuth c)) ++
                       option_list (QR.qrTimer (qrAuth c)))) as (Hl & Ht);
            [exact H|];
          destruct (Pairing.clearTimers p) as [p1 cleared]
        end.
        cbn [fst snd] in *.
        rewrite forward_app, live_app.
        cbn [forward flat_map app live].
        rewrite held_eq. cbn [pairingAuth qrAuth Pairing.pairingTimer option_list].
        rewrite Hl. reflexivity.
  - unfold logout.
    pose proof (live_setState LOGGING_OUT c) as L1.
    destruct (follow_setState LOGGING_OUT c) as (_ & _ & Q1 & P1).
    destruct (_setState LOGGING_OUT c) as [c1 e1]. cbn [fst snd] in *.
    unfold Lifecycle.qr_reset, Lifecycle.pairing_reset.
    destruct (live_qr_clearTimers (qrAuth c1) set
                (option_list (Pairing.pairingTimer (pairingAuth c))))
      as (Hl & Ht & Hr).
    { rewrite Q1, H. etransitivity; [apply Permutation_app_comm|].
      rewrite <- app_assoc. reflexivity. }
    destruct (QR.clearTimers (qrAuth c1)) as [q1 cleared].
    cbn [fst snd] in *.
    destruct (live_pairing_clearTimers (pairingAuth c1)
                (live (forward cleared) set) []) as (Hl2 & Ht2).
    { rewrite P1, Hl, app_nil_r. reflexivity. }
    destruct (Pairing.clearTimers (pairingAuth c1)) as [p1 cleared2].
    cbn [fst snd] in *.
    match goal with |- context [_setState DISCONNECTED ?x] =>
      pose proof (live_setState DISCONNECTED x) as L4;
      destruct (follow_setState DISCONNECTED x) as (_ & _ & Q4 & P4);
      destruct (_setState DISCONNECTED x) as [c2 e4]
    end.
    cbn [fst snd qrAuth pairingAuth] in *.
    rewrite !live_app, L1, L4. cbn [live].
    rewrite held_eq, Q4, P4.
    cbn [QR.qrTimer QR.qrRefreshTimer Pairing.pairingTimer].
    rewrite Ht, Hr, Ht2. cbn [option_list app].
    split; [exact Hl2 | reflexivity].
  - split; [|discriminate]. cbn [fst snd forward flat_map app live].
    rewrite held_eq. exact H.
  - split; [|discriminate]. cbn [fst snd forward flat_map app live].
    rewrite held_eq. exact H.
  - split; [|discriminate]. cbn [fst snd forward flat_map app live].
    rewrite held_eq. exact H.
Qed.

Lemma run_live (ks : list call) : forall c set,
  set ≡ₚ held c -> live (snd (run c ks)) set ≡ₚ held (fst (run c ks)).
Proof.
  induction ks as [|k r IH]; intros c set H; [exact H|].
  rewrite client_run_cons. cbn [fst snd]. rewrite live_app.
  apply IH. apply step_live, H.
Qed.

Lemma run_app (a b : list call) : forall c,
  run c (a ++ b) =
    (fst (run (fst (run c a)) b), snd (run c a) ++ snd (run (fst (run c a)) b)).
Proof.
  induction a as [|k r IH]; intros c.
  - cbn. destruct (run c b); reflexivity.
  - cbn [app]. rewrite !client_run_cons, IH. cbn [fst snd].
    rewrite app_assoc. reflexivity.
Qed.

(** X23. No timer of a [WhatsAppClient] is lost.  Over any sequence of
    calls and timer callbacks from a new client, the timers that were set
    and not cleared are exactly the ones the two authenticators hold in
    their fields, so at most three at a time, and a [logout] leaves none. *)
Theorem client_timers_are_held (clientId : option string)
  (qrTimeout qrRefreshInterval pairingTimeout : option Z)
  (id1 id2 : string) (keys1 keys2 : Runtime.keypair) (ks : list call) :
  let c0 := new clientId qrTimeout qrRefreshInterval pairingTimeout
                id1 keys1 id2 keys2 in
  live (snd (run c0 ks)) [] ≡ₚ held (fst (run c0 ks)) /\
  (length (live (snd (run c0 ks)) []) <= 3)%nat /\
  live (snd (run c0 (ks ++ [Logout]))) [] = [].
Proof.
  cbv zeta.
  set (c0 := new clientId qrTimeout qrRefreshInterval pairingTimeout
                 id1 keys1 id2 keys2).
  assert (H0 : [] ≡ₚ held c0) by reflexivity.
  pose proof (run_live ks c0 [] H0) as H.
  split; [exact H|]. split.
  - rewrite H. unfold held.
    destruct (Pairing.pairingTimer _), (QR.qrRefreshTimer _), (QR.qrTimer _);
      cbn; lia.
  - pose proof (run_live (ks ++ [Logout]) c0 [] H0) as H1.
    rewrite run_app in H1. cbn [fst snd] in H1.
    rewrite run_app. cbn [snd].
    rewrite client_run_cons in H1. cbn [fst snd run] in H1.
    destruct (step_live (fst (run c0 ks)) Logout (held (fst (run c0 ks))))
      as [_ Hnil]; [reflexivity|].
    rewrite (Hnil eq_refl) in H1.
    rewrite client_run_cons. cbn [fst snd run].
    apply Permutation_nil_r in H1. exact H1.
Qed.

Lemma digits_only_nonempty (phone : string) :
  Pairing.matches_phone_pattern phone = true ->
  JS.truthy_string (Pairing.digits_only phone) = true.
Proof.
  unfold Pairing.matches_phone_pattern. intros Hm.
  apply andb_true_iff in Hm. destruct Hm as [Hm _].
  apply andb_true_iff in Hm. destruct Hm as [Hall Hlo].
  apply Nat.leb_le in Hlo.
  assert (Hd : forall s, Pairing.all_digits s = true ->
                         (1 <= String.length s)%nat ->
                         JS.truthy_string (Pairing.digits_only s) = true).
  { intros [|c r] Hs Hl; [cbn in Hl; lia|].
    cbn [Pairing.all_digits] in Hs. apply andb_true_iff in Hs.
    destruct Hs as [Hc _]. cbn [Pairing.digits_only]. rewrite Hc. reflexivity. }
  destruct phone as [|c r]; [cbn in Hlo; lia|].
  destruct (Ascii.eqb_spec c "+") as [->|Hne].
  - cbn [Pairing.digits_only]. change (Pairing.digit "+") with false.
    cbn iota. apply Hd; [exact Hall | lia].
  - assert (Hrest : match String c r with
                    | String "+"%char r0 => r0
                    | _ => String c r
                    end = String c r).
    { destruct c as [[] [] [] [] [] [] [] []]; try reflexivity.
      exfalso. apply Hne. reflexivity. }
    rewrite Hrest in *. apply Hd; [exact Hall | lia].
Qed.

(** X24. [setPairingCode] works exactly between an accepted request and
    the next reset.  On a new authenticator it throws; after a call of
    [requestPairingCode] that was fulfilled it emits [pairing_code] with the
    code, also after the pairing timer has fired; after [reset] it throws
    again. *)
Theorem setPairingCode_needs_request (st st' : Pairing.state) (phone code : string)
  (effs : list Runtime.effect) :
  Pairing.requestPairingCode st phone = (Runtime.Fulfilled, st', effs) ->
  Lifecycle.setPairingCode st' code =
    Crypto.Ok [Runtime.Emit "pairing_code" (Codec.VStr code)] /\
  Lifecycle.setPairingCode (fst (Lifecycle.pairing_expired st')) code =
    Crypto.Ok [Runtime.Emit "pairing_code" (Codec.VStr code)] /\
  Lifecycle.setPairingCode (fst (Lifecycle.pairing_reset st')) code =
    Crypto.Throw Lifecycle.no_phone_number /\
  (forall clientId pairingTimeout random keys,
     Lifecycle.setPairingCode
       (Pairing.new clientId pairingTimeout random keys) code =
       Crypto.Throw Lifecycle.no_phone_number).
Proof.
  intros Hreq. unfold Pairing.requestPairingCode in Hreq.
  destruct (negb (JS.truthy_string phone) ||
            negb (Pairing.matches_phone_pattern phone)) eqn:Hv;
    [discriminate|].
  apply orb_false_iff in Hv. destruct Hv as [_ Hm].
  apply negb_false_iff in Hm.
  assert (Hst : Pairing.phoneNumber st' = Some (Pairing.digits_only phone)).
  { unfold Pairing.clearTimers in Hreq. cbn in Hreq.
    destruct (Pairing.pairingTimer st); injection Hreq as <- _; reflexivity. }
  assert (Hset : Lifecycle.setPairingCode st' code =
                 Crypto.Ok [Runtime.Emit "pairing_code" (Codec.VStr code)]).
  { unfold Lifecycle.setPairingCode.
    rewrite Hst, (digits_only_nonempty phone Hm). reflexivity. }
  split; [exact Hset|]. split; [exact Hset|]. split.
  - unfold Lifecycle.pairing_reset.
    destruct (Pairing.clearTimers st'). reflexivity.
  - intros. reflexivity.
Qed.

Lemma setPairingCode_needs_request_witness :
  Lifecycle.setPairingCode
    (snd (fst (Pairing.requestPairingCode Pairing.fresh_authenticator
                 "+40712345678"))) "ABCD1234" =
    Crypto.Ok [Runtime.Emit "pairing_code" (Codec.VStr "ABCD1234")].
Proof.
  apply (setPairingCode_needs_request Pairing.fresh_authenticator _
           "+40712345678" "ABCD1234" _ eq_refl).
Defined.

Lemma generateQR_data_truthy (st : QR.state) (ref : string) :
  JS.truthy_string (fst (fst (QR.generateQR st ref))) = true /\
  QR.qrData (snd (fst (QR.generateQR st ref))) =
    Some (fst (fst (QR.generateQR st ref))).
Proof.
  unfold QR.generateQR. destruct (QR.clearTimers st) as [st1 cleared].
  cbn [fst snd QR.qrData]. split; [|reflexivity].
  destruct ref; reflexivity.
Qed.

(** X25. The QR data lives from [generateQR] to the expiry callback or
    [reset].  Right after [generateQR], [displayQR] without arguments shows
    the string that [generateQR] returned, in the small format; once the
    expiry timer has fired, or after [reset], it throws.  The refresh
    callback leaves the data in place. *)
Theorem displayQR_lifetime (st : QR.state) (ref : string) :
  let '(data, st1, _) := QR.generateQR st ref in
  Lifecycle.displayQR st1 None None = Crypto.Ok (data, true) /\
  Lifecycle.displayQR (fst (Lifecycle.qr_refresh_needed st1)) None None =
    Crypto.Ok (data, true) /\
  Lifecycle.displayQR (fst (Lifecycle.qr_expired st1)) None None =
    Crypto.Throw Lifecycle.no_qr_data /\
  Lifecycle.displayQR (fst (Lifecycle.qr_reset st1)) None None =
    Crypto.Throw Lifecycle.no_qr_data.
Proof.
  destruct (generateQR_data_truthy st ref) as [Ht Hd].
  destruct (QR.generateQR st ref) as [[data st1] effs]. cbn [fst snd] in *.
  assert (Hshow : Lifecycle.displayQR st1 None None = Crypto.Ok (data, true)).
  { unfold Lifecycle.displayQR. rewrite Hd. unfold Cache.or_string.
    rewrite Ht. cbn [negb]. rewrite Ht. reflexivity. }
  split; [exact Hshow|]. split; [exact Hshow|]. split.
  - reflexivity.
  - unfold Lifecycle.qr_reset. destruct (QR.clearTimers st1). reflexivity.
Qed.

End ClientLaws.

(** ** [WebSocketClient]: reconnection over the life of a connection *)

Module SocketLaws.
Import Socket.

Lemma quiet_send (type : string) (c : client) : quiet (snd (send type c)).
Proof.
  unfold send. destruct (negb (ws c) || _); split; reflexivity.
Qed.

Lemma announced_app (a b : list effect) :
  announced (a ++ b) = announced a ++ announced b.
Proof. unfold announced. apply flat_map_app. Qed.

Lemma scheduled_app (a b : list effect) :
  scheduled (a ++ b) = (scheduled a + scheduled b)%nat.
Proof. unfold scheduled. rewrite flat_map_app, length_app. reflexivity. Qed.

Lemma quiet_app (a b : list effect) : quiet a -> quiet b -> quiet (a ++ b).
Proof.
  intros [A1 A2] [B1 B2]. split.
  - rewrite announced_app, A1, B1. reflexivity.
  - rewrite scheduled_app, A2, B2. reflexivity.
Qed.

Ltac quiet_tac :=
  repeat first [ assumption | apply quiet_send | (split; reflexivity)
               | apply quiet_app ].

Lemma quiet_setState (s : ConnectionState) (c : client) :
  quiet (snd (_setState s c)) /\
  retry (fst (_setState s c)) = retry c.
Proof.
  unfold _setState. cbn [fst snd retry].
  destruct (ConnectionState_eqb (state c) s); repeat split; reflexivity.
Qed.

Lemma quiet_clearTimers (c : client) :
  quiet (snd (_clearTimers c)) /\
  Reconnect.reconnectAttempts (retry (fst (_clearTimers c))) =
    Reconnect.reconnectAttempts (retry c).
Proof.
  unfold _clearTimers. cbn [fst snd retry Reconnect.reconnectAttempts].
  destruct (Reconnect.reconnectTimer (retry c)), (keepAliveTimer c);
    repeat split; reflexivity.
Qed.

Lemma quiet_connect (c : client) :
  quiet (snd (_connect c)) /\
  Reconnect.reconnectAttempts (retry (fst (_connect c))) =
    Reconnect.reconnectAttempts (retry c).
Proof.
  unfold _connect.
  destruct (quiet_setState CONNECTING c) as [Q1 R1].
  destruct (_setState CONNECTING c) as [c1 e1]. cbn [fst snd] in *.
  destruct (quiet_clearTimers c1) as [Q2 R2].
  destruct (_clearTimers c1) as [c2 e2]. cbn [fst snd retry] in *.
  split; [|congruence].
  destruct (ws c2); quiet_tac.
Qed.

Lemma quiet_open (o : options) (c : client) :
  quiet (snd (on_open o c)) /\ retry (fst (on_open o c)) = retry c.
Proof.
  unfold on_open.
  destruct (quiet_setState CONNECTED c) as [Q1 R1].
  destruct (_setState CONNECTED c) as [c1 e1]. cbn [fst snd] in *.
  unfold _startKeepAlive. cbn [creds].
  assert (Q2 : quiet (match keepAliveTimer c1 with
                      | Some d => [ClearKeepAlive d]
                      | None => []
                      end ++ [SetKeepAlive (keepAliveInterval o)]))
    by (destruct (keepAliveTimer c1); split; reflexivity).
  destruct (match creds c1 with Some k => nonempty k | None => false end).
  - unfold _authenticate. cbn [ws state].
    destruct (negb (ws c1) || negb (ConnectionState_eqb (state c1) CONNECTED)).
    + cbn [fst snd retry]. split; [|exact R1].
      quiet_tac.
    + match goal with |- context [_setState AUTHENTICATING ?x] =>
        destruct (quiet_setState AUTHENTICATING x) as [Q3 R3];
        destruct (_setState AUTHENTICATING x) as [c3 e3]
      end.
      cbn [fst snd retry] in *. split; [|congruence].
      quiet_tac.
  - cbn [fst snd retry]. split; [|exact R1].
    quiet_tac.
Qed.

Lemma quiet_handleMessage (m : incoming) (c : client) :
  quiet (snd (_handleMessage m c)) /\
  retry (fst (_handleMessage m c)) = retry c.
Proof.
  destruct m as [| [] withKey | decrypts | |]; cbn [_handleMessage];
    try (repeat split; reflexivity).
  - destruct (quiet_setState AUTHENTICATED c) as [Q1 R1].
    destruct (_setState AUTHENTICATED c) as [c1 e1]. cbn [fst snd] in *.
    destruct withKey.
    + destruct (creds c1) as [k|].
      * match goal with |- context [_setState READY ?x] =>
          destruct (quiet_setState READY x) as [Q2 R2];
          destruct (_setState READY x) as [c2 e2]
        end.
        cbn [fst snd retry] in *. split; [|congruence].
        quiet_tac.
      * cbn [fst snd]. split; [|exact R1].
        quiet_tac.
    + destruct (quiet_setState READY c1) as [Q2 R2].
      destruct (_setState READY c1) as [c2 e2].
      cbn [fst snd] in *. split; [|congruence].
      quiet_tac.
  - destruct (creds c) as [k|]; [|repeat split; reflexivity].
    destruct (privateKey k && serverPublicKey k); repeat split; reflexivity.
Qed.

Lemma quiet_close (code : Z) (c : client) :
  quiet (snd (close code c)) /\
  Reconnect.reconnectAttempts (retry (fst (close code c))) =
    Reconnect.reconnectAttempts (retry c).
Proof.
  unfold close.
  destruct (quiet_clearTimers c) as [Q1 R1].
  destruct (_clearTimers c) as [c1 e1]. cbn [fst snd] in *.
  match goal with |- context [_setState CLOSED ?x] =>
    destruct (quiet_setState CLOSED x) as [Q2 R2];
    destruct (_setState CLOSED x) as [c2 e2]
  end.
  cbn [fst snd retry] in *. split; [|congruence].
  destruct (ws c1); quiet_tac.
Qed.

(** The socket closing: one more attempt when there is room, none
    otherwise. *)
Lemma closed_attempt (o : options) (code : Z) (c : client) :
  let a := Reconnect.reconnectAttempts (retry c) in
  let c' := fst (on_close o code c) in
  let effs := snd (on_close o code c) in
  (Reconnect.reconnectAttempts (retry c') = a /\ quiet effs) \/
  (a < limit o /\ Reconnect.reconnectAttempts (retry c') = a + 1 /\
   announced effs = [a + 1] /\ scheduled effs = 1%nat).
Proof.
  cbv zeta. unfold on_close.
  destruct (quiet_setState CLOSED c) as [Q1 R1].
  destruct (_setState CLOSED c) as [c1 e1]. cbn [fst snd] in *.
  destruct (quiet_clearTimers c1) as [Q2 R2].
  pose proof (eq_refl : Reconnect.reconnectTimer (retry (fst (_clearTimers c1)))
                        = None) as T2.
  destruct (_clearTimers c1) as [c2 e2]. cbn [fst snd] in *.
  rewrite R1 in R2.
  assert (Qc : quiet [Emit "close"]) by (split; reflexivity).
  destruct (negb (code =? 1000)).
  - unfold Reconnect._reconnect. rewrite T2. fold (limit o).
    destruct (Z.leb_spec (limit o) (Reconnect.reconnectAttempts (retry c2)))
      as [Hge | Hlt]; cbn [fst snd retry Reconnect.reconnectAttempts app map].
    + left. split; [exact R2|].
      quiet_tac.
    + right. rewrite R2 in *. split; [exact Hlt|]. split; [reflexivity|].
      destruct Q1 as [A1 S1], Q2 as [A2 S2].
      rewrite !announced_app, !scheduled_app, A1, A2, S1, S2.
      split; reflexivity.
  - left. cbn [fst snd]. split; [exact R2|].
    quiet_tac.
Qed.

Lemma step_attempt (o : options) (c : client) (i : input) :
  is_connect i = false ->
  let a := Reconnect.reconnectAttempts (retry c) in
  let c' := fst (step o c i) in
  let effs := snd (step o c i) in
  (Reconnect.reconnectAttempts (retry c') = a /\ quiet effs) \/
  (a < limit o /\ Reconnect.reconnectAttempts (retry c') = a + 1 /\
   announced effs = [a + 1] /\ scheduled effs = 1%nat).
Proof.
  intros Hi. cbv zeta. destruct i as [k | code | | code | | m | |];
    cbn [step]; try discriminate Hi.
  - left. destruct (quiet_close code c) as [Q R]. split; assumption.
  - left. destruct (quiet_open o c) as [Q R]. rewrite R. split; [reflexivity|exact Q].
  - apply closed_attempt.
  - left. repeat split; reflexivity.
  - left. destruct (quiet_handleMessage m c) as [Q R]. rewrite R.
    split; [reflexivity | exact Q].
  - left. destruct (quiet_connect c) as [Q R]. split; assumption.
  - left. destruct (ws c && negb (ConnectionState_eqb (state c) CLOSED));
      cbn [fst snd]; split; try reflexivity.
    + apply quiet_send.
    + split; reflexivity.
Qed.

Lemma socket_run_cons (o : options) (c : client) (i : input) (r : list input) :
  run o c (i :: r) =
    (fst (run o (fst (step o c i)) r),
     snd (step o c i) ++ snd (run o (fst (step o c i)) r)).
Proof.
  cbn [run]. destruct (step o c i) as [c1 e1]. cbn [fst snd].
  destruct (run o c1 r) as [c2 e2]. reflexivity.
Qed.

Lemma run_attempts (o : options) (inputs : list input) : forall c,
  forallb (fun i => negb (is_connect i)) inputs = true ->
  exists n : nat,
    Reconnect.reconnectAttempts (retry (fst (run o c inputs))) =
      Reconnect.reconnectAttempts (retry c) + Z.of_nat n /\
    announced (snd (run o c inputs)) =
      map (fun k => Reconnect.reconnectAttempts (retry c) + Z.of_nat k) (seq 1 n) /\
    scheduled (snd (run o c inputs)) = n /\
    (n = 0%nat \/
     Reconnect.reconnectAttempts (retry c) + Z.of_nat n <= limit o).
Proof.
  induction inputs as [|i r IH]; intros c Hall.
  - exists 0%nat. cbn. repeat split; lia.
  - cbn [forallb] in Hall. apply andb_true_iff in Hall.
    destruct Hall as [Hi Hr]. apply negb_true_iff in Hi.
    rewrite socket_run_cons. cbn [fst snd].
    destruct (IH (fst (step o c i)) Hr) as (n & Hn & Ha & Hs & Hb).
    destruct (step_attempt o c i Hi) as [[Heq [Qa Qs]] | (Hlt & Heq & Han & Hsc)].
    + rewrite Heq in Hn, Ha, Hb. exists n.
      rewrite announced_app, scheduled_app, Qa, Qs. cbn [app Nat.add].
      repeat split; assumption.
    + rewrite Heq in Hn, Ha, Hb. exists (S n).
      rewrite announced_app, scheduled_app, Han, Hsc, Hn, Ha, Hs.
      split; [lia|]. split.
      * cbn [seq map app]. apply (f_equal2 cons); [lia|].
        rewrite <- (seq_shift n 1), map_map. apply map_ext. intros k. lia.
      * split; [reflexivity|]. right. destruct Hb as [-> | Hb]; lia.
Qed.

(** X26. [WebSocketClient] counts its reconnection attempts over the whole
    life of a [connect] call: nothing but [connect] sets the counter back,
    not even the socket opening again.  So after [connect], over any
    sequence of socket events, messages, timer callbacks and [close] calls,
    the attempts announced by [reconnecting] are numbered 1, 2, 3, ... with
    no gap or repeat, each schedules one connection, and there are never
    more of them than [maxReconnectAttempts], or ten when that is zero. *)
Theorem reconnect_attempts_are_bounded (o : options) (c : client)
  (credentials : option credentials) (inputs : list input) :
  forallb (fun i => negb (is_connect i)) inputs = true ->
  let effs := snd (run o c (Connect credentials :: inputs)) in
  exists n : nat,
    announced effs = map Z.of_nat (seq 1 n) /\
    scheduled effs = n /\
    Z.of_nat n <= Z.max 0 (limit o).
Proof.
  intros Hall. cbv zeta. rewrite socket_run_cons. cbn [step fst snd].
  unfold connect.
  match goal with |- context [_connect ?x] =>
    destruct (quiet_connect x) as [[Qa Qs] R]; set (c1 := fst (_connect x)) in *
  end.
  cbn [retry Reconnect.reconnectAttempts] in R.
  destruct (run_attempts o inputs c1 Hall) as (n & _ & Ha & Hs & Hb).
  exists n. rewrite announced_app, scheduled_app, Qa, Qs, Ha, Hs, R.
  split; [|split; [reflexivity|]].
  - apply map_ext. intros k. lia.
  - rewrite R in Hb. lia.
Qed.

Lemma reconnect_attempts_are_bounded_witness :
  exists n : nat,
    announced (snd (run (fst two_attempts) (snd two_attempts)
                        (Connect None :: flaky))) = map Z.of_nat (seq 1 n) /\
    scheduled (snd (run (fst two_attempts) (snd two_attempts)
                        (Connect None :: flaky))) = n /\
    Z.of_nat n <= Z.max 0 (limit (fst two_attempts)).
Proof.
  apply (reconnect_attempts_are_bounded (fst two_attempts) (snd two_attempts)
           None flaky).
  reflexivity.
Defined.

End SocketLaws.

(** ** The TweetNaCl wrapper between two peers *)

Module CryptoLaws.
Import Crypto.

Section Peers.
Context {L : NaCl} (laws : NaClLaws L).

(** The shared secret of a generated private key and a generated public
    key. *)
Lemma createSharedSecret_generated (a b : Uint8Array) :
  length a = 32%nat -> length b = 32%nat ->
  createSharedSecret (Runtime.privateKey (generateKeyPair a))
                     (Runtime.publicKey (generateKeyPair b)) =
    Ok (hsalsa20 (scalarMult a (scalarMult b basePoint))).
Proof.
  intros Ha Hb.
  unfold generateKeyPair, box_keyPair, createSharedSecret, util_decodeBase64.
  cbn [fst snd Runtime.privateKey Runtime.publicKey].
  rewrite !(decodeBase64_encodeBase64 L laws). cbn [bind]. unfold box_before.
  rewrite (scalarMult_base_length L laws) by assumption.
  rewrite Ha. reflexivity.
Qed.

(** What [encrypt] returns when it returns: the nonce has 24 bytes and the
    ciphertext is the Base64 text of the nonce followed by a box. *)
Lemma encrypt_shape (message : Codec.value) (privateKey : string)
  (publicKey : option string) (nonce : Uint8Array) (c : string) :
  encrypt message privateKey publicKey nonce = Ok c ->
  length nonce = 24%nat /\
  exists box, c = encodeBase64 (nonce ++ box).
Proof.
  unfold encrypt.
  destruct (if typeof_object message
            then Ok (decodeUTF8 (JSON_stringify message))
            else match message with
                 | Codec.VStr messageStr => Ok (decodeUTF8 messageStr)
                 | _ => Throw "expected string"
                 end) as [bytes | msg]; [|discriminate].
  cbn [bind].
  destruct (sharedSecret privateKey publicKey) as [key | msg]; [|discriminate].
  cbn [bind]. unfold secretbox.
  destruct (negb (length key =? 32)%nat); [discriminate|].
  destruct (length nonce =? 24)%nat eqn:Hn; cbn [negb]; [|discriminate].
  cbn [bind]. intros [= <-]. apply Nat.eqb_eq in Hn. eauto.
Qed.

(** Encryption under one pair of key arguments and decryption under
    another, when both pairs give the same secret. *)
Lemma decrypt_of_encrypt (message : Codec.value) (text : string)
  (privateKey privateKey' : string) (publicKey publicKey' : option string)
  (nonce key : Uint8Array) :
  sealed_text message = Some text ->
  length nonce = 24%nat -> length key = 32%nat ->
  sharedSecret privateKey publicKey = Ok key ->
  sharedSecret privateKey' publicKey' = Ok key ->
  exists c,
    encrypt message privateKey publicKey nonce = Ok c /\
    decrypt c privateKey' publicKey' = Ok (read_text text).
Proof.
  intros Htext Hnonce Hlen Hkey Hkey'.
  exists (encodeBase64 (nonce ++ seal (decodeUTF8 text) nonce key)).
  assert (Hbytes :
    (if typeof_object message then Ok (decodeUTF8 (JSON_stringify message))
     else match message with
          | Codec.VStr messageStr => Ok (decodeUTF8 messageStr)
          | _ => Throw "expected string"
          end) = Ok (decodeUTF8 text)).
  { unfold sealed_text in Htext. destruct (typeof_object message).
    - now injection Htext as <-.
    - destruct message; try discriminate Htext. now injection Htext as <-. }
  split.
  - unfold encrypt. rewrite Hbytes. cbn [bind]. rewrite Hkey. cbn [bind].
    unfold secretbox. rewrite Hlen, Hnonce. reflexivity.
  - unfold decrypt, util_decodeBase64.
    rewrite (decodeBase64_encodeBase64 L laws). cbn [bind].
    rewrite Hkey'. cbn [bind].
    rewrite firstn_app, <- Hnonce, Nat.sub_diag, firstn_all, firstn_0,
      app_nil_r.
    rewrite skipn_app, Nat.sub_diag, skipn_all, skipn_0. cbn [app].
    unfold secretbox_open. rewrite Hlen, Hnonce. cbn [negb Nat.eqb bind].
    rewrite (unseal_seal L laws), (encodeUTF8_decodeUTF8 L laws).
    unfold read_text. destruct (JSON_parse text); reflexivity.
Qed.

(** X27. Two peers can talk.  When each side generates a key pair from
    32 random bytes, what one side encrypts with its private key and the
    other's public key is decrypted by the other side with its own private
    key and the first side's public key: the result is the sealed text,
    parsed as JSON where it parses. *)
Theorem peer_round_trip (a b nonce : Uint8Array) (message : Codec.value)
  (text : string) :
  length a = 32%nat -> length b = 32%nat -> length nonce = 24%nat ->
  sealed_text message = Some text ->
  JS.truthy_string (Runtime.publicKey (generateKeyPair a)) = true ->
  JS.truthy_string (Runtime.publicKey (generateKeyPair b)) = true ->
  exists c,
    encrypt message (Runtime.privateKey (generateKeyPair a))
            (Some (Runtime.publicKey (generateKeyPair b))) nonce = Ok c /\
    decrypt c (Runtime.privateKey (generateKeyPair b))
            (Some (Runtime.publicKey (generateKeyPair a))) =
      Ok (read_text text).
Proof.
  intros Ha Hb Hnonce Htext Hta Htb.
  apply (decrypt_of_encrypt message text _ _ _ _ nonce
           (hsalsa20 (scalarMult a (scalarMult b basePoint))) Htext Hnonce).
  - apply (hsalsa20_length L laws).
  - unfold sharedSecret. rewrite Htb.
    apply createSharedSecret_generated; assumption.
  - unfold sharedSecret. rewrite Hta.
    rewrite (scalarMult_comm L laws a b).
    apply createSharedSecret_generated; assumption.
Qed.

(** X28. The nonce travels in the clear at the head of the ciphertext, and
    it separates ciphertexts.  Whenever [encrypt] returns, the nonce had 24
    bytes and the first 24 bytes of the decoded ciphertext are the nonce;
    so two encryptions under different nonces never return the same
    ciphertext, whatever the messages and keys. *)
Theorem ciphertext_carries_nonce (message : Codec.value) (privateKey : string)
  (publicKey : option string) (nonce : Uint8Array) (c : string) :
  encrypt message privateKey publicKey nonce = Ok c ->
  length nonce = 24%nat /\
  (exists combined,
      decodeBase64 c = Some combined /\ firstn 24 combined = nonce) /\
  forall message' privateKey' publicKey' nonce' c',
    encrypt message' privateKey' publicKey' nonce' = Ok c' ->
    nonce <> nonce' -> c <> c'.
Proof.
  intros He. destruct (encrypt_shape _ _ _ _ _ He) as [Hn [box ->]].
  assert (Hfirst : forall n bx : Uint8Array,
             length n = 24%nat -> firstn 24 (n ++ bx) = n).
  { intros n bx H. rewrite firstn_app, <- H, Nat.sub_diag, firstn_all, firstn_0.
    apply app_nil_r. }
  split; [exact Hn|]. split.
  - exists (nonce ++ box). split.
    + apply (decodeBase64_encodeBase64 L laws).
    + apply Hfirst, Hn.
  - intros message' privateKey' publicKey' nonce' c' He' Hne Heq.
    destruct (encrypt_shape _ _ _ _ _ He') as [Hn' [box' ->]].
    apply (f_equal decodeBase64) in Heq.
    rewrite !(decodeBase64_encodeBase64 L laws) in Heq.
    injection Heq as Heq. apply (f_equal (firstn 24)) in Heq.
    rewrite !Hfirst in Heq by assumption. contradiction.
Qed.

End Peers.

Lemma peer_round_trip_witness :
  exists c,
    encrypt (L := small) Codec.VNull
      (Runtime.privateKey (generateKeyPair (L := small) secret_a))
      (Some (Runtime.publicKey (generateKeyPair (L := small) secret_b)))
      nonce24 = Ok c /\
    decrypt (L := small) c
      (Runtime.privateKey (generateKeyPair (L := small) secret_b))
      (Some (Runtime.publicKey (generateKeyPair (L := small) secret_a))) =
      Ok Codec.VNull.
Proof.
  exact (peer_round_trip CryptoTheory.small_lawful secret_a secret_b nonce24 Codec.VNull
           "null" eq_refl eq_refl eq_refl eq_refl eq_refl eq_refl).
Defined.

Lemma ciphertext_carries_nonce_witness :
  exists c combined,
    encrypt (L := small) Codec.VNull key32 None nonce24 = Ok c /\
    @decodeBase64 small c = Some combined /\
    firstn 24 combined = nonce24.
Proof.
  eexists.
  destruct (ciphertext_carries_nonce CryptoTheory.small_lawful Codec.VNull
              key32 None nonce24 _ eq_refl) as (_ & (combined & Hd & Hf) & _).
  exists combined. split; [reflexivity|]. split; [exact Hd | exact Hf].
Defined.

End CryptoLaws.
